(** * SU2 EDU: turbulence variables and configuration options

    A shallow embedding of
    - [src/variable_direct_turbulent.cpp]: the per-point turbulence variables
      ([CTurbVariable], [CTurbSAVariable], [CTurbSSTVariable]) with the SST
      blending functions, and
    - [include/option_structure.hpp]: the option classes that bind a list of
      configuration tokens to typed fields (the [COption...] classes and
      the older [C...OptionRef] and [CMarker...Ref] classes), with
      [CCreateMap], [StringToUpperCase] and the maps of the numerical
      schemes.

    Conventions of the embedding.
    - A C++ [double] is a real number: rounding, infinities and NaN are left
      out, every arithmetic operation is the exact one.  The exception is
      [Turb64], where [SetBlendingFunc] is embedded a second time over
      binary64 values with the IEEE 754 operations: what is said of zero
      divisors is said there, since a product of nonzero doubles can
      underflow to zero.
    - A heap array is a list; a pointer that may be [NULL] is an [option].
    - Reading or writing an array outside its bounds has no defined behaviour
      in C++: the embedding returns [None] there.
    - [unsigned short] values are integers reduced modulo [2^16].
    - A [std::map] with string keys is a [gmap]. *)

From Stdlib Require Import Reals Lra Lia ZArith Ascii.
From Stdlib Require Import RNsatz.
From Stdlib Require Floats.
From stdpp Require Import base option list strings gmap pretty.

Open Scope R_scope.

(** Decimal constants of the source that are not binary64 values stand for
    the nearest one. *)
Set Warnings "-inexact-float".

(* ===================================================================== *)
(** * Arithmetic of the C++ standard library on [double] *)
(* ===================================================================== *)

Module Std.

(** [std::max(a, b)] is [(a < b) ? b : a]. *)
Definition max (a b : R) : R := if Rlt_dec a b then b else a.

(** [std::min(a, b)] is [(b < a) ? b : a]. *)
Definition min (a b : R) : R := if Rlt_dec b a then b else a.

(** [pow(x, y)] for a positive base [x]. *)
Definition pow (x y : R) : R := Rpower x y.

(** [new double[n]]: [n] cells that have not been written; [garbage] gives
    the content of such storage, one value per cell. *)
Definition new_double (garbage : nat -> R) (n : nat) : list R :=
  map garbage (seq 0 n).

(** [unsigned short]. *)
Definition ushort (z : Z) : Z := (z mod 65536)%Z.

(** [static_cast<int>] of a nonnegative value, on 32 bits. *)
Definition to_int (z : Z) : Z := ((z + 2 ^ 31) mod 2 ^ 32 - 2 ^ 31)%Z.

Definition INT_MAX : Z := (2 ^ 31 - 1)%Z.

(** [endl] writes a line feed. *)
Definition endl : string := String (ascii_of_nat 10) EmptyString.

(** How a call that may throw ends: it returns, it throws an [int], or it
    has no defined behaviour.  [S] is the state it leaves. *)
Inductive outcome (S : Type) : Type :=
| Returns (s : S)
| Throws (code : Z) (s : S)
| Undefined.
Arguments Returns {S} s.
Arguments Throws {S} code s.
Arguments Undefined {S}.

End Std.

(* ===================================================================== *)
(** * Turbulence variables ([variable_direct_turbulent.cpp]) *)
(* ===================================================================== *)

Module Turb.

(** ** Evaluation with a record of the divisors

    A computation either meets an out-of-bounds access ([None]) or yields a
    value together with the divisors of the divisions it performed, in the
    order of execution. *)

Definition calc (A : Type) : Type := option (A * list R).

Definition ret {A} (a : A) : calc A := Some (a, []).

Definition bind {A B} (m : calc A) (k : A -> calc B) : calc B :=
  match m with
  | None => None
  | Some (a, d1) =>
      match k a with
      | None => None
      | Some (b, d2) => Some (b, d1 ++ d2)
      end
  end.

Declare Scope calc_scope.
Delimit Scope calc_scope with calc.
Notation "x <- m ; k" := (bind m (fun x => k))
  (at level 20, m at level 100, k at level 200, only parsing) : calc_scope.

(** [a[i]] on an array of doubles. *)
Definition load (a : list R) (i : nat) : calc R :=
  match a !! i with
  | Some x => ret x
  | None => None
  end.

(** [a[i][j]] on an array of arrays of doubles. *)
Definition load2 (a : list (list R)) (i j : nat) : calc R :=
  match a !! i with
  | Some row => load row j
  | None => None
  end.

(** [x / y], recording the divisor. *)
Definition divide (x y : R) : calc R := Some (x / y, [y]).

(** [a[i] = x] on an array of doubles. *)
Definition store (a : list R) (i : nat) (x : R) : option (list R) :=
  if decide (i < length a)%nat then Some (<[i := x]> a) else None.

(** ** The class hierarchy *)

(** The members of [CVariable] that the turbulence variables use. *)
Record CVariable : Type := mkCVariable {
  nDim : nat;
  nVar : nat;
  Solution : list R;
  Solution_Old : list R;
  Gradient : list (list R);
  Limiter : list R;
  Solution_Max : list R;
  Solution_Min : list R
}.

Record CTurbVariable : Type := mkCTurbVariable {
  turb_base :> CVariable;
  muT : R
}.

Record CTurbSAVariable : Type := mkCTurbSAVariable {
  sa_base :> CTurbVariable
}.

Record CTurbSSTVariable : Type := mkCTurbSSTVariable {
  sst_base :> CTurbVariable;
  sigma_om2 : R;
  beta_star : R;
  F1 : R;
  F2 : R;
  CDkw : R
}.

(** The dimensions that the constructors establish: [nVar] solution entries
    and an [nVar] by [nDim] gradient. *)
Definition dims_ok (v : CVariable) : Prop :=
  length (Solution v) = nVar v /\
  length (Solution_Old v) = nVar v /\
  length (Gradient v) = nVar v /\
  Forall (fun row => length row = nDim v) (Gradient v).

Section Constructors.

(** The content of storage that has been allocated and not yet written. *)
Variable garbage : nat -> R.

Local Abbreviation new_double := (Std.new_double garbage).

(** Modelled from the spec: the constructor [CVariable::CVariable(val_nDim,
    val_nVar, config)] of the base class ([variable_structure.hpp] and its
    implementation are not among the sources).  Per the data model a grid
    point owns a state vector of [nVar] quantities and their gradients; the
    limiter and the bounds are allocated by the derived class. *)
Definition CVariable_ctor (val_nDim val_nVar : nat) : CVariable :=
  {| nDim := val_nDim;
     nVar := val_nVar;
     Solution := new_double val_nVar;
     Solution_Old := new_double val_nVar;
     Gradient := replicate val_nVar (new_double val_nDim);
     Limiter := [];
     Solution_Max := [];
     Solution_Min := [] |}.

(** [for (iVar = from; iVar < from + n; iVar++) a[iVar] = 0.0;] *)
Fixpoint zero_loop (n : nat) (iVar : nat) (a : list R) : option (list R) :=
  match n with
  | O => Some a
  | S n' => a' ← store a iVar 0; zero_loop n' (S iVar) a'
  end.

(** [for (iVar = from; ...) { a[iVar] = 0.0; b[iVar] = 0.0; }] *)
Fixpoint zero_loop2 (n : nat) (iVar : nat) (a b : list R)
  : option (list R * list R) :=
  match n with
  | O => Some (a, b)
  | S n' =>
      a' ← store a iVar 0;
      b' ← store b iVar 0;
      zero_loop2 n' (S iVar) a' b'
  end.

(** [CTurbVariable::CTurbVariable(val_nDim, val_nVar, config)]. *)
Definition CTurbVariable_ctor (val_nDim val_nVar : nat)
  : option CTurbVariable :=
  let this := CVariable_ctor val_nDim val_nVar in
  lim ← zero_loop (nVar this) 0 (new_double (nVar this));
  '(smax, smin) ← zero_loop2 (nVar this) 0
                    (new_double (nVar this)) (new_double (nVar this));
  Some {| turb_base :=
            {| nDim := nDim this;
               nVar := nVar this;
               Solution := Solution this;
               Solution_Old := Solution_Old this;
               Gradient := Gradient this;
               Limiter := lim;
               Solution_Max := smax;
               Solution_Min := smin |};
          muT := garbage 0 |}.

(** [double CTurbVariable::GetmuT()]. *)
Definition GetmuT (v : CTurbVariable) : R := muT v.

(** [void CTurbVariable::SetmuT(double val_muT)]. *)
Definition SetmuT (val_muT : R) (v : CTurbVariable) : CTurbVariable :=
  {| turb_base := turb_base v; muT := val_muT |}.

Definition set_Solution (s : list R) (v : CVariable) : CVariable :=
  {| nDim := nDim v; nVar := nVar v; Solution := s;
     Solution_Old := Solution_Old v; Gradient := Gradient v;
     Limiter := Limiter v; Solution_Max := Solution_Max v;
     Solution_Min := Solution_Min v |}.

Definition set_Solution_Old (s : list R) (v : CVariable) : CVariable :=
  {| nDim := nDim v; nVar := nVar v; Solution := Solution v;
     Solution_Old := s; Gradient := Gradient v;
     Limiter := Limiter v; Solution_Max := Solution_Max v;
     Solution_Min := Solution_Min v |}.

(** [CTurbSAVariable::CTurbSAVariable(val_nu_tilde, val_muT, val_nDim,
    val_nVar, config)]. *)
Definition CTurbSAVariable_ctor (val_nu_tilde val_muT : R)
    (val_nDim val_nVar : nat) : option CTurbSAVariable :=
  CTurbVariable_ctor val_nDim val_nVar ≫= λ this : CTurbVariable,
  s ← store (Solution this) 0 val_nu_tilde;
  so ← store (Solution_Old this) 0 val_nu_tilde;
  Some {| sa_base :=
            {| turb_base := set_Solution_Old so (set_Solution s this);
               muT := val_muT |} |}.

(** [CTurbSSTVariable::CTurbSSTVariable(val_kine, val_omega, val_muT,
    val_nDim, val_nVar, constants, config)]. *)
Definition CTurbSSTVariable_ctor (val_kine val_omega val_muT : R)
    (val_nDim val_nVar : nat) (constants : list R) : option CTurbSSTVariable :=
  CTurbVariable_ctor val_nDim val_nVar ≫= λ this : CTurbVariable,
  s0 ← store (Solution this) 0 val_kine;
  so0 ← store (Solution_Old this) 0 val_kine;
  s1 ← store s0 1 val_omega;
  so1 ← store so0 1 val_omega;
  c3 ← constants !! 3%nat;
  c6 ← constants !! 6%nat;
  Some {| sst_base :=
            {| turb_base := set_Solution_Old so1 (set_Solution s1 this);
               muT := val_muT |};
          sigma_om2 := c3;
          beta_star := c6;
          F1 := 1;
          F2 := 0;
          CDkw := 0 |}.

End Constructors.

(** ** The blending functions *)

Open Scope calc_scope.

(** [for (iDim = ...; iDim < nDim; iDim++)
      CDkw += Gradient[0][iDim]*Gradient[1][iDim];]
    with [n] iterations left. *)
Fixpoint cross_loop (G : list (list R)) (n : nat) (iDim : nat) (acc : R)
  : calc R :=
  match n with
  | O => ret acc
  | S n' =>
      g0 <- load2 G 0 iDim ;
      g1 <- load2 G 1 iDim ;
      cross_loop G n' (S iDim) (acc + g0 * g1)
  end.

(** [void CTurbSSTVariable::SetBlendingFunc(val_viscosity, val_dist,
    val_density)]. *)
Definition SetBlendingFunc (val_viscosity val_dist val_density : R)
    (this : CTurbSSTVariable) : calc CTurbSSTVariable :=
  (* Cross diffusion *)
  c0 <- cross_loop (Gradient this) (nDim this) 0 0 ;
  om <- load (Solution this) 1 ;
  q <- divide (2 * val_density * sigma_om2 this) om ;
  let c1 := c0 * q in
  let CDkw' := Std.max c1 (Std.pow 10 (-20)) in
  (* F1 *)
  k <- load (Solution this) 0 ;
  arg2A <- divide (sqrt k) (beta_star this * om * val_dist) ;
  arg2B <- divide (500 * val_viscosity)
                  (val_density * val_dist * val_dist * om) ;
  let arg2 := Std.max arg2A arg2B in
  r <- divide (4 * val_density * sigma_om2 this * k)
              (CDkw' * val_dist * val_dist) ;
  let arg1 := Std.min arg2 r in
  let F1' := tanh (arg1 * arg1 * arg1 * arg1) in
  (* F2 *)
  let arg2' := Std.max (2 * arg2A) arg2B in
  let F2' := tanh (arg2' * arg2') in
  ret {| sst_base := sst_base this;
         sigma_om2 := sigma_om2 this;
         beta_star := beta_star this;
         F1 := F1';
         F2 := F2';
         CDkw := CDkw' |}.

Close Scope calc_scope.

(** The scalar product of two gradient rows. *)
Definition dot (g0 g1 : list R) : R :=
  foldr Rplus 0 (zip_with Rmult g0 g1).

(** The three values that [SetBlendingFunc] writes. *)
Definition blending (r : CTurbSSTVariable * list R) : R * R * R :=
  (F1 r.1, F2 r.1, CDkw r.1).

(** A two-equation variable in two dimensions, used to instantiate the
    statements. *)
Definition sst_example (muT0 f1 f2 cd : R) : CTurbSSTVariable :=
  {| sst_base :=
       {| turb_base :=
            {| nDim := 2; nVar := 2;
               Solution := [1; 2]; Solution_Old := [1; 2];
               Gradient := [[1; -2]; [3; 4]];
               Limiter := [0; 0]; Solution_Max := [0; 0];
               Solution_Min := [0; 0] |};
          muT := muT0 |};
     sigma_om2 := 0.856; beta_star := 0.09;
     F1 := f1; F2 := f2; CDkw := cd |}.

End Turb.

(* ===================================================================== *)
(** * The blending functions in double precision *)
(* ===================================================================== *)

(** [std::max] and [std::min] on binary64 values, and the constant of the
    floor of the cross diffusion. *)
Module Std64.

Import PrimFloat.
Local Open Scope float_scope.

(** [std::max(a, b)] is [(a < b) ? b : a]: a NaN first argument is
    returned as it is. *)
Definition max (a b : float) : float := if a <? b then b else a.

(** [std::min(a, b)] is [(b < a) ? b : a]. *)
Definition min (a b : float) : float := if b <? a then b else a.

(** [pow(10.0, -20.0)]: the double nearest to [10^-20]. *)
Definition pow_10_m20 : float := 1e-20.

(** [x != 0.0] on doubles; it holds of a NaN. *)
Definition nonzero (x : float) : Prop := (x =? 0) = false.

End Std64.

(** [CTurbSSTVariable::SetBlendingFunc] with every [double] a binary64
    value and every operation the IEEE 754 one, rounded to nearest: products
    may underflow to zero, and a division by zero yields an infinity or a
    NaN.  The definitions follow those of [Turb] line by line. *)
Module Turb64.

Import PrimFloat.
Local Open Scope float_scope.

Definition calc (A : Type) : Type := option (A * list float).

Definition ret {A} (a : A) : calc A := Some (a, []).

Definition bind {A B} (m : calc A) (k : A -> calc B) : calc B :=
  match m with
  | None => None
  | Some (a, d1) =>
      match k a with
      | None => None
      | Some (b, d2) => Some (b, d1 ++ d2)
      end
  end.

Declare Scope calc64_scope.
Delimit Scope calc64_scope with calc64.
Notation "x <- m ; k" := (bind m (fun x => k))
  (at level 20, m at level 100, k at level 200, only parsing) : calc64_scope.

(** [a[i]] on an array of doubles. *)
Definition load (a : list float) (i : nat) : calc float :=
  match a !! i with
  | Some x => ret x
  | None => None
  end.

(** [a[i][j]] on an array of arrays of doubles. *)
Definition load2 (a : list (list float)) (i j : nat) : calc float :=
  match a !! i with
  | Some row => load row j
  | None => None
  end.

(** [x / y], recording the divisor. *)
Definition divide (x y : float) : calc float := Some (x / y, [y]).

(** The members of [CVariable] that the turbulence variables use. *)
Record CVariable : Type := mkCVariable {
  nDim : nat;
  nVar : nat;
  Solution : list float;
  Solution_Old : list float;
  Gradient : list (list float);
  Limiter : list float;
  Solution_Max : list float;
  Solution_Min : list float
}.

Record CTurbVariable : Type := mkCTurbVariable {
  turb_base :> CVariable;
  muT : float
}.

Record CTurbSSTVariable : Type := mkCTurbSSTVariable {
  sst_base :> CTurbVariable;
  sigma_om2 : float;
  beta_star : float;
  F1 : float;
  F2 : float;
  CDkw : float
}.

Open Scope calc64_scope.

(** [for (iDim = ...; iDim < nDim; iDim++)
      CDkw += Gradient[0][iDim]*Gradient[1][iDim];]
    with [n] iterations left. *)
Fixpoint cross_loop (G : list (list float)) (n : nat) (iDim : nat)
    (acc : float) : calc float :=
  match n with
  | O => ret acc
  | S n' =>
      g0 <- load2 G 0 iDim ;
      g1 <- load2 G 1 iDim ;
      cross_loop G n' (S iDim) (acc + g0 * g1)
  end.

Section SetBlendingFunc.

(** [tanh] of the C mathematical library, which is not an operation of
    binary64: the embedding takes it as given. *)
Variable tanh : float -> float.

(** [void CTurbSSTVariable::SetBlendingFunc(val_viscosity, val_dist,
    val_density)]. *)
Definition SetBlendingFunc (val_viscosity val_dist val_density : float)
    (this : CTurbSSTVariable) : calc CTurbSSTVariable :=
  (* Cross diffusion *)
  c0 <- cross_loop (Gradient this) (nDim this) 0 0 ;
  om <- load (Solution this) 1 ;
  q <- divide (2 * val_density * sigma_om2 this) om ;
  let c1 := c0 * q in
  let CDkw' := Std64.max c1 Std64.pow_10_m20 in
  (* F1 *)
  k <- load (Solution this) 0 ;
  arg2A <- divide (sqrt k) (beta_star this * om * val_dist) ;
  arg2B <- divide (500 * val_viscosity)
                  (val_density * val_dist * val_dist * om) ;
  let arg2 := Std64.max arg2A arg2B in
  r <- divide (4 * val_density * sigma_om2 this * k)
              (CDkw' * val_dist * val_dist) ;
  let arg1 := Std64.min arg2 r in
  let F1' := tanh (arg1 * arg1 * arg1 * arg1) in
  (* F2 *)
  let arg2' := Std64.max (2 * arg2A) arg2B in
  let F2' := tanh (arg2' * arg2') in
  ret {| sst_base := sst_base this;
         sigma_om2 := sigma_om2 this;
         beta_star := beta_star this;
         F1 := F1';
         F2 := F2';
         CDkw := CDkw' |}.

End SetBlendingFunc.

Close Scope calc64_scope.

(** The variable of [Turb.sst_example] in double precision. *)
Definition sst_example : CTurbSSTVariable :=
  {| sst_base :=
       {| turb_base :=
            {| nDim := 2; nVar := 2;
               Solution := [1; 2]; Solution_Old := [1; 2];
               Gradient := [[1; -2]; [3; 4]];
               Limiter := [0; 0]; Solution_Max := [0; 0];
               Solution_Min := [0; 0] |};
          muT := 0 |};
     sigma_om2 := 0.856; beta_star := 0.09;
     F1 := 1; F2 := 0; CDkw := 0 |}.

End Turb64.

(* ===================================================================== *)
(** * String streams ([<sstream>]) *)
(* ===================================================================== *)

Module Stream.

(** [isspace] in the classic locale: blank, and the control characters
    from horizontal tab to carriage return. *)
Definition isspace (c : ascii) : bool :=
  let n := nat_of_ascii c in
  (n =? 32)%nat || ((9 <=? n)%nat && (n <=? 13)%nat).

(** The input sentry skips leading white space. *)
Fixpoint skipws (s : string) : string :=
  match s with
  | String c s' => if isspace c then skipws s' else s
  | EmptyString => EmptyString
  end.

(** The characters of [s] up to the first white space, and what follows. *)
Fixpoint word (s : string) : string * string :=
  match s with
  | String c s' =>
      if isspace c then (EmptyString, s)
      else let '(w, rest) := word s' in (String c w, rest)
  | EmptyString => (EmptyString, EmptyString)
  end.

(** A [stringstream]: the characters written and not yet read, and the two
    state flags that the option classes can meet. *)
Record stringstream : Type := mkStream {
  buffer : string;
  eofbit : bool;
  failbit : bool
}.

(** [ss.good()]. *)
Definition good (ss : stringstream) : bool :=
  negb (eofbit ss) && negb (failbit ss).

(** [ss.fail()], which [!ss] and the conversion to [bool] test. *)
Definition fail (ss : stringstream) : bool := failbit ss.

(** [stringstream ss;] *)
Definition empty : stringstream :=
  {| buffer := ""; eofbit := false; failbit := false |}.

(** [istringstream is(s);] *)
Definition init (s : string) : stringstream :=
  {| buffer := s; eofbit := false; failbit := false |}.

Definition setfail (ss : stringstream) : stringstream :=
  {| buffer := buffer ss; eofbit := eofbit ss; failbit := true |}.

(** [ss << s]: the output sentry refuses a stream that is not good. *)
Definition put (s : string) (ss : stringstream) : stringstream :=
  if good ss
  then {| buffer := buffer ss +:+ s; eofbit := false; failbit := false |}
  else setfail ss.

Definition is_empty (s : string) : bool :=
  match s with EmptyString => true | String _ _ => false end.

(** [ss >> str] for a [std::string]: the next white-space delimited word.
    Meeting the end of the buffer sets [eofbit]. *)
Definition get_string (ss : stringstream) : option string * stringstream :=
  if good ss then
    match skipws (buffer ss) with
    | EmptyString =>
        (None, {| buffer := ""; eofbit := true; failbit := true |})
    | b =>
        let '(w, rest) := word b in
        (Some w,
         {| buffer := rest; eofbit := is_empty rest; failbit := false |})
    end
  else (None, setfail ss).

Section Extraction.

(** The numeric conversion of the standard library ([std::num_get]): from
    the unread characters, which start with a character that is not white
    space, the converted value if there is one, and the characters left. *)
Variable num_get : string -> option R * string.

(** [ss >> x] for a [double].  [None] when the conversion fails: [x] is
    then taken to keep its content, the rule of the library before C++11
    (since C++11 a failed conversion stores zero in [x]). *)
Definition get_double (ss : stringstream) : option R * stringstream :=
  if good ss then
    match skipws (buffer ss) with
    | EmptyString =>
        (None, {| buffer := ""; eofbit := true; failbit := true |})
    | b =>
        let '(r, rest) := num_get b in
        (r,
         {| buffer := rest;
            eofbit := is_empty rest;
            failbit := if r is Some _ then false else true |})
    end
  else (None, setfail ss).

(** A token is read whole when, written with a blank after it to a good
    stream that holds at most one blank, an extraction converts it to [x]
    and leaves exactly the blank. *)
Definition reads_whole (tok : string) (x : R) : Prop :=
  forall b, b = "" \/ b = " " ->
    get_double (put " " (put tok (init b))) = (Some x, init " ").

End Extraction.

End Stream.

(* ===================================================================== *)
(** * Decimal numerals *)
(* ===================================================================== *)

(** A conversion for [Stream.get_double]: an optional sign, digits with an
    optional decimal point, and an optional exponent, with the exact value
    of the numeral.  The range of a [double] plays no part: a numeral too
    large or too small for it, on which the library fails or stores zero,
    is converted like any other.  It instantiates the statements on short
    numerals only. *)
Module Decimal.

Definition is_digit (c : ascii) : bool :=
  let n := nat_of_ascii c in (48 <=? n)%nat && (n <=? 57)%nat.

Definition digit (c : ascii) : Z := Z.of_nat (nat_of_ascii c) - 48.

(** The leading digits of [s], accumulated onto [acc]; how many there were;
    and the rest. *)
Fixpoint digits (s : string) (acc : Z) (n : nat) : Z * nat * string :=
  match s with
  | String c s' =>
      if is_digit c then digits s' (10 * acc + digit c) (S n) else (acc, n, s)
  | EmptyString => (acc, n, s)
  end.

(** An optional sign: whether it is a minus, and the rest. *)
Definition sign (s : string) : bool * string :=
  match s with
  | String "-"%char s' => (true, s')
  | String "+"%char s' => (false, s')
  | _ => (false, s)
  end.

Definition signed (neg : bool) (z : Z) : Z := if neg then (- z)%Z else z.

(** The mantissa and the decimal exponent of the numeral that [s] starts
    with, and the characters after it. *)
Definition scan (s : string) : option (Z * Z) * string :=
  let '(neg, s1) := sign s in
  let '(ip, ni, s2) := digits s1 0 0 in
  let '(m, nf, s3) :=
    match s2 with
    | String "."%char s2' => digits s2' ip 0
    | _ => (ip, 0%nat, s2)
    end in
  if (ni + nf =? 0)%nat then (None, s3)
  else
    match s3 with
    | String c s3' =>
        if (Ascii.eqb c "e"%char || Ascii.eqb c "E"%char)%bool then
          let '(eneg, s4) := sign s3' in
          let '(ev, ne, s5) := digits s4 0 0 in
          if (ne =? 0)%nat then (None, s5)
          else (Some (signed neg m, (signed eneg ev - Z.of_nat nf)%Z), s5)
        else (Some (signed neg m, (- Z.of_nat nf)%Z), s3)
    | EmptyString => (Some (signed neg m, (- Z.of_nat nf)%Z), s3)
    end.

(** [m * 10^e] as a real number. *)
Definition to_R (me : Z * Z) : R :=
  let '(m, e) := me in
  if (0 <=? e)%Z then IZR (m * 10 ^ e) else IZR m / IZR (10 ^ (- e)).

Definition num_get (s : string) : option R * string :=
  let '(r, rest) := scan s in (to_R <$> r, rest).

(** Every character of the string is a decimal digit. *)
Fixpoint all_digits (s : string) : bool :=
  match s with
  | String c s' => is_digit c && all_digits s'
  | EmptyString => true
  end.

End Decimal.

(* ===================================================================== *)
(** * Configuration options ([option_structure.hpp]) *)
(* ===================================================================== *)

(** [const double PI_NUMBER = 4.0 * atan(1.0);] *)
Definition PI_NUMBER : R := 4 * atan 1.

(** [const unsigned int MAX_PARAMETERS = 10;] *)
Definition MAX_PARAMETERS : nat := 10.

(** [a[i][j] = x] on an array of arrays of doubles. *)
Definition store2 (a : list (list R)) (i j : nat) (x : R)
  : option (list (list R)) :=
  row ← a !! i;
  if decide (j < length row)%nat
  then Some (<[i := <[j := x]> row]> a)
  else None.

(** [a[i][j]] on an array of arrays of doubles. *)
Definition peek2 (a : list (list R)) (i j : nat) : option R :=
  row ← a !! i; row !! j.

(** [a[i] = s] on an array of strings. *)
Definition store_string (a : list string) (i : nat) (s : string)
  : option (list string) :=
  if decide (i < length a)%nat then Some (<[i := s]> a) else None.

(** ** [COptionBase] *)

Module COptionBase.

Definition optionCheckMultipleValues (option_value : list string)
    (type_id option_name : string) : string :=
  if decide (length option_value ≠ 1%nat)
  then option_name +:+ ": multiple values for type " +:+ type_id
  else "".

Definition badValue (option_value : list string)
    (type_id option_name : string) : string :=
  option_name +:+ ": improper option value for type " +:+ type_id.

End COptionBase.

(** ** [COptionDouble] *)

Module COptionDouble.

Record t : Type := mk {
  field : R;      (* the double that the option refers to *)
  def : R;
  name : string
}.

Section SetValue.

Variable num_get : string -> option R * string.

(** [string COptionDouble::SetValue(vector<string> option_value)]: the
    message returned and the option afterwards. *)
Definition SetValue (option_value : list string) (this : t)
  : option (string * t) :=
  let out :=
    COptionBase.optionCheckMultipleValues option_value "double" (name this) in
  if decide (out ≠ "") then Some (out, this)
  else
    tok ← option_value !! 0%nat;
    let is_ := Stream.init tok in
    match Stream.get_double num_get is_ with
    | (Some val, _) =>
        Some ("", {| field := val; def := def this; name := name this |})
    | (None, _) =>
        Some (COptionBase.badValue option_value "double" (name this), this)
    end.

(** The single token converts: an extraction from a stream that holds it
    stores a value. *)
Definition converts (tok : string) : Prop :=
  (Stream.get_double num_get (Stream.init tok)).1 <> None.

(** [void COptionDouble::SetDefault()]. *)
Definition SetDefault (this : t) : t :=
  {| field := def this; def := def this; name := name this |}.

End SetValue.

End COptionDouble.

(** ** [COptionPeriodic] *)

Module COptionPeriodic.

Record t : Type := mk {
  name : string;
  size : Z;                                   (* unsigned short & *)
  marker_bound : option (list string);
  marker_donor : option (list string);
  rot_center : option (list (list R));
  rot_angles : option (list (list R));
  translation : option (list (list R))
}.

(** [size = 0] and the five arrays [NULL]. *)
Definition reset (this : t) : t :=
  {| name := name this; size := 0;
     marker_bound := None; marker_donor := None;
     rot_center := None; rot_angles := None; translation := None |}.

(** [void COptionPeriodic::SetDefault()]. *)
Definition SetDefault (this : t) : t := reset this.

Definition mod_num : nat := 11.

(** What the body of [SetValue] works on once the arrays are allocated:
    the local stream and the five arrays, none of them [NULL]. *)
Record arrays : Type := mkArrays {
  ss : Stream.stringstream;
  bound : list string;
  donor : list string;
  center : list (list R);
  angles : list (list R);
  trans : list (list R)
}.

Inductive member : Type := Center | Angles | Trans.

Definition sel (m : member) (a : arrays) : list (list R) :=
  match m with Center => center a | Angles => angles a | Trans => trans a end.

Definition upd (m : member) (x : list (list R)) (a : arrays) : arrays :=
  match m with
  | Center => {| ss := ss a; bound := bound a; donor := donor a;
                 center := x; angles := angles a; trans := trans a |}
  | Angles => {| ss := ss a; bound := bound a; donor := donor a;
                 center := center a; angles := x; trans := trans a |}
  | Trans => {| ss := ss a; bound := bound a; donor := donor a;
                center := center a; angles := angles a; trans := x |}
  end.

Definition with_ss (s : Stream.stringstream) (a : arrays) : arrays :=
  {| ss := s; bound := bound a; donor := donor a;
     center := center a; angles := angles a; trans := trans a |}.

Definition with_bound (x : list string) (a : arrays) : arrays :=
  {| ss := ss a; bound := x; donor := donor a;
     center := center a; angles := angles a; trans := trans a |}.

Definition with_donor (x : list string) (a : arrays) : arrays :=
  {| ss := ss a; bound := bound a; donor := x;
     center := center a; angles := angles a; trans := trans a |}.

(** The arrays written back to the option, with [size = nVals]. *)
Definition pack (nVals : nat) (a : arrays) (this : t) : t :=
  {| name := name this; size := Std.ushort (Z.of_nat nVals);
     marker_bound := Some (bound a); marker_donor := Some (donor a);
     rot_center := Some (center a); rot_angles := Some (angles a);
     translation := Some (trans a) |}.

(** The statements of the two loops either go on, or leave the function
    with a message, or have no defined behaviour. *)
Inductive flow : Type :=
| Next (a : arrays)
| Exit (msg : string) (a : arrays)
| Fault.

Definition andthen (f : flow) (k : arrays -> flow) : flow :=
  match f with
  | Next a => k a
  | Exit msg a => Exit msg a
  | Fault => Fault
  end.

Declare Scope flow_scope.
Delimit Scope flow_scope with flow.
Notation "f >>> k" := (andthen f k)
  (at level 50, left associativity, only parsing) : flow_scope.

Section SetValue.

Variable num_get : string -> option R * string.
Variable garbage : nat -> R.
Variable option_value : list string.
Variable option_name : string.

(** [this->marker_bound[i].assign(option_value[idx]);] *)
Definition assign_bound (i idx : nat) (a : arrays) : flow :=
  match option_value !! idx with
  | Some tok =>
      match store_string (bound a) i tok with
      | Some x => Next (with_bound x a)
      | None => Fault
      end
  | None => Fault
  end.

(** [this->marker_donor[i].assign(option_value[idx]);] *)
Definition assign_donor (i idx : nat) (a : arrays) : flow :=
  match option_value !! idx with
  | Some tok =>
      match store_string (donor a) i tok with
      | Some x => Next (with_donor x a)
      | None => Fault
      end
  | None => Fault
  end.

(** [ss << option_value[idx] << " ";
     if (!(ss >> this->m[i][j])) return badValue(...);] *)
Definition extract (idx : nat) (m : member) (i j : nat) (a : arrays) : flow :=
  match option_value !! idx with
  | Some tok =>
      let '(r, ss') :=
        Stream.get_double num_get (Stream.put " " (Stream.put tok (ss a))) in
      match r with
      | Some x =>
          match store2 (sel m a) i j x with
          | Some arr => Next (upd m arr (with_ss ss' a))
          | None => Fault
          end
      | None =>
          Exit (COptionBase.badValue option_value "periodic" option_name)
               (with_ss ss' a)
      end
  | None => Fault
  end.

(** [this->m[i][j] *= factor;] *)
Definition scale (m : member) (i j : nat) (factor : R) (a : arrays) : flow :=
  match peek2 (sel m a) i j with
  | Some x =>
      match store2 (sel m a) i j (x * factor) with
      | Some arr => Next (upd m arr a)
      | None => Fault
      end
  | None => Fault
  end.

Definition deg2rad : R := PI_NUMBER / 180.

Open Scope flow_scope.

(** The body of the first loop, [for (int i = 0; i < (nVals/2); i++)].  The
    indices [mod_num*i + ...] are computed on [int]. *)
Definition direct (i : nat) (a : arrays) : flow :=
  if decide (Std.INT_MAX < Z.of_nat (mod_num * i + 10))%Z then Fault else
  assign_bound i (mod_num * i) a >>>
  assign_donor i (mod_num * i + 1) >>>
  extract (mod_num * i + 2) Center i 0 >>>
  extract (mod_num * i + 3) Center i 1 >>>
  extract (mod_num * i + 4) Center i 2 >>>
  extract (mod_num * i + 5) Angles i 0 >>>
  extract (mod_num * i + 6) Angles i 1 >>>
  extract (mod_num * i + 7) Angles i 2 >>>
  extract (mod_num * i + 8) Trans i 0 >>>
  extract (mod_num * i + 9) Trans i 1 >>>
  extract (mod_num * i + 10) Trans i 2 >>>
  scale Angles i 0 deg2rad >>>
  scale Angles i 1 deg2rad >>>
  scale Angles i 2 deg2rad.

(** The body of the second loop,
    [for (unsigned long i = (nVals/2); i < nVals; i++)], where [half] is
    [nVals/2]. *)
Definition mirror (half : nat) (i : nat) (a : arrays) : flow :=
  assign_bound i (mod_num * (i - half) + 1) a >>>
  assign_donor i (mod_num * (i - half)) >>>
  extract (mod_num * (i - half) + 2) Center i 0 >>>
  extract (mod_num * (i - half) + 3) Center i 1 >>>
  extract (mod_num * (i - half) + 4) Center i 2 >>>
  extract (mod_num * (i - half) + 5) Angles i 0 >>>
  extract (mod_num * (i - half) + 6) Angles i 1 >>>
  extract (mod_num * (i - half) + 7) Angles i 2 >>>
  extract (mod_num * (i - half) + 8) Trans i 0 >>>
  extract (mod_num * (i - half) + 9) Trans i 1 >>>
  extract (mod_num * (i - half) + 10) Trans i 2 >>>
  (* Mirror the rotational angles and translation vector (rotational
     center does not need to move) *)
  scale Center i 0 1 >>>
  scale Center i 1 1 >>>
  scale Center i 2 1 >>>
  scale Angles i 0 (- deg2rad) >>>
  scale Angles i 1 (- deg2rad) >>>
  scale Angles i 2 (- deg2rad) >>>
  scale Trans i 0 (-1) >>>
  scale Trans i 1 (-1) >>>
  scale Trans i 2 (-1).

(** [for (i = from; i < from + n; i++) body], with [n] iterations left. *)
Fixpoint loop (body : nat -> arrays -> flow) (n : nat) (i : nat) (a : arrays)
  : flow :=
  match n with
  | O => Next a
  | S n' => body i a >>> loop body n' (S i)
  end.

(** The arrays as the [new] expressions leave them: empty strings, and
    rows of three cells that have not been written. *)
Definition allocate (nVals : nat) : arrays :=
  {| ss := Stream.empty;
     bound := replicate nVals "";
     donor := replicate nVals "";
     center := replicate nVals (Std.new_double garbage 3);
     angles := replicate nVals (Std.new_double garbage 3);
     trans := replicate nVals (Std.new_double garbage 3) |}.

End SetValue.

Close Scope flow_scope.

(** [string COptionPeriodic::SetValue(vector<string> option_value)]: the
    message returned and the option afterwards. *)
Definition SetValue (num_get : string -> option R * string)
    (garbage : nat -> R) (option_value : list string) (this : t)
  : option (string * t) :=
  let totalVals := length option_value in
  if decide (totalVals = 1%nat /\ option_value !! 0%nat = Some "NONE")
  then Some ("", reset this)
  else if decide (totalVals mod mod_num ≠ 0)%nat
  then Some (name this +:+ ": must have a number of entries divisible by 11",
             reset this)
  else
    let nVals := (2 * (totalVals / mod_num))%nat in
    (* [for (int i = 0; i < nVals; i++)] allocates the rows *)
    if decide (Std.INT_MAX < Z.of_nat nVals)%Z then None else
    let body1 := direct num_get option_value (name this) in
    let body2 := mirror num_get option_value (name this) (nVals / 2) in
    match andthen (loop body1 (nVals / 2) 0 (allocate garbage nVals))
                  (loop body2 (nVals - nVals / 2) (nVals / 2)) with
    | Next a => Some ("", pack nVals a this)
    | Exit msg a => Some (msg, pack nVals a this)
    | Fault => None
    end.


(** *** What the loops write

    The definitions below describe the effect of the two loops of
    [SetValue]; the properties of the option are stated with them. *)

(** What one pass of a loop writes at index [i]. *)
Record entry : Type := mkEntry {
  e_bound : string;
  e_donor : string;
  e_center : list R;
  e_angles : list R;
  e_trans : list R
}.

Definition write (i : nat) (e : entry) (a : arrays) : arrays :=
  {| ss := Stream.init " ";
     bound := <[i := e_bound e]> (bound a);
     donor := <[i := e_donor e]> (donor a);
     center := <[i := e_center e]> (center a);
     angles := <[i := e_angles e]> (angles a);
     trans := <[i := e_trans e]> (trans a) |}.

Definition rows3 (e : entry) : Prop :=
  length (e_center e) = 3%nat /\ length (e_angles e) = 3%nat /\
  length (e_trans e) = 3%nat.

Definition blank (b : string) : Prop := b = "" \/ b = " ".

Definition len3 (row : list R) : Prop := length row = 3%nat.

(** The loops run on [n] allocated entries of three cells each, with a
    stream that holds at most a blank. *)
Definition ready (n : nat) (a : arrays) : Prop :=
  (exists b, ss a = Stream.init b /\ blank b) /\
  length (bound a) = n /\ length (donor a) = n /\
  length (center a) = n /\ length (angles a) = n /\ length (trans a) = n /\
  Forall len3 (center a) /\ Forall len3 (angles a) /\ Forall len3 (trans a).

(** The numerals of entry [e] are read whole, to the values [x 2 .. x 10]. *)
Definition numerals (num_get : string -> option R * string)
    (value : list string) (e : nat) (x : nat -> R) : Prop :=
  forall j, (2 <= j < 11)%nat ->
    exists tok, value !! (11 * e + j)%nat = Some tok /\
                Stream.reads_whole num_get tok (x j).

(** What the first loop writes for entry [i]. *)
Definition direct_entry (tb td : string) (x : nat -> R) : entry :=
  {| e_bound := tb; e_donor := td;
     e_center := [x 2; x 3; x 4]%nat;
     e_angles := [x 5%nat * deg2rad; x 6%nat * deg2rad; x 7%nat * deg2rad];
     e_trans := [x 8; x 9; x 10]%nat |}.

(** What the second loop writes for the mirror of that entry. *)
Definition mirror_entry (tb td : string) (x : nat -> R) : entry :=
  {| e_bound := td; e_donor := tb;
     e_center := [x 2%nat * 1; x 3%nat * 1; x 4%nat * 1];
     e_angles := [x 5%nat * - deg2rad; x 6%nat * - deg2rad;
                  x 7%nat * - deg2rad];
     e_trans := [x 8%nat * -1; x 9%nat * -1; x 10%nat * -1] |}.

(** What the passes from [i0] to [i0 + n - 1] write. *)
Definition writes (E : nat -> entry) (i0 n : nat) (a : arrays) : arrays :=
  foldl (fun a i => write i (E i) a) a (seq i0 n).

Definition periodic_option : t :=
  {| name := "MARKER_PERIODIC"; size := 0;
     marker_bound := None; marker_donor := None;
     rot_center := None; rot_angles := None; translation := None |}.

(** One pair of markers, related by a rotation of 30 degrees about the z
    axis. *)
Definition rotation_30 : list string :=
  ["lower"; "upper"; "0"; "0"; "0"; "0"; "0"; "30"; "0"; "0"; "0"].

(** Two rotations of 90 degrees, about the x and then the y axis. *)
Definition rotation_90_90 : list string :=
  ["lower"; "upper"; "0"; "0"; "0"; "90"; "90"; "0"; "0"; "0"; "0"].

End COptionPeriodic.

(** ** [CMarkerOptionRef] *)

Module CMarkerOptionRef.

(** What the object refers to, and the standard error stream. *)
Record t : Type := mk {
  marker_ref_ : option (list string);
  num_marker_ : Z;                            (* unsigned short *)
  cerr : string
}.

(** [void CMarkerOptionRef::SetValue(const vector<string> & value)]. *)
Definition SetValue (value : list string) (this : t) : Std.outcome t :=
  if decide (length value = 0%nat) then
    Std.Throws (-1)
      {| marker_ref_ := marker_ref_ this;
         num_marker_ := num_marker_ this;
         cerr := cerr this
                 +:+ "Error in CMarkerOptionRef::SetValue(): "
                 +:+ "marker option in config file with no value" +:+ Std.endl
                 +:+ "Use NONE for no markers." +:+ Std.endl |}
  else
    (* a fresh array of [value.size()] strings, filled with the tokens *)
    let copy := value in
    if decide (length value = 1%nat /\ copy !! 0%nat = Some "NONE") then
      Std.Returns {| marker_ref_ := Some copy; num_marker_ := 0;
                     cerr := cerr this |}
    else
      Std.Returns {| marker_ref_ := Some copy;
                     num_marker_ := Std.ushort (Z.of_nat (length value));
                     cerr := cerr this |}.

End CMarkerOptionRef.

(** [p == NULL]. *)
Definition is_null {A} (p : option A) : bool :=
  match p with None => true | Some _ => false end.

(** Statements in sequence, each of which may have no defined behaviour. *)
Declare Scope seq_scope.
Delimit Scope seq_scope with seq.
Notation "m >>> k" := (mbind (M := option) k m)
  (at level 50, left associativity, only parsing) : seq_scope.

(** ** [CMarkerPeriodicRef] *)

Module CMarkerPeriodicRef.

(** What the object refers to, and the standard error stream. *)
Record t : Type := mk {
  nMarker_PerBound_ : Z;                      (* unsigned short *)
  Marker_PerBound_ : option (list string);
  Marker_PerDonor_ : option (list string);
  Periodic_RotCenter_ : option (list (list R));
  Periodic_RotAngles_ : option (list (list R));
  Periodic_Translation_ : option (list (list R));
  cerr : string
}.

(** [cerr << msg]. *)
Definition print (msg : string) (this : t) : t :=
  {| nMarker_PerBound_ := nMarker_PerBound_ this;
     Marker_PerBound_ := Marker_PerBound_ this;
     Marker_PerDonor_ := Marker_PerDonor_ this;
     Periodic_RotCenter_ := Periodic_RotCenter_ this;
     Periodic_RotAngles_ := Periodic_RotAngles_ this;
     Periodic_Translation_ := Periodic_Translation_ this;
     cerr := cerr this +:+ msg |}.

(** [*nMarker_PerBound_ = n]. *)
Definition set_nMarker (n : Z) (this : t) : t :=
  {| nMarker_PerBound_ := n;
     Marker_PerBound_ := Marker_PerBound_ this;
     Marker_PerDonor_ := Marker_PerDonor_ this;
     Periodic_RotCenter_ := Periodic_RotCenter_ this;
     Periodic_RotAngles_ := Periodic_RotAngles_ this;
     Periodic_Translation_ := Periodic_Translation_ this;
     cerr := cerr this |}.

(** No array of the periodic markers has been allocated. *)
Definition unallocated (this : t) : Prop :=
  Marker_PerBound_ this = None /\
  Marker_PerDonor_ this = None /\
  Periodic_RotCenter_ this = None /\
  Periodic_RotAngles_ this = None /\
  Periodic_Translation_ this = None.

Definition fresh_periodic_ref : t :=
  {| nMarker_PerBound_ := 7;
     Marker_PerBound_ := None;
     Marker_PerDonor_ := None;
     Periodic_RotCenter_ := None;
     Periodic_RotAngles_ := None;
     Periodic_Translation_ := None;
     cerr := "" |}.

(** The local stream, the running index [i] into [value], and the arrays
    after their allocation. *)
Record locals : Type := mkLocals {
  ss : Stream.stringstream;
  i : Z;                                      (* unsigned short i *)
  bound : list string;
  donor : list string;
  center : list (list R);
  angles : list (list R);
  trans : list (list R)
}.

Inductive names : Type := Bound | Donor.
Inductive member : Type := Center | Angles | Trans.

Section SetValue.

Variable num_get : string -> option R * string.
Variable garbage : nat -> R.
Variable value : list string.

(** [ss << value[i++] << " "; ss >> names[iMarker];]  The extraction is not
    checked: when it fails the string keeps its content. *)
Definition read_string (w : names) (iMarker : nat) (l : locals)
  : option locals :=
  tok ← value !! Z.to_nat (i l);
  let '(r, ss') := Stream.get_string (Stream.put " " (Stream.put tok (ss l))) in
  let i' := Std.ushort (i l + 1) in
  let arr := match w with Bound => bound l | Donor => donor l end in
  arr' ← match r with
         | Some s => store_string arr iMarker s
         | None => if decide (iMarker < length arr)%nat then Some arr else None
         end;
  Some match w with
       | Bound => {| ss := ss'; i := i'; bound := arr'; donor := donor l;
                     center := center l; angles := angles l;
                     trans := trans l |}
       | Donor => {| ss := ss'; i := i'; bound := bound l; donor := arr';
                     center := center l; angles := angles l;
                     trans := trans l |}
       end.

Definition sel (m : member) (l : locals) : list (list R) :=
  match m with Center => center l | Angles => angles l | Trans => trans l end.

Definition upd (m : member) (x : list (list R)) (l : locals) : locals :=
  match m with
  | Center => {| ss := ss l; i := i l; bound := bound l; donor := donor l;
                 center := x; angles := angles l; trans := trans l |}
  | Angles => {| ss := ss l; i := i l; bound := bound l; donor := donor l;
                 center := center l; angles := x; trans := trans l |}
  | Trans => {| ss := ss l; i := i l; bound := bound l; donor := donor l;
                center := center l; angles := angles l; trans := x |}
  end.

(** [ss << value[i++] << " "; ss >> m[iMarker][j];]  The extraction is not
    checked: when it fails the cell keeps its content. *)
Definition read_double (m : member) (iMarker j : nat) (l : locals)
  : option locals :=
  tok ← value !! Z.to_nat (i l);
  let '(r, ss') :=
    Stream.get_double num_get (Stream.put " " (Stream.put tok (ss l))) in
  let i' := Std.ushort (i l + 1) in
  arr' ← match r with
         | Some x => store2 (sel m l) iMarker j x
         | None => if peek2 (sel m l) iMarker j is Some _
                   then Some (sel m l) else None
         end;
  let l' := upd m arr' l in
  Some {| ss := ss'; i := i'; bound := bound l'; donor := donor l';
          center := center l'; angles := angles l'; trans := trans l' |}.

(** [m[iMarker][j] *= factor;] *)
Definition scale (m : member) (iMarker j : nat) (factor : R) (l : locals)
  : option locals :=
  x ← peek2 (sel m l) iMarker j;
  arr' ← store2 (sel m l) iMarker j (x * factor);
  Some (upd m arr' l).

Definition deg2rad : R := PI_NUMBER / 180.

(** The body of the parsing loop. *)
Definition entry (iMarker : nat) (l : locals) : option locals :=
  (read_string Bound iMarker l >>>
  read_string Donor iMarker >>>
  read_double Center iMarker 0 >>>
  read_double Center iMarker 1 >>>
  read_double Center iMarker 2 >>>
  read_double Angles iMarker 0 >>>
  read_double Angles iMarker 1 >>>
  read_double Angles iMarker 2 >>>
  read_double Trans iMarker 0 >>>
  read_double Trans iMarker 1 >>>
  read_double Trans iMarker 2 >>>
  (* Convert the angles from degrees to radians *)
  scale Angles iMarker 0 deg2rad >>>
  scale Angles iMarker 1 deg2rad >>>
  scale Angles iMarker 2 deg2rad)%seq.

(** [for (iMarker = from; iMarker < from + n; iMarker++) entry]. *)
Fixpoint loop (n : nat) (iMarker : nat) (l : locals) : option locals :=
  match n with
  | O => Some l
  | S n' => (entry iMarker l >>> loop n' (S iMarker))%seq
  end.

Definition allocate (n : nat) : locals :=
  {| ss := Stream.empty; i := 0;
     bound := replicate n "";
     donor := replicate n "";
     center := replicate n (Std.new_double garbage 3);
     angles := replicate n (Std.new_double garbage 3);
     trans := replicate n (Std.new_double garbage 3) |}.

(** [void CMarkerPeriodicRef::SetValue(const vector<string> & value)]. *)
Definition SetValue (this : t) : Std.outcome t :=
  if negb (is_null (Marker_PerBound_ this))
     || negb (is_null (Marker_PerDonor_ this))
     || negb (is_null (Periodic_RotCenter_ this))
     || negb (is_null (Periodic_RotAngles_ this))
     || negb (is_null (Periodic_Translation_ this))
  then
    Std.Throws (-1)
      (print ("Error in CMarkerPeriodicRef::SetValue(): "
              +:+ "one or more periodic-marker option arrays have already been allocated."
              +:+ Std.endl) this)
  else if decide (Z.rem (Std.to_int (Z.of_nat (length value))) 11 ≠ 0)%Z then
    match value !! 0%nat with
    | None => Std.Undefined
    | Some first =>
        if decide (first = "NONE") then Std.Returns (set_nMarker 0 this)
        else
          Std.Throws (-1)
            (print ("Error in CMarkerPeriodicRef::SetValue(): "
                    +:+ "incorrect number of MARKER_PERIODIC parameters in the configuration file."
                    +:+ Std.endl) this)
    end
  else
    let n := Z.quot (Std.ushort (Z.of_nat (length value))) 11 in
    match loop (Z.to_nat n) 0 (allocate (Z.to_nat n)) with
    | Some l =>
        Std.Returns
          {| nMarker_PerBound_ := n;
             Marker_PerBound_ := Some (bound l);
             Marker_PerDonor_ := Some (donor l);
             Periodic_RotCenter_ := Some (center l);
             Periodic_RotAngles_ := Some (angles l);
             Periodic_Translation_ := Some (trans l);
             cerr := cerr this |}
    | None => Std.Undefined
    end.

End SetValue.

End CMarkerPeriodicRef.

(** ** [ENUM_PARAM] *)

Module ENUM_PARAM.
Definition FFD_SETTING : Z := 0.
Definition HICKS_HENNE : Z := 1.
Definition NACA_4DIGITS : Z := 6.
Definition DISPLACEMENT : Z := 8.
Definition ROTATION : Z := 9.
Definition FFD_CONTROL_POINT : Z := 10.
Definition FFD_DIHEDRAL_ANGLE : Z := 11.
Definition FFD_TWIST_ANGLE : Z := 12.
Definition FFD_ROTATION : Z := 13.
Definition FFD_CAMBER : Z := 14.
Definition FFD_THICKNESS : Z := 15.
Definition PARABOLIC : Z := 17.
Definition OBSTACLE : Z := 18.
Definition STRETCH : Z := 19.
Definition SURFACE_FILE : Z := 20.
Definition COSINE_BUMP : Z := 21.
Definition FOURIER : Z := 22.
Definition SPHERICAL : Z := 23.
Definition AIRFOIL : Z := 24.
Definition FFD_CONTROL_POINT_2D : Z := 25.
Definition FFD_CAMBER_2D : Z := 26.
Definition FFD_THICKNESS_2D : Z := 27.
End ENUM_PARAM.

(** ** [CDVParamOptionRef] *)

Module CDVParamOptionRef.
Import ENUM_PARAM.

(** What the object refers to, and the standard error stream. *)
Record t : Type := mk {
  nDV_ : Z;                                   (* unsigned short *)
  ParamDV_ : option (list (list R));
  Design_Variable_ : option (list Z);         (* unsigned short * *)
  cerr : string
}.

(** No design variable has been declared. *)
Definition no_design_variables : t :=
  {| nDV_ := 0;
     ParamDV_ := None;
     Design_Variable_ := None;
     cerr := "" |}.

(** The first loop: [++*nDV_] for every [";"] among the tokens that an
    [unsigned int] index reaches. *)
Definition count_semi (value : list string) : Z :=
  foldl (fun n tok => if decide (tok = ";") then Std.ushort (n + 1) else n)
        0%Z
        (take (Z.to_nat (Z.of_nat (length value) mod 2 ^ 32)) value).

(** [*nDV_] when the test on [Design_Variable] is reached; [None] for an
    empty [value], whose first and last elements do not exist. *)
Definition count_nDV (value : list string) : option Z :=
  first ← value !! 0%nat;
  last ← value !! (length value - 1)%nat;
  let n0 := count_semi value in
  (* if ";" are at both ends, we over-counted *)
  let n1 := if decide (first = ";" /\ last = ";")
            then Std.ushort (n0 - 1) else n0 in
  (* if no ";" at either end, we under-counted *)
  let n2 := if decide (first ≠ ";" /\ last ≠ ";")
            then Std.ushort (n1 + 1) else n1 in
  Some n2.

(** The [switch] on the kind of design variable; [None] is its [default]. *)
Definition nParamDV_of (kind : Z) : option nat :=
  if decide (kind = FFD_SETTING) then Some 0%nat
  else if decide (kind = FFD_CONTROL_POINT_2D) then Some 5%nat
  else if decide (kind = FFD_CAMBER_2D) then Some 2%nat
  else if decide (kind = FFD_THICKNESS_2D) then Some 2%nat
  else if decide (kind = HICKS_HENNE) then Some 2%nat
  else if decide (kind = SPHERICAL) then Some 3%nat
  else if decide (kind = COSINE_BUMP) then Some 3%nat
  else if decide (kind = FOURIER) then Some 3%nat
  else if decide (kind = DISPLACEMENT) then Some 3%nat
  else if decide (kind = ROTATION) then Some 6%nat
  else if decide (kind = NACA_4DIGITS) then Some 3%nat
  else if decide (kind = PARABOLIC) then Some 2%nat
  else if decide (kind = OBSTACLE) then Some 2%nat
  else if decide (kind = AIRFOIL) then Some 2%nat
  else if decide (kind = STRETCH) then Some 2%nat
  else if decide (kind = FFD_CONTROL_POINT) then Some 7%nat
  else if decide (kind = FFD_DIHEDRAL_ANGLE) then Some 7%nat
  else if decide (kind = FFD_TWIST_ANGLE) then Some 7%nat
  else if decide (kind = FFD_ROTATION) then Some 7%nat
  else if decide (kind = FFD_CAMBER) then Some 3%nat
  else if decide (kind = FFD_THICKNESS) then Some 3%nat
  else if decide (kind = SURFACE_FILE) then Some 0%nat
  else None.

(** The local variables of the parsing loop, the rows of [ParamDV], and
    what the loop has written to the standard error stream. *)
Record locals : Type := mkLocals {
  ss : Stream.stringstream;
  i : nat;
  nParamDV : nat;
  rows : list (list R);
  err : string
}.

Section SetValue.

Variable num_get : string -> option R * string.
Variable garbage : nat -> R.
Variable value : list string.

(** [for (iParamDV = from; iParamDV < from + n; iParamDV++) {
       ss << value[i] << " "; ss >> ParamDV[iDV][iParamDV]; i++; }]
    The extraction is not checked: when it fails the cell keeps its
    content. *)
Fixpoint params (n : nat) (iDV iParamDV : nat) (l : locals) : option locals :=
  match n with
  | O => Some l
  | S n' =>
      tok ← value !! i l;
      let '(r, ss') :=
        Stream.get_double num_get (Stream.put " " (Stream.put tok (ss l))) in
      rows' ← match r with
              | Some x => store2 (rows l) iDV iParamDV x
              | None => if peek2 (rows l) iDV iParamDV is Some _
                        then Some (rows l) else None
              end;
      params n' iDV (S iParamDV)
             {| ss := ss'; i := S (i l); nParamDV := nParamDV l;
                rows := rows'; err := err l |}
  end.

(** The body of the loop over the design variables, where [nDV] is the
    value of [*nDV_]. *)
Definition variable (nDV : Z) (kinds : option (list Z)) (iDV : nat)
    (l : locals) : Std.outcome locals :=
  match kinds ≫= (.!! iDV) with
  | None => Std.Undefined
  | Some kind =>
      let l1 :=
        match nParamDV_of kind with
        | Some n =>
            {| ss := ss l; i := i l; nParamDV := n;
               rows := rows l; err := err l |}
        | None =>
            {| ss := ss l; i := i l; nParamDV := nParamDV l;
               rows := rows l;
               err := err l
                      +:+ "Error in CDVParamOptionRef::SetValue(): "
                      +:+ "undefined design variable type found in configuration file."
                      +:+ Std.endl |}
        end in
      match params (nParamDV l1) iDV 0 l1 with
      | None => Std.Undefined
      | Some l2 =>
          if decide (Z.of_nat iDV < nDV - 1)%Z then
            match value !! i l2 with
            | None => Std.Undefined
            | Some tok =>
                if decide (tok ≠ ";") then
                  Std.Throws (-1)
                    {| ss := ss l2; i := i l2; nParamDV := nParamDV l2;
                       rows := rows l2;
                       err := err l2
                              +:+ "Error in CDVParamOptionRef::SetValue(): "
                              +:+ "a design variable in the configuration file "
                              +:+ "has the wrong number of parameters"
                              +:+ Std.endl |}
                else
                  Std.Returns
                    {| ss := ss l2; i := S (i l2); nParamDV := nParamDV l2;
                       rows := rows l2; err := err l2 |}
            end
          else Std.Returns l2
      end
  end.

(** [for (iDV = from; iDV < from + n; iDV++) variable]. *)
Fixpoint loop (nDV : Z) (kinds : option (list Z)) (n : nat) (iDV : nat)
    (l : locals) : Std.outcome locals :=
  match n with
  | O => Std.Returns l
  | S n' =>
      match variable nDV kinds iDV l with
      | Std.Returns l' => loop nDV kinds n' (S iDV) l'
      | other => other
      end
  end.

(** [void CDVParamOptionRef::SetValue(const vector<string> & value)]. *)
Definition SetValue (this : t) : Std.outcome t :=
  match count_nDV value with
  | None => Std.Undefined
  | Some nDV =>
      if bool_decide (0 < nDV)%Z && is_null (Design_Variable_ this) then
        Std.Throws (-1)
          {| nDV_ := nDV;
             ParamDV_ := ParamDV_ this;
             Design_Variable_ := Design_Variable_ this;
             cerr := cerr this
                     +:+ "Error in CDVParamOptionRef::SetValue(): "
                     +:+ "Design_Variable array has not been allocated."
                     +:+ Std.endl
                     +:+ "Check that DV_KIND appears before DV_PARAM in configuration file."
                     +:+ Std.endl |}
      else
        let fresh :=
          replicate (Z.to_nat nDV) (Std.new_double garbage MAX_PARAMETERS) in
        let finish (l : locals) : t :=
          {| nDV_ := nDV;
             ParamDV_ := Some (rows l);
             Design_Variable_ := Design_Variable_ this;
             cerr := err l |} in
        match loop nDV (Design_Variable_ this) (Z.to_nat nDV) 0
                   {| ss := Stream.empty; i := 0; nParamDV := 0;
                      rows := fresh; err := cerr this |} with
        | Std.Returns l => Std.Returns (finish l)
        | Std.Throws code l => Std.Throws code (finish l)
        | Std.Undefined => Std.Undefined
        end
  end.

End SetValue.

End CDVParamOptionRef.

(** ** The periodic transform *)

Module Periodic.

Definition vec : Type := R * R * R.

(** Rotations about the three coordinate axes. *)
Definition rot_x (theta : R) (v : vec) : vec :=
  let '(x, y, z) := v in
  (x, cos theta * y - sin theta * z, sin theta * y + cos theta * z).

Definition rot_y (phi : R) (v : vec) : vec :=
  let '(x, y, z) := v in
  (cos phi * x + sin phi * z, y, - sin phi * x + cos phi * z).

Definition rot_z (psi : R) (v : vec) : vec :=
  let '(x, y, z) := v in
  (cos psi * x - sin psi * y, sin psi * x + cos psi * y, z).

(** Modelled from the spec: the periodic transform that the halo exchange
    applies to vector quantities on a periodic boundary (the solvers are
    declared in [solver_structure.hpp]; their implementation is not among
    the sources).  The "rotation/translation" of a marker is the rotation
    by its three angles, about the x, the y and then the z axis through the
    rotation centre, followed by its translation; the spec does not fix
    the order of the three rotations, which is taken to be that of the
    components.  A marker entry holds three numbers in each of its
    arrays. *)
Definition transform (center angles translation : list R) (v : vec)
  : option vec :=
  match center, angles, translation with
  | [cx; cy; cz], [theta; phi; psi], [tx; ty; tz] =>
      let '(x, y, z) := v in
      let '(rx, ry, rz) :=
        rot_z psi (rot_y phi (rot_x theta (x - cx, y - cy, z - cz))) in
      Some (rx + cx + tx, ry + cy + ty, rz + cz + tz)
  | _, _, _ => None
  end.

(** The marker rotates about at most one coordinate axis. *)
Definition single_axis (angles : list R) : Prop :=
  exists theta,
    angles = [theta; 0; 0] \/ angles = [0; theta; 0] \/ angles = [0; 0; theta].

(** The marker is a pure translation, or a rotation about one coordinate
    axis without translation. *)
Definition translation_or_axis_rotation (angles translation : list R) : Prop :=
  (angles = [0; 0; 0] /\ length translation = 3%nat) \/
  (single_axis angles /\ translation = [0; 0; 0]).

End Periodic.

(* ===================================================================== *)
(** * The other option classes of [option_structure.hpp] *)
(* ===================================================================== *)

(** ** [StringToUpperCase] *)

(** [::toupper] in the classic locale, on a character taken as unsigned:
    the 26 small letters move down by 32, every other character stays. *)
Definition toupper (c : ascii) : ascii :=
  let n := nat_of_ascii c in
  if ((97 <=? n) && (n <=? 122))%nat then ascii_of_nat (n - 32) else c.

(** [std::transform(s.begin(), s.end(), s.begin(), f)]. *)
Fixpoint transform (f : ascii -> ascii) (s : string) : string :=
  match s with
  | String c s' => String (f c) (transform f s')
  | EmptyString => EmptyString
  end.

(** [string StringToUpperCase(const string & str)]; the overload on
    [string &] leaves the same string in its argument. *)
Definition StringToUpperCase (str : string) : string := transform toupper str.

(** A small letter of the classic locale. *)
Definition islower (c : ascii) : bool :=
  let n := nat_of_ascii c in ((97 <=? n) && (n <=? 122))%nat.

Fixpoint has_lower (s : string) : bool :=
  match s with
  | String c s' => islower c || has_lower s'
  | EmptyString => false
  end.

(** ** [CCreateMap] and the maps built with it *)

Module CCreateMap.

Section Map.

Context {U : Type}.

(** [CCreateMap(const T& key, const U& val) { m_map[key] = val; }] *)
Definition ctor (key : string) (val : U) : gmap string U :=
  <[key := val]> ∅.

(** [operator()(const T& key, const U& val) { m_map[key] = val; ... }] *)
Definition call (this : gmap string U) (key : string) (val : U)
  : gmap string U :=
  <[key := val]> this.

(** [CCreateMap<string, U>(k0, v0)(k1, v1)...(kn, vn)]. *)
Definition chain (first : string * U) (rest : list (string * U))
  : gmap string U :=
  foldl (fun this kv => call this kv.1 kv.2) (ctor first.1 first.2) rest.

End Map.

End CCreateMap.

(** The value of the last pair with key [k] in a list of pairs. *)
Definition last_value {U} (k : string) (pairs : list (string * U))
  : option U :=
  foldl (fun acc kv => if decide (kv.1 = k) then Some kv.2 else acc)
        None pairs.

(** [m[key]] on a [std::map] that is not [const]: a key that is missing is
    inserted with a value-initialised entry. *)
Definition subscript (m : gmap string Z) (key : string)
  : Z * gmap string Z :=
  match m !! key with
  | Some v => (v, m)
  | None => (0%Z, <[key := 0%Z]> m)
  end.

Module ENUM_MATH_PROBLEM.
Definition DIRECT_PROBLEM : Z := 0.
Definition ADJOINT_PROBLEM : Z := 1.
Definition LINEARIZED_PROBLEM : Z := 2.
End ENUM_MATH_PROBLEM.

Definition Math_Problem_Map : gmap string Z :=
  CCreateMap.chain
    ("DIRECT", ENUM_MATH_PROBLEM.DIRECT_PROBLEM)
    [("ADJOINT", ENUM_MATH_PROBLEM.ADJOINT_PROBLEM);
     ("LINEARIZED", ENUM_MATH_PROBLEM.LINEARIZED_PROBLEM)].

Module ENUM_SPACE.
Definition NO_CONVECTIVE : Z := 0.
Definition SPACE_CENTERED : Z := 1.
Definition SPACE_UPWIND : Z := 2.
End ENUM_SPACE.

Definition Space_Map : gmap string Z :=
  CCreateMap.chain
    ("NONE", ENUM_SPACE.NO_CONVECTIVE)
    [("SPACE_CENTERED", ENUM_SPACE.SPACE_CENTERED);
     ("SPACE_UPWIND", ENUM_SPACE.SPACE_UPWIND)].

Module ENUM_CENTERED.
Definition NO_CENTERED : Z := 0.
Definition JST : Z := 1.
Definition LAX : Z := 2.
Definition JST_KE : Z := 4.
End ENUM_CENTERED.

Definition Centered_Map : gmap string Z :=
  CCreateMap.chain
    ("NONE", ENUM_CENTERED.NO_CENTERED)
    [("JST", ENUM_CENTERED.JST);
     ("JST_KE", ENUM_CENTERED.JST_KE);
     ("LAX-FRIEDRICH", ENUM_CENTERED.LAX)].

Module ENUM_UPWIND.
Definition NO_UPWIND : Z := 0.
Definition ROE : Z := 1.
Definition SCALAR_UPWIND : Z := 2.
Definition AUSM : Z := 3.
Definition HLLC : Z := 4.
Definition SW : Z := 5.
Definition MSW : Z := 6.
Definition TURKEL : Z := 7.
Definition AUSMPWPLUS : Z := 8.
Definition CUSP : Z := 9.
Definition CONVECTIVE_TEMPLATE : Z := 10.
End ENUM_UPWIND.

Definition Upwind_Map : gmap string Z :=
  CCreateMap.chain
    ("NONE", ENUM_UPWIND.NO_UPWIND)
    [("ROE", ENUM_UPWIND.ROE);
     ("TURKEL_PREC", ENUM_UPWIND.TURKEL);
     ("AUSM", ENUM_UPWIND.AUSM);
     ("AUSMPW+", ENUM_UPWIND.AUSMPWPLUS);
     ("HLLC", ENUM_UPWIND.HLLC);
     ("SW", ENUM_UPWIND.SW);
     ("MSW", ENUM_UPWIND.MSW);
     ("CUSP", ENUM_UPWIND.CUSP);
     ("SCALAR_UPWIND", ENUM_UPWIND.SCALAR_UPWIND);
     ("CONVECTIVE_TEMPLATE", ENUM_UPWIND.CONVECTIVE_TEMPLATE)].

(** [map.find(key)->second] where the key is known to the map; [None] when
    the iterator is [end()], which must not be dereferenced. *)
Definition find_second (m : gmap string Z) (key : string) : option Z :=
  m !! key.

(** [a[i] = x] on an array. *)
Definition store1 {A} (a : list A) (i : nat) (x : A) : option (list A) :=
  if decide (i < length a)%nat then Some (<[i := x]> a) else None.

(** [new unsigned short[n]]: [n] cells that have not been written. *)
Definition new_ushort (garbage : nat -> Z) (n : nat) : list Z :=
  map (fun k => Std.ushort (garbage k)) (seq 0 n).

(** [(option_value.size() == 1) && (option_value[0].compare("NONE") == 0)] *)
Definition is_NONE (option_value : list string) : Prop :=
  length option_value = 1%nat /\ option_value !! 0%nat = Some "NONE".

#[global] Instance is_NONE_dec option_value : Decision (is_NONE option_value).
Proof. unfold is_NONE. apply _. Defined.

(** ** [COptionEnum] *)

Module COptionEnum.

Record t : Type := mk {
  m : gmap string Z;
  field : Z;                                  (* unsigned short & *)
  def : Z;
  name : string
}.

(** [string COptionEnum::SetValue(vector<string> option_value)]. *)
Definition SetValue (option_value : list string) (this : t)
  : option (string * t) :=
  (* Check if there is more than one string *)
  let out :=
    COptionBase.optionCheckMultipleValues option_value "enum" (name this) in
  if decide (out ≠ "") then Some (out, this)
  else
    tok ← option_value !! 0%nat;
    (* Check to see if the enum value is in the map *)
    if decide (m this !! tok = None) then
      Some (name this +:+ ": invalid option value " +:+ tok, this)
    else
      (* If it is there, set the option value *)
      let '(val, m') := subscript (m this) tok in
      Some ("", {| m := m'; field := Std.ushort val;
                   def := def this; name := name this |}).

(** [void COptionEnum::SetDefault()]. *)
Definition SetDefault (this : t) : t :=
  {| m := m this; field := Std.ushort (def this);
     def := def this; name := name this |}.

End COptionEnum.

(** ** [COptionString] *)

Module COptionString.

Record t : Type := mk {
  field : string;
  def : string;
  name : string
}.

(** [string COptionString::SetValue(vector<string> option_value)]. *)
Definition SetValue (option_value : list string) (this : t)
  : option (string * t) :=
  (* check if there is more than one value *)
  let out :=
    COptionBase.optionCheckMultipleValues option_value "double" (name this) in
  if decide (out ≠ "") then Some (out, this)
  else
    tok ← option_value !! 0%nat;
    Some ("", {| field := tok; def := def this; name := name this |}).

(** [void COptionString::SetDefault()]. *)
Definition SetDefault (this : t) : t :=
  {| field := def this; def := def this; name := name this |}.

End COptionString.

(** ** [COptionBool] *)

Module COptionBool.

Record t : Type := mk {
  field : bool;
  def : bool;
  name : string
}.

Definition set_field (b : bool) (this : t) : t :=
  {| field := b; def := def this; name := name this |}.

(** [string COptionBool::SetValue(vector<string> option_value)]. *)
Definition SetValue (option_value : list string) (this : t)
  : option (string * t) :=
  (* check if there is more than one value *)
  let out :=
    COptionBase.optionCheckMultipleValues option_value "bool" (name this) in
  if decide (out ≠ "") then Some (out, this)
  else
    tok ← option_value !! 0%nat;
    if decide (tok = "YES") then Some ("", set_field true this)
    else if decide (tok = "NO") then Some ("", set_field false this)
    else Some (COptionBase.badValue option_value "bool" (name this), this).

(** [void COptionBool::SetDefault()]. *)
Definition SetDefault (this : t) : t := set_field (def this) this.

End COptionBool.

(** ** [COptionEnumList] *)

Module COptionEnumList.

Record t : Type := mk {
  m : gmap string Z;
  field : option (list Z);                    (* unsigned short * & *)
  name : string;
  size : Z                                    (* unsigned short & *)
}.

(** How the loop over the tokens ends. *)
Inductive result : Type :=
| Done (m : gmap string Z) (enums : list Z)
| Invalid (msg : string) (m : gmap string Z).

Section SetValue.

Variable garbage : nat -> Z.
Variable option_value : list string.

(** [for (int i = from; i < from + n; i++) { ... }], with [n] iterations
    left.  The message and the value stored are taken from
    [option_value[0]]. *)
Fixpoint loop (option_name : string) (n : nat) (i : nat)
    (m : gmap string Z) (enums : list Z) : option result :=
  match n with
  | O => Some (Done m enums)
  | S n' =>
      tok ← option_value !! i;
      (* Check to see if the enum value is in the map *)
      if decide (m !! tok = None) then
        first ← option_value !! 0%nat;
        Some (Invalid (option_name +:+ ": invalid option value " +:+ first) m)
      else
        (* If it is there, set the option value *)
        first ← option_value !! 0%nat;
        let '(val, m') := subscript m first in
        enums' ← store1 enums i (Std.ushort val);
        loop option_name n' (S i) m' enums'
  end.

(** [string COptionEnumList::SetValue(vector<string> option_value)]. *)
Definition SetValue (this : t) : option (string * t) :=
  if decide (is_NONE option_value) then
    Some ("", {| m := m this; field := field this; name := name this;
                 size := 0 |})
  else
    (* size is the length of the option list *)
    let size' := Std.ushort (Z.of_nat (length option_value)) in
    match loop (name this) (Z.to_nat size') 0 (m this)
               (new_ushort garbage (Z.to_nat size')) with
    | Some (Done m' enums) =>
        Some ("", {| m := m'; field := Some enums; name := name this;
                     size := size' |})
    | Some (Invalid msg m') =>
        Some (msg, {| m := m'; field := field this; name := name this;
                      size := size' |})
    | None => None
    end.

End SetValue.

(** [void COptionEnumList::SetDefault()]. *)
Definition SetDefault (this : t) : t :=
  {| m := m this; field := field this; name := name this; size := 0 |}.

End COptionEnumList.

(** ** [COptionDoubleList] *)

Module COptionDoubleList.

Record t : Type := mk {
  field : option (list R);                    (* double * & *)
  name : string;
  size : Z                                    (* unsigned short & *)
}.

Section SetValue.

Variable num_get : string -> option R * string.
Variable garbage : nat -> R.
Variable option_value : list string.

(** [istringstream is(tok); double val; is >> val]. *)
Definition convert (tok : string) : option R :=
  (Stream.get_double num_get (Stream.init tok)).1.

(** [for (int i = from; i < from + n; i++) { ... }], with [n] iterations
    left: the array when every token converts, [Some None] when one does not
    (the array is deleted then), [None] when the behaviour is not defined
    ([i++] beyond [INT_MAX]). *)
Fixpoint loop (n : nat) (i : nat) (vals : list R)
  : option (option (list R)) :=
  match n with
  | O => Some (Some vals)
  | S n' =>
      tok ← option_value !! i;
      match convert tok with
      | None => Some None
      | Some val =>
          vals' ← store1 vals i val;
          if decide (Std.INT_MAX <= Z.of_nat i)%Z then None
          else loop n' (S i) vals'
      end
  end.

(** [string COptionDoubleList::SetValue(vector<string> option_value)]. *)
Definition SetValue (this : t) : option (string * t) :=
  (* The size is the length of option_value *)
  let option_size := length option_value in
  if decide (is_NONE option_value) then
    (* No options *)
    Some ("", {| field := field this; name := name this; size := 0 |})
  else
    let size' := Std.ushort (Z.of_nat option_size) in
    (* Parse all of the options *)
    match loop option_size 0 (Std.new_double garbage option_size) with
    | Some (Some vals) =>
        Some ("", {| field := Some vals; name := name this; size := size' |})
    | Some None =>
        Some (COptionBase.badValue option_value "double list" (name this),
              {| field := field this; name := name this; size := size' |})
    | None => None
    end.

End SetValue.

(** [void COptionDoubleList::SetDefault()]. *)
Definition SetDefault (this : t) : t :=
  {| field := field this; name := name this; size := 0 |}.

End COptionDoubleList.

(** ** [COptionStringList] *)

Module COptionStringList.

Record t : Type := mk {
  field : option (list string);               (* string * & *)
  name : string;
  size : Z                                    (* unsigned short & *)
}.

Section SetValue.

Variable option_value : list string.

(** [for (int i = from; i < from + n; i++) vals[i].assign(option_value[i])],
    with [n] iterations left. *)
Fixpoint loop (n : nat) (i : nat) (vals : list string)
  : option (list string) :=
  match n with
  | O => Some vals
  | S n' =>
      tok ← option_value !! i;
      vals' ← store1 vals i tok;
      if decide (Std.INT_MAX <= Z.of_nat i)%Z then None
      else loop n' (S i) vals'
  end.

(** [string COptionStringList::SetValue(vector<string> option_value)]. *)
Definition SetValue (this : t) : option (string * t) :=
  (* The size is the length of option_value *)
  let option_size := length option_value in
  if decide (is_NONE option_value) then
    Some ("", {| field := field this; name := name this; size := 0 |})
  else
    (* Parse all of the options *)
    vals ← loop option_size 0 (replicate option_size "");
    Some ("", {| field := Some vals; name := name this;
                 size := Std.ushort (Z.of_nat option_size) |}).

End SetValue.

(** [void COptionStringList::SetDefault()]. *)
Definition SetDefault (this : t) : t :=
  {| field := field this; name := name this; size := 0 |}.

End COptionStringList.

(** ** [COptionConvect] *)

Module COptionConvect.

Record t : Type := mk {
  name : string;
  space : Z;                                  (* unsigned short & *)
  centered : Z;                               (* unsigned short & *)
  upwind : Z                                  (* unsigned short & *)
}.

(** [string COptionConvect::SetValue(vector<string> option_value)]. *)
Definition SetValue (option_value : list string) (this : t)
  : option (string * t) :=
  let out :=
    COptionBase.optionCheckMultipleValues option_value "unsigned short"
      (name this) in
  if decide (out ≠ "") then Some (out, this)
  else
    tok ← option_value !! 0%nat;
    if decide (is_Some (Centered_Map !! tok)) then
      s ← find_second Space_Map "SPACE_CENTERED";
      c ← find_second Centered_Map tok;
      Some ("", {| name := name this; space := Std.ushort s;
                   centered := Std.ushort c;
                   upwind := ENUM_UPWIND.NO_UPWIND |})
    else if decide (is_Some (Upwind_Map !! tok)) then
      s ← find_second Space_Map "SPACE_UPWIND";
      u ← find_second Upwind_Map tok;
      Some ("", {| name := name this; space := Std.ushort s;
                   centered := ENUM_CENTERED.NO_CENTERED;
                   upwind := Std.ushort u |})
    else
      (* Make them defined in case something weird happens *)
      Some (COptionBase.badValue option_value "convect" (name this),
            {| name := name this; space := ENUM_SPACE.SPACE_CENTERED;
               centered := ENUM_CENTERED.NO_CENTERED;
               upwind := ENUM_UPWIND.NO_UPWIND |}).

(** [void COptionConvect::SetDefault()]. *)
Definition SetDefault (this : t) : t :=
  {| name := name this; space := ENUM_SPACE.SPACE_CENTERED;
     centered := ENUM_CENTERED.NO_CENTERED;
     upwind := ENUM_UPWIND.NO_UPWIND |}.

End COptionConvect.

(** ** [COptionMathProblem] *)

Module COptionMathProblem.

Record t : Type := mk {
  name : string;
  adjoint : bool;
  oneshot : bool;
  linearized : bool;
  restart : bool;
  adjoint_def : bool;
  oneshot_def : bool;
  linearized_def : bool;
  restart_def : bool
}.

Definition set (a o l r : bool) (this : t) : t :=
  {| name := name this;
     adjoint := a; oneshot := o; linearized := l; restart := r;
     adjoint_def := adjoint_def this; oneshot_def := oneshot_def this;
     linearized_def := linearized_def this; restart_def := restart_def this |}.

Definition not_considered : string :=
  "option in math problem map not considered in constructor".

(** [string COptionMathProblem::SetValue(vector<string> option_value)]. *)
Definition SetValue (option_value : list string) (this : t)
  : option (string * t) :=
  let out :=
    COptionBase.optionCheckMultipleValues option_value "unsigned short"
      (name this) in
  if decide (out ≠ "") then Some (out, this)
  else
    tok ← option_value !! 0%nat;
    if decide (Math_Problem_Map !! tok = None) then
      Some (COptionBase.badValue option_value "math problem" (name this), this)
    else if decide (tok = "DIRECT") then
      Some ("", set false false false false this)
    else if decide (tok = "ADJOINT") then
      Some ("", set true false false true this)
    else if decide (tok = "LINEARIZED") then
      Some ("", set false false true true this)
    else Some (not_considered, this).

(** [void COptionMathProblem::SetDefault()]. *)
Definition SetDefault (this : t) : t :=
  set (adjoint_def this) (oneshot_def this) (linearized_def this)
      (restart_def this) this.

End COptionMathProblem.

(** ** [CMathProblemRef] *)

Module CMathProblemRef.

Record t : Type := mk {
  Adjoint_ : bool;
  OneShot_ : bool;
  Linearized_ : bool;
  Restart_Flow_ : bool
}.

(** [void CMathProblemRef::SetValue(const vector<string> & value)];
    [None] for an empty [value], whose first element does not exist. *)
Definition SetValue (value : list string) (this : t) : option t :=
  tok ← value !! 0%nat;
  let this1 :=
    if decide (tok = "DIRECT") then
      {| Adjoint_ := false; OneShot_ := false; Linearized_ := false;
         Restart_Flow_ := false |}
    else if decide (tok = "ADJOINT") then
      {| Adjoint_ := true; OneShot_ := OneShot_ this;
         Linearized_ := Linearized_ this; Restart_Flow_ := true |}
    else this in
  Some (if decide (tok = "LINEARIZED") then
          {| Adjoint_ := Adjoint_ this1; OneShot_ := OneShot_ this1;
             Linearized_ := true; Restart_Flow_ := true |}
        else this1).

End CMathProblemRef.

(** ** [CConvOptionRef] *)

Module CConvOptionRef.

Record t : Type := mk {
  space_ref_ : Z;                             (* unsigned short *)
  centered_ref_ : Z;                          (* unsigned short *)
  upwind_ref_ : Z;                            (* unsigned short *)
  cerr : string
}.

(** The double quote, which a string of the development cannot hold. *)
Definition dquote : string := String (ascii_of_nat 34) EmptyString.

(** [void CConvOptionRef::SetValue(const vector<string> & value)]. *)
Definition SetValue (value : list string) (this : t) : Std.outcome t :=
  match value !! 0%nat with
  | None => Std.Undefined
  | Some tok =>
      if decide (is_Some (Centered_Map !! tok)) then
        match find_second Space_Map "SPACE_CENTERED",
              find_second Centered_Map tok with
        | Some s, Some c =>
            Std.Returns {| space_ref_ := Std.ushort s;
                           centered_ref_ := Std.ushort c;
                           upwind_ref_ := ENUM_UPWIND.NO_UPWIND;
                           cerr := cerr this |}
        | _, _ => Std.Undefined
        end
      else if decide (is_Some (Upwind_Map !! tok)) then
        match find_second Space_Map "SPACE_UPWIND",
              find_second Upwind_Map tok with
        | Some s, Some u =>
            Std.Returns {| space_ref_ := Std.ushort s;
                           centered_ref_ := ENUM_CENTERED.NO_CENTERED;
                           upwind_ref_ := Std.ushort u;
                           cerr := cerr this |}
        | _, _ => Std.Undefined
        end
      else
        Std.Throws (-1)
          {| space_ref_ := space_ref_ this;
             centered_ref_ := centered_ref_ this;
             upwind_ref_ := upwind_ref_ this;
             cerr := cerr this
                     +:+ "Error in CConvOptionRef::SetValue(): "
                     +:+ tok +:+ " is an invalid space discretization"
                     +:+ Std.endl
                     +:+ "Please, check that the config file is compatible with SU2 3.1.0 "
                     +:+ dquote +:+ "eagle" +:+ dquote +:+ Std.endl |}
  end.

End CConvOptionRef.

(** ** [CEnumOptionRef] *)

Module CEnumOptionRef.

(** [const int MASTER_NODE = 0;] *)
Definition MASTER_NODE : Z := 0.

(** What the object refers to: the scalar [**ref_], or the array [*ref_]
    with its length [*ref_dim_]; and the standard error stream. *)
Record t : Type := mk {
  scalar : Z;
  list_ : option (list Z);
  ref_dim_ : option Z;                        (* [None] when [NULL] *)
  Tmap_ : gmap string Z;
  cerr : string
}.

(** How the call ends: it returns, it ends the program with [exit(code)],
    or it has no defined behaviour. *)
Inductive outcome : Type :=
| Returns (s : t)
| Exits (code : Z) (s : t)
| Undefined.

Definition not_found (tok : string) (rank : Z) (this : t) : t :=
  {| scalar := scalar this; list_ := list_ this; ref_dim_ := ref_dim_ this;
     Tmap_ := Tmap_ this;
     cerr := if decide (rank = MASTER_NODE) then
               cerr this
               +:+ "ERROR: Cannot find value " +:+ tok +:+ " in given map."
               +:+ Std.endl
               +:+ "Please check the name of the variable in the config file."
               +:+ Std.endl
             else cerr this |}.

Definition with_list (l : list Z) (n : Z) (this : t) : t :=
  {| scalar := scalar this; list_ := Some l; ref_dim_ := Some n;
     Tmap_ := Tmap_ this; cerr := cerr this |}.

Section SetValue.

Variable garbage : nat -> Z.
Variable value : list string.

(** [for (unsigned short i = from; i < from + n; i++) { ... }], with [n]
    iterations left, on the array [arr] of [dim] cells. *)
Fixpoint loop (rank : Z) (dim : Z) (n : nat) (i : nat) (arr : list Z)
    (this : t) : outcome :=
  match n with
  | O => Returns (with_list arr dim this)
  | S n' =>
      match value !! i with
      | None => Undefined
      | Some tok =>
          match Tmap_ this !! StringToUpperCase tok with
          | None => Exits 1 (not_found tok rank (with_list arr dim this))
          | Some v =>
              match store1 arr i (Std.ushort v) with
              | None => Undefined
              | Some arr' => loop rank dim n' (S i) arr' this
              end
          end
      end
  end.

(** [void CEnumOptionRef::SetValue(const vector<string> & value)]. *)
Definition SetValue (this : t) : outcome :=
  let rank := MASTER_NODE in
  match ref_dim_ this with
  | None =>
      (* this is a scalar enum option *)
      match value !! 0%nat with
      | None => Undefined
      | Some tok =>
          match Tmap_ this !! StringToUpperCase tok with
          | None => Exits 1 (not_found tok rank this)
          | Some v =>
              Returns {| scalar := Std.ushort v; list_ := list_ this;
                         ref_dim_ := ref_dim_ this; Tmap_ := Tmap_ this;
                         cerr := cerr this |}
          end
      end
  | Some _ =>
      (* this is an array enum option *)
      let dim := Std.ushort (Z.of_nat (length value)) in
      loop rank dim (Z.to_nat dim) 0 (new_ushort garbage (Z.to_nat dim)) this
  end.

End SetValue.

End CEnumOptionRef.

(** ** Loops that leave the function early *)

(** The statements of a parsing loop either go on, or leave the function
    with a message, or have no defined behaviour; [A] is what the loop works
    on. *)
Module Flow.

Section Flow.

Context {A : Type}.

Inductive flow : Type :=
| Next (a : A)
| Exit (msg : string) (a : A)
| Fault.

Definition andthen (f : flow) (k : A -> flow) : flow :=
  match f with
  | Next a => k a
  | Exit msg a => Exit msg a
  | Fault => Fault
  end.

(** [for (i = from; i < from + n; i++) body], with [n] iterations left. *)
Fixpoint loop (body : nat -> A -> flow) (n : nat) (i : nat) (a : A) : flow :=
  match n with
  | O => Next a
  | S n' => andthen (body i a) (loop body n' (S i))
  end.

(** A statement that cannot leave the function. *)
Definition lift (r : option A) : flow :=
  match r with
  | Some a => Next a
  | None => Fault
  end.

Section Extract.

Variable num_get : string -> option R * string.
Variable option_value : list string.
Variable get_ss : A -> Stream.stringstream.
Variable set_ss : Stream.stringstream -> A -> A.

(** [ss << option_value[idx] << " ";
     if (!(ss >> cell)) return msg;]
    where [store x] writes [x] to the cell. *)
Definition extract (msg : string) (idx : nat) (store : R -> A -> option A)
    (a : A) : flow :=
  match option_value !! idx with
  | Some tok =>
      let '(r, ss') :=
        Stream.get_double num_get
          (Stream.put " " (Stream.put tok (get_ss a))) in
      match r with
      | Some x => lift (store x (set_ss ss' a))
      | None => Exit msg (set_ss ss' a)
      end
  | None => Fault
  end.

End Extract.

End Flow.

Arguments flow : clear implicits.

End Flow.

Declare Scope parse_scope.
Delimit Scope parse_scope with parse.
Notation "f >>> k" := (Flow.andthen f k)
  (at level 50, left associativity, only parsing) : parse_scope.

(** ** [COptionInletFixed] *)

Module COptionInletFixed.

Record t : Type := mk {
  name : string;
  size : Z;                                   (* unsigned short & *)
  marker : option (list string);
  ttotal : option (list R);
  ptotal : option (list R)
}.

(** [size = 0] and the three arrays [NULL]. *)
Definition reset (this : t) : t :=
  {| name := name this; size := 0;
     marker := None; ttotal := None; ptotal := None |}.

(** [void COptionInletFixed::SetDefault()]. *)
Definition SetDefault (this : t) : t := reset this.

(** The local stream and the three arrays once they are allocated. *)
Record arrays : Type := mkArrays {
  ss : Stream.stringstream;
  markers : list string;
  ttotals : list R;
  ptotals : list R
}.

Definition with_ss (s : Stream.stringstream) (a : arrays) : arrays :=
  {| ss := s; markers := markers a; ttotals := ttotals a;
     ptotals := ptotals a |}.

(** [this->marker[i].assign(tok)] *)
Definition set_marker (i : nat) (tok : string) (a : arrays) : option arrays :=
  x ← store1 (markers a) i tok;
  Some {| ss := ss a; markers := x; ttotals := ttotals a;
          ptotals := ptotals a |}.

(** [this->ttotal[i] = x] *)
Definition set_ttotal (i : nat) (x : R) (a : arrays) : option arrays :=
  arr ← store1 (ttotals a) i x;
  Some {| ss := ss a; markers := markers a; ttotals := arr;
          ptotals := ptotals a |}.

(** [this->ptotal[i] = x] *)
Definition set_ptotal (i : nat) (x : R) (a : arrays) : option arrays :=
  arr ← store1 (ptotals a) i x;
  Some {| ss := ss a; markers := markers a; ttotals := ttotals a;
          ptotals := arr |}.

Section SetValue.

Variable num_get : string -> option R * string.
Variable garbage : nat -> R.
Variable option_value : list string.
Variable option_name : string.

Definition extract :=
  Flow.extract num_get option_value ss with_ss
    (COptionBase.badValue option_value "inlet fixed" option_name).

Open Scope parse_scope.

(** The body of the loop; the indices [3*i + ...] are computed on [int]. *)
Definition body (i : nat) (a : arrays) : Flow.flow arrays :=
  if decide (Std.INT_MAX < Z.of_nat (3 * i + 2))%Z then Flow.Fault else
  Flow.lift (tok ← option_value !! (3 * i)%nat; set_marker i tok a) >>>
  extract (3 * i + 1) (set_ttotal i) >>>
  extract (3 * i + 2) (set_ptotal i).

Close Scope parse_scope.

Definition allocate (nVals : nat) : arrays :=
  {| ss := Stream.empty;
     markers := replicate nVals "";
     ttotals := Std.new_double garbage nVals;
     ptotals := Std.new_double garbage nVals |}.

End SetValue.

(** The arrays written back to the option, with [size = nVals]. *)
Definition pack (nVals : nat) (a : arrays) (this : t) : t :=
  {| name := name this; size := Std.ushort (Z.of_nat nVals);
     marker := Some (markers a); ttotal := Some (ttotals a);
     ptotal := Some (ptotals a) |}.

(** [string COptionInletFixed::SetValue(vector<string> option_value)]. *)
Definition SetValue (num_get : string -> option R * string)
    (garbage : nat -> R) (option_value : list string) (this : t)
  : option (string * t) :=
  let totalVals := length option_value in
  if decide (is_NONE option_value) then Some ("", reset this)
  else if decide (totalVals mod 3 ≠ 0)%nat then
    Some (name this +:+ ": must have a number of entries divisible by 3",
          reset this)
  else
    let nVals := (totalVals / 3)%nat in
    match Flow.loop (body num_get option_value (name this)) nVals 0
                    (allocate garbage nVals) with
    | Flow.Next a => Some ("", pack nVals a this)
    | Flow.Exit msg a => Some (msg, pack nVals a this)
    | Flow.Fault => None
    end.

End COptionInletFixed.

(** ** [COptionInlet] *)

Module COptionInlet.

Record t : Type := mk {
  name : string;
  size : Z;                                   (* unsigned short & *)
  marker : option (list string);
  ttotal : option (list R);
  ptotal : option (list R);
  flowdir : option (list (list R))
}.

(** [size = 0] and the four arrays [NULL]. *)
Definition reset (this : t) : t :=
  {| name := name this; size := 0;
     marker := None; ttotal := None; ptotal := None; flowdir := None |}.

(** [void COptionInlet::SetDefault()]. *)
Definition SetDefault (this : t) : t := reset this.

(** The local stream and the four arrays once they are allocated. *)
Record arrays : Type := mkArrays {
  ss : Stream.stringstream;
  markers : list string;
  ttotals : list R;
  ptotals : list R;
  flowdirs : list (list R)
}.

Definition with_ss (s : Stream.stringstream) (a : arrays) : arrays :=
  {| ss := s; markers := markers a; ttotals := ttotals a;
     ptotals := ptotals a; flowdirs := flowdirs a |}.

(** [this->marker[i].assign(tok)] *)
Definition set_marker (i : nat) (tok : string) (a : arrays) : option arrays :=
  x ← store1 (markers a) i tok;
  Some {| ss := ss a; markers := x; ttotals := ttotals a;
          ptotals := ptotals a; flowdirs := flowdirs a |}.

(** [this->ttotal[i] = x] *)
Definition set_ttotal (i : nat) (x : R) (a : arrays) : option arrays :=
  arr ← store1 (ttotals a) i x;
  Some {| ss := ss a; markers := markers a; ttotals := arr;
          ptotals := ptotals a; flowdirs := flowdirs a |}.

(** [this->ptotal[i] = x] *)
Definition set_ptotal (i : nat) (x : R) (a : arrays) : option arrays :=
  arr ← store1 (ptotals a) i x;
  Some {| ss := ss a; markers := markers a; ttotals := ttotals a;
          ptotals := arr; flowdirs := flowdirs a |}.

(** [this->flowdir[i][j] = x] *)
Definition set_flowdir (i j : nat) (x : R) (a : arrays) : option arrays :=
  arr ← store2 (flowdirs a) i j x;
  Some {| ss := ss a; markers := markers a; ttotals := ttotals a;
          ptotals := ptotals a; flowdirs := arr |}.

Section SetValue.

Variable num_get : string -> option R * string.
Variable garbage : nat -> R.
Variable option_value : list string.
Variable option_name : string.

Definition extract :=
  Flow.extract num_get option_value ss with_ss
    (COptionBase.badValue option_value "inlet" option_name).

Open Scope parse_scope.

(** The body of the second loop; the indices [6*i + ...] are computed on
    [int]. *)
Definition body (i : nat) (a : arrays) : Flow.flow arrays :=
  if decide (Std.INT_MAX < Z.of_nat (6 * i + 5))%Z then Flow.Fault else
  Flow.lift (tok ← option_value !! (6 * i)%nat; set_marker i tok a) >>>
  extract (6 * i + 1) (set_ttotal i) >>>
  extract (6 * i + 2) (set_ptotal i) >>>
  extract (6 * i + 3) (set_flowdir i 0) >>>
  extract (6 * i + 4) (set_flowdir i 1) >>>
  extract (6 * i + 5) (set_flowdir i 2).

Close Scope parse_scope.

Definition allocate (nVals : nat) : arrays :=
  {| ss := Stream.empty;
     markers := replicate nVals "";
     ttotals := Std.new_double garbage nVals;
     ptotals := Std.new_double garbage nVals;
     flowdirs := replicate nVals (Std.new_double garbage 3) |}.

End SetValue.

(** The arrays written back to the option, with [size = nVals]. *)
Definition pack (nVals : nat) (a : arrays) (this : t) : t :=
  {| name := name this; size := Std.ushort (Z.of_nat nVals);
     marker := Some (markers a); ttotal := Some (ttotals a);
     ptotal := Some (ptotals a); flowdir := Some (flowdirs a) |}.

(** [string COptionInlet::SetValue(vector<string> option_value)]. *)
Definition SetValue (num_get : string -> option R * string)
    (garbage : nat -> R) (option_value : list string) (this : t)
  : option (string * t) :=
  let totalVals := length option_value in
  if decide (is_NONE option_value) then Some ("", reset this)
  else if decide (totalVals mod 6 ≠ 0)%nat then
    Some (name this +:+ ": must have a number of entries divisible by 6",
          reset this)
  else
    let nVals := (totalVals / 6)%nat in
    (* [for (int i = 0; i < nVals; i++)] allocates the rows *)
    if decide (Std.INT_MAX < Z.of_nat nVals)%Z then None else
    match Flow.loop (body num_get option_value (name this)) nVals 0
                    (allocate garbage nVals) with
    | Flow.Next a => Some ("", pack nVals a this)
    | Flow.Exit msg a => Some (msg, pack nVals a this)
    | Flow.Fault => None
    end.

End COptionInlet.

(** ** [COptionStringDoubleList] *)

Module COptionStringDoubleList.

Record t : Type := mk {
  name : string;
  size : Z;                                   (* unsigned short & *)
  s_f : option (list string);
  d_f : option (list R)
}.

(** The two arrays once they are allocated. *)
Record arrays : Type := mkArrays {
  strings : list string;
  doubles : list R
}.

Section SetValue.

Variable num_get : string -> option R * string.
Variable garbage : nat -> R.
Variable option_value : list string.
Variable option_name : string.

(** The body of the loop; the indices [2*i] and [2*i + 1] are computed on
    [int], and each number is read from a stream of its own. *)
Definition body (i : nat) (a : arrays) : Flow.flow arrays :=
  if decide (Std.INT_MAX < Z.of_nat (2 * i + 1))%Z then Flow.Fault else
  match option_value !! (2 * i)%nat, option_value !! (2 * i + 1)%nat with
  | Some tok_s, Some tok_d =>
      match store1 (strings a) i tok_s with
      | None => Flow.Fault
      | Some s' =>
          match COptionDoubleList.convert num_get tok_d with
          | None =>
              Flow.Exit
                (COptionBase.badValue option_value "string double"
                   option_name)
                {| strings := s'; doubles := doubles a |}
          | Some val =>
              Flow.lift (d' ← store1 (doubles a) i val;
                         Some {| strings := s'; doubles := d' |})
          end
      end
  | _, _ => Flow.Fault
  end.

End SetValue.

Definition pack (nVals : nat) (a : arrays) (this : t) : t :=
  {| name := name this; size := Std.ushort (Z.of_nat nVals);
     s_f := Some (strings a); d_f := Some (doubles a) |}.

(** [string COptionStringDoubleList::SetValue(vector<string> option_value)].
 *)
Definition SetValue (num_get : string -> option R * string)
    (garbage : nat -> R) (option_value : list string) (this : t)
  : option (string * t) :=
  (* There must be an even number of entries *)
  let totalVals := length option_value in
  if decide (totalVals mod 2 ≠ 0)%nat then
    if decide (is_NONE option_value) then
      (* It's okay to say its NONE *)
      Some ("", {| name := name this; size := 0;
                   s_f := s_f this; d_f := d_f this |})
    else
      Some (name this +:+ ": must have an even number of entries", this)
  else
    let nVals := (totalVals / 2)%nat in
    match Flow.loop (body num_get option_value (name this)) nVals 0
                    {| strings := replicate nVals "";
                       doubles := Std.new_double garbage nVals |} with
    | Flow.Next a => Some ("", pack nVals a this)
    | Flow.Exit msg a => Some (msg, pack nVals a this)
    | Flow.Fault => None
    end.

(** [void COptionStringDoubleList::SetDefault()]. *)
Definition SetDefault (this : t) : t :=
  {| name := name this; size := 0; s_f := s_f this; d_f := d_f this |}.

End COptionStringDoubleList.

(** ** [COptionDVParam] *)

Module COptionDVParam.

Record t : Type := mk {
  name : string;
  nDV : Z;                                    (* unsigned short & *)
  paramDV : option (list (list R));
  design_variable : option (list Z)           (* unsigned short * & *)
}.

Definition set_nDV (n : Z) (this : t) : t :=
  {| name := name this; nDV := n; paramDV := paramDV this;
     design_variable := design_variable this |}.

(** The local variables of the parsing loop and the rows of [paramDV]. *)
Record locals : Type := mkLocals {
  ss : Stream.stringstream;
  i : nat;
  nParamDV : nat;
  rows : list (list R)
}.

Section SetValue.

Variable num_get : string -> option R * string.
Variable garbage : nat -> R.
Variable option_value : list string.
Variable option_name : string.

(** [for (iParamDV = from; iParamDV < from + n; iParamDV++) {
       ss << option_value[i] << " "; ss >> paramDV[iDV][iParamDV]; i++; }]
    The extraction is not checked: when it fails the cell keeps its
    content. *)
Fixpoint params (n : nat) (iDV iParamDV : nat) (l : locals) : option locals :=
  match n with
  | O => Some l
  | S n' =>
      tok ← option_value !! i l;
      let '(r, ss') :=
        Stream.get_double num_get (Stream.put " " (Stream.put tok (ss l))) in
      rows' ← match r with
              | Some x => store2 (rows l) iDV iParamDV x
              | None => if peek2 (rows l) iDV iParamDV is Some _
                        then Some (rows l) else None
              end;
      params n' iDV (S iParamDV)
             {| ss := ss'; i := S (i l); nParamDV := nParamDV l;
                rows := rows' |}
  end.

(** The body of the loop over the design variables, where [nDV] is the
    value of [this->nDV]. *)
Definition variable (nDV : Z) (kinds : option (list Z)) (iDV : nat)
    (l : locals) : Flow.flow locals :=
  match kinds ≫= (.!! iDV) with
  | None => Flow.Fault
  | Some kind =>
      match CDVParamOptionRef.nParamDV_of kind with
      | None =>
          Flow.Exit
            (option_name
             +:+ ": undefined design variable type found in configuration file.")
            l
      | Some n =>
          let l1 := {| ss := ss l; i := i l; nParamDV := n;
                       rows := rows l |} in
          match params n iDV 0 l1 with
          | None => Flow.Fault
          | Some l2 =>
              if decide (Z.of_nat iDV < nDV - 1)%Z then
                match option_value !! i l2 with
                | None => Flow.Fault
                | Some tok =>
                    if decide (tok ≠ ";") then
                      Flow.Exit
                        (option_name
                         +:+ ": a design variable in the configuration file has the wrong number of parameters")
                        l2
                    else
                      Flow.Next {| ss := ss l2; i := S (i l2);
                                   nParamDV := nParamDV l2;
                                   rows := rows l2 |}
                end
              else Flow.Next l2
          end
      end
  end.

End SetValue.

(** [string COptionDVParam::SetValue(vector<string> option_value)]. *)
Definition SetValue (num_get : string -> option R * string)
    (garbage : nat -> R) (option_value : list string) (this : t)
  : option (string * t) :=
  if decide (is_NONE option_value) then Some ("", set_nDV 0 this)
  else
    (* Cannot have ; at the beginning or the end *)
    first ← option_value !! 0%nat;
    if decide (first = ";") then
      Some (name this +:+ ": may not have beginning semicolon", this)
    else
      last ← option_value !! (length option_value - 1)%nat;
      if decide (last = ";") then
        Some (name this +:+ ": may not have ending semicolon", this)
      else
        (* use the ";" token to determine the number of design variables;
           one more design variable than semicolon *)
        let nDV' :=
          Std.ushort (CDVParamOptionRef.count_semi option_value + 1) in
        if bool_decide (0 < nDV')%Z && is_null (design_variable this) then
          Some (name this
                +:+ ": Design_Variable array has not been allocated. Check that DV_KIND appears before DV_PARAM in configuration file.",
                set_nDV nDV' this)
        else
          let fresh :=
            replicate (Z.to_nat nDV')
                      (Std.new_double garbage MAX_PARAMETERS) in
          let finish (l : locals) : t :=
            {| name := name this; nDV := nDV'; paramDV := Some (rows l);
               design_variable := design_variable this |} in
          match Flow.loop
                  (variable num_get option_value (name this) nDV'
                            (design_variable this))
                  (Z.to_nat nDV') 0
                  {| ss := Stream.empty; i := 0; nParamDV := 0;
                     rows := fresh |} with
          | Flow.Next l => Some ("", finish l)
          | Flow.Exit msg l => Some (msg, finish l)
          | Flow.Fault => None
          end.

(** [void COptionDVParam::SetDefault()]. *)
Definition SetDefault (this : t) : t :=
  {| name := name this; nDV := 0; paramDV := None;
     design_variable := design_variable this |}.

End COptionDVParam.

(** ** [COptionDoubleArray] *)

Module COptionDoubleArray.

Record t : Type := mk {
  field : option (list R);                    (* double * & *)
  name : string;
  size : Z;                                   (* const int *)
  default_value : option (list R)
}.

Definition set_field (f : option (list R)) (this : t) : t :=
  {| field := f; name := name this; size := size this;
     default_value := default_value this |}.

(** [option_value.size() != this->size]: the [int] is converted to the
    type of the size of the vector, of 64 bits. *)
Definition size_differs (option_value : list string) (this : t) : Prop :=
  Z.of_nat (length option_value) ≠ (size this mod 2 ^ 64)%Z.

(** The message on a wrong number of tokens; the two numbers are written in
    decimal. *)
Definition wrong_number_of_arguments (option_value : list string) (this : t)
  : string :=
  name this +:+ ": wrong number of arguments: " +:+ pretty (size this)
  +:+ " expected, " +:+ pretty (length option_value) +:+ " found".

(** [string COptionDoubleArray::SetValue(vector<string> option_value)].
    The loop is the one of [COptionDoubleList::SetValue], over [this->size]
    tokens. *)
Definition SetValue (num_get : string -> option R * string)
    (garbage : nat -> R) (option_value : list string) (this : t)
  : option (string * t) :=
  (* Check that the size is correct *)
  if decide (size_differs option_value this) then
    Some (wrong_number_of_arguments option_value this, this)
  else if decide (size this < 0)%Z then None
  else
    let n := Z.to_nat (size this) in
    match COptionDoubleList.loop num_get option_value n 0
            (Std.new_double garbage n) with
    | Some (Some vals) => Some ("", set_field (Some vals) this)
    | Some None =>
        Some (COptionBase.badValue option_value "double array" (name this),
              this)
    | None => None
    end.

(** [void COptionDoubleArray::SetDefault()]. *)
Definition SetDefault (this : t) : t := set_field (default_value this) this.

End COptionDoubleArray.

(** ** [CListOptionRef] *)

Module CListOptionRef.

Section List.

(** The type [T] of the elements, with its extraction [ss >> x] and the
    content of the cells of [new T[n]]. *)
Context {T : Type}.
Variable extract : Stream.stringstream -> option T * Stream.stringstream.
Variable fresh : nat -> T.

(** What the object refers to, and the standard error stream. *)
Record t : Type := mk {
  ref_ : option (list T);
  ref_size_ : Z;                              (* unsigned short *)
  cerr : string
}.

(** [CListOptionRef(unsigned short & size, T* & value)]. *)
Definition ctor (this : t) : t :=
  {| ref_ := None; ref_size_ := 0; cerr := cerr this |}.

Section SetValue.

Variable value : list string.

(** [for (unsigned short i = from; i < from + n; i++) {
       ss << value[i] << " "; ss >> ref[i]; }]
    where [ref] is the array that [ref_] points to.
    The extraction is not checked: when it stores nothing the cell keeps
    its content. *)
Fixpoint loop (n : nat) (i : nat) (ss : Stream.stringstream) (arr : list T)
  : option (list T) :=
  match n with
  | O => Some arr
  | S n' =>
      tok ← value !! i;
      let '(r, ss') := extract (Stream.put " " (Stream.put tok ss)) in
      arr' ← match r with
             | Some x => store1 arr i x
             | None => if decide (i < length arr)%nat then Some arr else None
             end;
      loop n' (S i) ss' arr'
  end.

(** [void CListOptionRef::SetValue(const vector<string> & value)]. *)
Definition SetValue (this : t) : Std.outcome t :=
  let size' := Std.ushort (Z.of_nat (length value)) in
  if negb (is_null (ref_ this)) then
    Std.Throws (-1)
      {| ref_ := ref_ this; ref_size_ := size';
         cerr := cerr this
                 +:+ "Error in CListOptionRef(SetValue): "
                 +:+ "list option has already been allocated."
                 +:+ Std.endl |}
  else
    match loop (Z.to_nat size') 0 Stream.empty
               (map fresh (seq 0 (Z.to_nat size'))) with
    | Some arr =>
        Std.Returns {| ref_ := Some arr; ref_size_ := size';
                       cerr := cerr this |}
    | None => Std.Undefined
    end.

End SetValue.

End List.

Arguments t : clear implicits.

End CListOptionRef.

(** ** Notions used to state the properties of the options *)

(** The token is a key of the map. *)
Definition known (m : gmap string Z) (tok : string) : Prop :=
  is_Some (m !! tok).

(** *** What a parsing loop has stored after [i] passes

    The local stream holds nothing before the first pass and a blank after
    each pass; the first [i] cells of an array hold what the passes have
    written, the others what the allocation left. *)

Definition left_over (i : nat) : string := if i is O then "" else " ".

Definition inlet_fixed_state (garbage : nat -> R) (option_value : list string)
    (x : nat -> R) (k i : nat) : COptionInletFixed.arrays :=
  {| COptionInletFixed.ss := Stream.init (left_over i);
     COptionInletFixed.markers :=
       take i ((fun e => default "" (option_value !! (3 * e)%nat))
               <$> seq 0 k)
       ++ drop i (replicate k "");
     COptionInletFixed.ttotals :=
       take i ((fun e => x (3 * e + 1)%nat) <$> seq 0 k)
       ++ drop i (Std.new_double garbage k);
     COptionInletFixed.ptotals :=
       take i ((fun e => x (3 * e + 2)%nat) <$> seq 0 k)
       ++ drop i (Std.new_double garbage k) |}.

Definition inlet_state (garbage : nat -> R) (option_value : list string)
    (x : nat -> R) (k i : nat) : COptionInlet.arrays :=
  {| COptionInlet.ss := Stream.init (left_over i);
     COptionInlet.markers :=
       take i ((fun e => default "" (option_value !! (6 * e)%nat))
               <$> seq 0 k)
       ++ drop i (replicate k "");
     COptionInlet.ttotals :=
       take i ((fun e => x (6 * e + 1)%nat) <$> seq 0 k)
       ++ drop i (Std.new_double garbage k);
     COptionInlet.ptotals :=
       take i ((fun e => x (6 * e + 2)%nat) <$> seq 0 k)
       ++ drop i (Std.new_double garbage k);
     COptionInlet.flowdirs :=
       take i ((fun e => [x (6 * e + 3)%nat; x (6 * e + 4)%nat;
                          x (6 * e + 5)%nat]) <$> seq 0 k)
       ++ drop i (replicate k (Std.new_double garbage 3)) |}.

Definition string_double_state (garbage : nat -> R)
    (option_value : list string) (x : nat -> R) (k i : nat)
  : COptionStringDoubleList.arrays :=
  {| COptionStringDoubleList.strings :=
       take i ((fun e => default "" (option_value !! (2 * e)%nat))
               <$> seq 0 k)
       ++ drop i (replicate k "");
     COptionStringDoubleList.doubles :=
       take i (x <$> seq 0 k) ++ drop i (Std.new_double garbage k) |}.

Definition periodic_ref_state (garbage : nat -> R) (value : list string)
    (x : nat -> R) (k iM : nat) : CMarkerPeriodicRef.locals :=
  {| CMarkerPeriodicRef.ss := Stream.init (left_over iM);
     CMarkerPeriodicRef.i := Z.of_nat (11 * iM);
     CMarkerPeriodicRef.bound :=
       take iM ((fun e => default "" (value !! (11 * e)%nat)) <$> seq 0 k)
       ++ drop iM (replicate k "");
     CMarkerPeriodicRef.donor :=
       take iM ((fun e => default "" (value !! (11 * e + 1)%nat))
                <$> seq 0 k)
       ++ drop iM (replicate k "");
     CMarkerPeriodicRef.center :=
       take iM ((fun e => [x (11 * e + 2); x (11 * e + 3);
                           x (11 * e + 4)]%nat) <$> seq 0 k)
       ++ drop iM (replicate k (Std.new_double garbage 3));
     CMarkerPeriodicRef.angles :=
       take iM ((fun e => [x (11 * e + 5)%nat * CMarkerPeriodicRef.deg2rad;
                           x (11 * e + 6)%nat * CMarkerPeriodicRef.deg2rad;
                           x (11 * e + 7)%nat * CMarkerPeriodicRef.deg2rad])
                <$> seq 0 k)
       ++ drop iM (replicate k (Std.new_double garbage 3));
     CMarkerPeriodicRef.trans :=
       take iM ((fun e => [x (11 * e + 8); x (11 * e + 9);
                           x (11 * e + 10)]%nat) <$> seq 0 k)
       ++ drop iM (replicate k (Std.new_double garbage 3)) |}.

(** The five arrays of the periodic markers have [n] entries each, and
    every row of the last three has three cells. *)
Definition shaped (n : nat) (a : COptionPeriodic.arrays) : Prop :=
  length (COptionPeriodic.bound a) = n /\
  length (COptionPeriodic.donor a) = n /\
  length (COptionPeriodic.center a) = n /\
  length (COptionPeriodic.angles a) = n /\
  length (COptionPeriodic.trans a) = n /\
  Forall COptionPeriodic.len3 (COptionPeriodic.center a) /\
  Forall COptionPeriodic.len3 (COptionPeriodic.angles a) /\
  Forall COptionPeriodic.len3 (COptionPeriodic.trans a).

(** Where a step of the loops ends, the arrays are shaped. *)
Definition flow_shaped (n : nat) (f : COptionPeriodic.flow) : Prop :=
  match f with
  | COptionPeriodic.Next a => shaped n a
  | COptionPeriodic.Exit _ a => shaped n a
  | COptionPeriodic.Fault => True
  end.

(** A list of eleven tokens whose first numeral is not one. *)
Definition bad_center : list string :=
  ["lower"; "upper"; "x"; "0"; "0"; "0"; "0"; "30"; "0"; "0"; "0"].

(** *** The two parsers of [DV_PARAM] side by side *)

(** The local variables of [CDVParamOptionRef::SetValue] as those of
    [COptionDVParam::SetValue], which does not write to the error stream. *)
Definition forget (l : CDVParamOptionRef.locals) : COptionDVParam.locals :=
  {| COptionDVParam.ss := CDVParamOptionRef.ss l;
     COptionDVParam.i := CDVParamOptionRef.i l;
     COptionDVParam.nParamDV := CDVParamOptionRef.nParamDV l;
     COptionDVParam.rows := CDVParamOptionRef.rows l |}.

(** Where [CDVParamOptionRef::SetValue] throws in its loop,
    [COptionDVParam::SetValue] returns this message. *)
Definition wrong_number (option_name : string) : string :=
  option_name
  +:+ ": a design variable in the configuration file has the wrong number of parameters".

Definition translate (option_name : string)
    (o : Std.outcome CDVParamOptionRef.locals)
  : Flow.flow COptionDVParam.locals :=
  match o with
  | Std.Returns l => Flow.Next (forget l)
  | Std.Throws _ l => Flow.Exit (wrong_number option_name) (forget l)
  | Std.Undefined => Flow.Fault
  end.

(** The option that refers to the variables that [ref] refers to. *)
Definition of_ref (option_name : string) (ref : CDVParamOptionRef.t)
  : COptionDVParam.t :=
  {| COptionDVParam.name := option_name;
     COptionDVParam.nDV := CDVParamOptionRef.nDV_ ref;
     COptionDVParam.paramDV := CDVParamOptionRef.ParamDV_ ref;
     COptionDVParam.design_variable := CDVParamOptionRef.Design_Variable_ ref |}.

(** Every kind of design variable in the array is one of the [switch]. *)
Definition kinds_known (kinds : option (list Z)) : Prop :=
  forall j kind, kinds ≫= (.!! j) = Some kind ->
    is_Some (CDVParamOptionRef.nParamDV_of kind).

(** One Hicks-Henne bump has been declared. *)
Definition one_bump : CDVParamOptionRef.t :=
  {| CDVParamOptionRef.nDV_ := 0;
     CDVParamOptionRef.ParamDV_ := None;
     CDVParamOptionRef.Design_Variable_ := Some [ENUM_PARAM.HICKS_HENNE];
     CDVParamOptionRef.cerr := "" |}.

(** No character of the string is white space. *)
Fixpoint no_space (s : string) : bool :=
  match s with
  | String c s' => negb (Stream.isspace c) && no_space s'
  | EmptyString => true
  end.

(** A word: a string that is not empty and holds no white space, which an
    extraction into a [std::string] reads whole. *)
Definition is_word (s : string) : bool :=
  negb (Stream.is_empty s) && no_space s.

(** The last character of a string. *)
Fixpoint last_char (s : string) : option ascii :=
  match s with
  | EmptyString => None
  | String c EmptyString => Some c
  | String _ s' => last_char s'
  end.

(** The four flags that [MATH_PROBLEM] sets, in the order adjoint, one
    shot, linearized, restart. *)
Definition flags_of_option (o : COptionMathProblem.t) : bool * bool * bool * bool :=
  (COptionMathProblem.adjoint o, COptionMathProblem.oneshot o,
   COptionMathProblem.linearized o, COptionMathProblem.restart o).

Definition flags_of_ref (r : CMathProblemRef.t) : bool * bool * bool * bool :=
  (CMathProblemRef.Adjoint_ r, CMathProblemRef.OneShot_ r,
   CMathProblemRef.Linearized_ r, CMathProblemRef.Restart_Flow_ r).

(** The space, centered and upwind discretisations that [CONV_NUM_METHOD]
    sets. *)
Definition scheme_of_option (o : COptionConvect.t) : Z * Z * Z :=
  (COptionConvect.space o, COptionConvect.centered o, COptionConvect.upwind o).

Definition scheme_of_ref (r : CConvOptionRef.t) : Z * Z * Z :=
  (CConvOptionRef.space_ref_ r, CConvOptionRef.centered_ref_ r,
   CConvOptionRef.upwind_ref_ r).
(* ===================================================================== *)
(** * Properties of the turbulence variables *)
(* ===================================================================== *)

Module TurbFacts.
Import Turb.

(** ** The standard functions on reals *)

Lemma max_Rmax a b : Std.max a b = Rmax a b.
Proof.
  unfold Std.max, Rmax.
  destruct (Rlt_dec a b) as [Hlt | Hge], (Rle_dec a b) as [Hle | Hgt];
    try reflexivity; lra.
Qed.


Lemma pow_10_m20 : Std.pow 10 (-20) = / 10 ^ 20.
Proof.
  unfold Std.pow. replace (-20) with (- INR 20) by (simpl; lra).
  rewrite Rpower_Ropp. f_equal. apply Rpower_pow. lra.
Qed.

Lemma pow_10_m20_pos : 0 < Std.pow 10 (-20).
Proof. unfold Std.pow, Rpower. apply exp_pos. Qed.

(** ** Loops of the constructors *)

Lemma store_lt (a : list R) i x :
  (i < length a)%nat -> store a i x = Some (<[i := x]> a).
Proof. intros Hi. unfold store. rewrite decide_True; auto. Qed.

Lemma lookup_store (a a' : list R) i x :
  store a i x = Some a' -> a' !! i = Some x /\ length a' = length a.
Proof.
  unfold store. case_decide as Hi; [|discriminate].
  intros [= <-]. split.
  - now apply list_lookup_insert_eq.
  - apply length_insert.
Qed.

Lemma lookup_store_ne (a a' : list R) i j x :
  store a i x = Some a' -> i <> j -> a' !! j = a !! j.
Proof.
  unfold store. case_decide as Hi; [|discriminate].
  intros [= <-] Hne. now apply list_lookup_insert_ne.
Qed.

Lemma zero_loop_spec n : forall i (a : list R),
  (i + n = length a)%nat ->
  zero_loop n i a = Some (take i a ++ replicate n 0).
Proof.
  induction n as [|n IH]; intros i a Hlen; simpl.
  - rewrite app_nil_r, firstn_all2 by lia. reflexivity.
  - rewrite store_lt by lia. simpl.
    rewrite IH by (rewrite length_insert; lia).
    f_equal.
    rewrite (take_S_r _ _ 0) by (apply list_lookup_insert_eq; lia).
    rewrite take_insert_ge by lia.
    now rewrite <- app_assoc.
Qed.

Lemma zero_loop2_spec n : forall i (a b : list R),
  (i + n = length a)%nat -> (i + n = length b)%nat ->
  zero_loop2 n i a b
  = Some (take i a ++ replicate n 0, take i b ++ replicate n 0).
Proof.
  induction n as [|n IH]; intros i a b Ha Hb; simpl.
  - rewrite !app_nil_r, !firstn_all2 by lia. reflexivity.
  - rewrite !store_lt by lia. simpl.
    rewrite IH by (rewrite length_insert; lia).
    rewrite !(take_S_r _ _ 0) by (apply list_lookup_insert_eq; lia).
    rewrite !take_insert_ge by lia.
    now rewrite <- !app_assoc.
Qed.

Lemma length_new_double garbage n : length (Std.new_double garbage n) = n.
Proof. unfold Std.new_double. now rewrite length_map, length_seq. Qed.

Lemma CTurbVariable_ctor_eq garbage val_nDim val_nVar :
  CTurbVariable_ctor garbage val_nDim val_nVar
  = Some {| turb_base :=
              {| nDim := val_nDim;
                 nVar := val_nVar;
                 Solution := Std.new_double garbage val_nVar;
                 Solution_Old := Std.new_double garbage val_nVar;
                 Gradient :=
                   replicate val_nVar (Std.new_double garbage val_nDim);
                 Limiter := replicate val_nVar 0;
                 Solution_Max := replicate val_nVar 0;
                 Solution_Min := replicate val_nVar 0 |};
            muT := garbage 0%nat |}.
Proof.
  unfold CTurbVariable_ctor. simpl.
  rewrite zero_loop_spec by (rewrite length_new_double; lia). simpl.
  rewrite zero_loop2_spec by (rewrite length_new_double; lia). simpl.
  reflexivity.
Qed.

(** C9: [CTurbVariable(val_nDim, val_nVar, config)] returns for every
    [val_nVar], with [Limiter], [Solution_Max] and [Solution_Min] of length
    [nVar] and every entry of the three arrays equal to [0.0]. *)
Theorem CTurbVariable_ctor_zero_arrays garbage (val_nDim val_nVar : nat) :
  exists v : CTurbVariable,
    CTurbVariable_ctor garbage val_nDim val_nVar = Some v /\
    nVar v = val_nVar /\
    length (Limiter v) = nVar v /\
    length (Solution_Max v) = nVar v /\
    length (Solution_Min v) = nVar v /\
    forall iVar, (iVar < nVar v)%nat ->
      Limiter v !! iVar = Some 0 /\
      Solution_Max v !! iVar = Some 0 /\
      Solution_Min v !! iVar = Some 0.
Proof.
  eexists. split; [apply CTurbVariable_ctor_eq|]. simpl.
  rewrite !length_replicate. repeat split; auto using lookup_replicate_2.
Qed.

(** C8: the derived constructors return once the state vector has room for
    the variables they write (two for SST, which also reads [constants[3]]
    and [constants[6]]; one for SA), and then the current and the old
    solution hold the initial values, [muT] is [val_muT], and the SST
    blending data are [F1 = 1], [F2 = 0], [CDkw = 0] with the two model
    constants taken from [constants]. *)
Theorem ctor_initial_state garbage (val_kine val_omega val_nu_tilde val_muT : R)
    (val_nDim val_nVar val_nVar' : nat) (constants : list R) (c3 c6 : R) :
  (2 <= val_nVar)%nat ->
  constants !! 3%nat = Some c3 ->
  constants !! 6%nat = Some c6 ->
  (1 <= val_nVar')%nat ->
  (exists v : CTurbSSTVariable,
      CTurbSSTVariable_ctor garbage val_kine val_omega val_muT
                            val_nDim val_nVar constants = Some v /\
      Solution v !! 0%nat = Some val_kine /\
      Solution_Old v !! 0%nat = Some val_kine /\
      Solution v !! 1%nat = Some val_omega /\
      Solution_Old v !! 1%nat = Some val_omega /\
      muT v = val_muT /\ GetmuT v = val_muT /\
      F1 v = 1 /\ F2 v = 0 /\ CDkw v = 0 /\
      sigma_om2 v = c3 /\ beta_star v = c6) /\
  (exists w : CTurbSAVariable,
      CTurbSAVariable_ctor garbage val_nu_tilde val_muT
                           val_nDim val_nVar' = Some w /\
      Solution w !! 0%nat = Some val_nu_tilde /\
      Solution_Old w !! 0%nat = Some val_nu_tilde /\
      muT w = val_muT /\ GetmuT w = val_muT).
Proof.
  intros HnVar Hc3 Hc6 HnVar'. split.
  - unfold CTurbSSTVariable_ctor.
    rewrite CTurbVariable_ctor_eq. simpl.
    destruct (store (Std.new_double garbage val_nVar) 0 val_kine)
      as [s0|] eqn:Es0;
      [|rewrite store_lt in Es0 by (rewrite length_new_double; lia);
        discriminate].
    destruct (lookup_store _ _ _ _ Es0) as [Hs0 Ls0].
    rewrite length_new_double in Ls0. simpl.
    destruct (store s0 1 val_omega) as [s1|] eqn:Es1;
      [|rewrite store_lt in Es1 by lia; discriminate].
    destruct (lookup_store _ _ _ _ Es1) as [Hs1 Ls1]. simpl.
    rewrite Hc3, Hc6. simpl.
    eexists. split; [reflexivity|]. simpl.
    rewrite (lookup_store_ne _ _ _ 0 _ Es1) by lia.
    repeat split; auto.
  - unfold CTurbSAVariable_ctor.
    rewrite CTurbVariable_ctor_eq. simpl.
    destruct (store (Std.new_double garbage val_nVar') 0 val_nu_tilde)
      as [s0|] eqn:Es0;
      [|rewrite store_lt in Es0 by (rewrite length_new_double; lia);
        discriminate].
    destruct (lookup_store _ _ _ _ Es0) as [Hs0 Ls0]. simpl.
    eexists. split; [reflexivity|]. simpl. repeat split; auto.
Qed.

Lemma ctor_initial_state_witness :
  let garbage := fun _ : nat => 7 in
  let constants := [0; 0; 0; 0.856; 0; 0; 0.09] in
  (exists v : CTurbSSTVariable,
      CTurbSSTVariable_ctor garbage 1 2 3 2 2 constants = Some v /\
      Solution v !! 0%nat = Some 1 /\
      Solution_Old v !! 0%nat = Some 1 /\
      Solution v !! 1%nat = Some 2 /\
      Solution_Old v !! 1%nat = Some 2 /\
      muT v = 3 /\ GetmuT v = 3 /\
      F1 v = 1 /\ F2 v = 0 /\ CDkw v = 0 /\
      sigma_om2 v = 0.856 /\ beta_star v = 0.09) /\
  (exists w : CTurbSAVariable,
      CTurbSAVariable_ctor garbage 5 3 2 1 = Some w /\
      Solution w !! 0%nat = Some 5 /\
      Solution_Old w !! 0%nat = Some 5 /\
      muT w = 3 /\ GetmuT w = 3).
Proof.
  intros garbage constants.
  apply (ctor_initial_state garbage 1 2 5 3 2 2 1 constants 0.856 0.09).
  - lia.
  - reflexivity.
  - reflexivity.
  - lia.
Defined.

(** ** The blending functions *)

Lemma dot_cons x y g0 g1 : dot (x :: g0) (y :: g1) = x * y + dot g0 g1.
Proof. reflexivity. Qed.

Lemma dot_nil_l g1 : dot [] g1 = 0.
Proof. reflexivity. Qed.

(** The accumulation loop computes the scalar product of rows 0 and 1. *)
Lemma cross_loop_spec (G : list (list R)) g0 g1 :
  G !! 0%nat = Some g0 -> G !! 1%nat = Some g1 ->
  forall n i acc,
    (i + n = length g0)%nat -> (i + n = length g1)%nat ->
    cross_loop G n i acc = Some (acc + dot (drop i g0) (drop i g1), []).
Proof.
  intros H0 H1. induction n as [|n IH]; intros i acc L0 L1; simpl.
  - rewrite (drop_ge g0) by lia. rewrite dot_nil_l, Rplus_0_r. reflexivity.
  - destruct (lookup_lt_is_Some_2 g0 i) as [x Hx]; [lia|].
    destruct (lookup_lt_is_Some_2 g1 i) as [y Hy]; [lia|].
    unfold load2, load. rewrite H0, H1, Hx, Hy. simpl.
    rewrite IH by lia.
    rewrite (drop_S g0 x i Hx), (drop_S g1 y i Hy), dot_cons.
    do 2 f_equal. ring.
Qed.

(** The value that a call leaves in the variable, and the divisors it met,
    when the state vector and the gradient are large enough. *)
Lemma SetBlendingFunc_eval mu d rho (v : CTurbSSTVariable) k om g0 g1 :
  Solution v !! 0%nat = Some k -> Solution v !! 1%nat = Some om ->
  Gradient v !! 0%nat = Some g0 -> Gradient v !! 1%nat = Some g1 ->
  length g0 = nDim v -> length g1 = nDim v ->
  let CDkw' :=
    Std.max (dot g0 g1 * (2 * rho * sigma_om2 v / om)) (Std.pow 10 (-20)) in
  let arg2A := sqrt k / (beta_star v * om * d) in
  let arg2B := 500 * mu / (rho * d * d * om) in
  let arg1 :=
    Std.min (Std.max arg2A arg2B)
            (4 * rho * sigma_om2 v * k / (CDkw' * d * d)) in
  let arg2 := Std.max (2 * arg2A) arg2B in
  SetBlendingFunc mu d rho v
  = Some ({| sst_base := sst_base v;
             sigma_om2 := sigma_om2 v;
             beta_star := beta_star v;
             F1 := tanh (arg1 * arg1 * arg1 * arg1);
             F2 := tanh (arg2 * arg2);
             CDkw := CDkw' |},
          [om; beta_star v * om * d; rho * d * d * om; CDkw' * d * d]).
Proof.
  intros Hk Hom H0 H1 L0 L1. simpl.
  unfold SetBlendingFunc.
  rewrite (cross_loop_spec _ g0 g1 H0 H1) by lia.
  unfold load, divide. rewrite Hk, Hom. simpl.
  rewrite Rplus_0_l. reflexivity.
Qed.

(** Whatever a call returns differs from the variable it was called on in
    [F1], [F2] and [CDkw] only. *)
Lemma SetBlendingFunc_frame mu d rho (v v' : CTurbSSTVariable) divs :
  SetBlendingFunc mu d rho v = Some (v', divs) ->
  sst_base v' = sst_base v /\
  sigma_om2 v' = sigma_om2 v /\ beta_star v' = beta_star v.
Proof.
  unfold SetBlendingFunc, bind, divide, ret.
  destruct (cross_loop _ _ _ _) as [[c0 l0]|]; [|discriminate].
  destruct (load (Solution v) 1) as [[om l1]|]; [|discriminate].
  destruct (load (Solution v) 0) as [[k l2]|]; [|discriminate].
  intros [= <- _]. auto.
Qed.

(** Rows 0 and 1 of a well-dimensioned gradient. *)
Lemma dims_ok_rows (v : CVariable) :
  dims_ok v -> (2 <= nVar v)%nat ->
  exists k om g0 g1,
    Solution v !! 0%nat = Some k /\ Solution v !! 1%nat = Some om /\
    Gradient v !! 0%nat = Some g0 /\ Gradient v !! 1%nat = Some g1 /\
    length g0 = nDim v /\ length g1 = nDim v.
Proof.
  intros (LS & _ & LG & HG) HnVar.
  destruct (lookup_lt_is_Some_2 (Solution v) 0) as [k Hk]; [lia|].
  destruct (lookup_lt_is_Some_2 (Solution v) 1) as [om Hom]; [lia|].
  destruct (lookup_lt_is_Some_2 (Gradient v) 0) as [g0 H0]; [lia|].
  destruct (lookup_lt_is_Some_2 (Gradient v) 1) as [g1 H1]; [lia|].
  exists k, om, g0, g1. repeat split; auto.
  - exact (proj1 (Forall_lookup _ _) HG _ _ H0).
  - exact (proj1 (Forall_lookup _ _) HG _ _ H1).
Qed.


Lemma sst_example_dims_ok m f1 f2 cd : dims_ok (sst_example m f1 f2 cd).
Proof. repeat split. repeat constructor. Qed.


(** In exact arithmetic, when [Solution[1]], the wall distance, the density
    and [beta_star] are all nonzero, a call returns and each of the four
    divisions it performs has a nonzero divisor; the cross diffusion is at
    least [1e-20] when it enters the last divisor [CDkw*val_dist*val_dist],
    for every value of the gradient scalar product.  This is a fact of the
    real numbers, where a product of nonzero factors is not zero; for the
    doubles of the code see [Turb64Facts]. *)
Theorem SetBlendingFunc_divisors_nonzero
    (val_viscosity val_dist val_density : R)
    (v : CTurbSSTVariable) (k omega : R) (g0 g1 : list R) :
  Solution v !! 1%nat = Some omega ->
  omega <> 0 -> val_dist <> 0 -> val_density <> 0 -> beta_star v <> 0 ->
  Solution v !! 0%nat = Some k ->
  Gradient v !! 0%nat = Some g0 -> Gradient v !! 1%nat = Some g1 ->
  length g0 = nDim v -> length g1 = nDim v ->
  exists (v' : CTurbSSTVariable) (divs : list R),
    SetBlendingFunc val_viscosity val_dist val_density v = Some (v', divs) /\
    Forall (fun y => y <> 0) divs /\
    divs = [omega;
            beta_star v * omega * val_dist;
            val_density * val_dist * val_dist * omega;
            CDkw v' * val_dist * val_dist] /\
    / 10 ^ 20 <= CDkw v'.
Proof.
  intros Hom Nom Nd Nrho Nbeta Hk H0 H1 L0 L1.
  do 2 eexists. split.
  { apply (SetBlendingFunc_eval _ _ _ v k omega g0 g1); assumption. }
  simpl CDkw.
  set (c := Std.max _ _).
  assert (Hc : / 10 ^ 20 <= c).
  { unfold c. rewrite max_Rmax, pow_10_m20. apply Rmax_r. }
  assert (Hpos : 0 < / 10 ^ 20).
  { apply Rinv_0_lt_compat. apply pow_lt. lra. }
  split; [|split; [reflexivity | exact Hc]].
  repeat constructor.
  - exact Nom.
  - repeat apply Rmult_integral_contrapositive_currified; assumption.
  - repeat apply Rmult_integral_contrapositive_currified; assumption.
  - repeat apply Rmult_integral_contrapositive_currified; try assumption. lra.
Qed.

Lemma SetBlendingFunc_divisors_nonzero_witness :
  let v := sst_example 0 1 0 0 in
  exists (v' : CTurbSSTVariable) (divs : list R),
    SetBlendingFunc 1 1 1 v = Some (v', divs) /\
    Forall (fun y => y <> 0) divs /\
    divs = [2; 0.09 * 2 * 1; 1 * 1 * 1 * 2; CDkw v' * 1 * 1] /\
    / 10 ^ 20 <= CDkw v'.
Proof.
  intros v.
  apply (SetBlendingFunc_divisors_nonzero 1 1 1 v 1 2 [1; -2] [3; 4]);
    try reflexivity; simpl; lra.
Defined.

Lemma SetBlendingFunc_no_variable mu d rho (v : CTurbSSTVariable) :
  dims_ok v -> nVar v = 0%nat -> SetBlendingFunc mu d rho v = None.
Proof.
  intros (LS & _ & _ & _) HnVar.
  assert (ES : Solution v = []) by (apply nil_length_inv; lia).
  unfold SetBlendingFunc, bind, load. rewrite ES. simpl.
  now destruct (cross_loop _ _ _ _) as [[c0 l0]|].
Qed.

(** The dimensions are those of every constructed variable, and a call
    keeps them. *)
Lemma CTurbSSTVariable_ctor_dims_ok garbage val_kine val_omega val_muT
    val_nDim val_nVar constants (v : CTurbSSTVariable) :
  CTurbSSTVariable_ctor garbage val_kine val_omega val_muT
                        val_nDim val_nVar constants = Some v ->
  dims_ok v /\ nDim v = val_nDim /\ nVar v = val_nVar.
Proof.
  unfold CTurbSSTVariable_ctor. rewrite CTurbVariable_ctor_eq. simpl.
  destruct (store _ 0 val_kine) as [s0|] eqn:Es0; [|discriminate]. simpl.
  destruct (store s0 1 val_omega) as [s1|] eqn:Es1; [|discriminate]. simpl.
  destruct (constants !! 3%nat) as [c3|]; [|discriminate]. simpl.
  destruct (constants !! 6%nat) as [c6|]; [|discriminate]. simpl.
  intros [= <-]. unfold dims_ok; simpl.
  destruct (lookup_store _ _ _ _ Es0) as [_ L0].
  destruct (lookup_store _ _ _ _ Es1) as [_ L1].
  rewrite L1, L0, length_new_double, length_replicate.
  repeat split. apply Forall_replicate, length_new_double.
Qed.

Lemma SetBlendingFunc_dims_ok mu d rho (v v' : CTurbSSTVariable) divs :
  SetBlendingFunc mu d rho v = Some (v', divs) -> dims_ok v -> dims_ok v'.
Proof.
  intros Hrun. destruct (SetBlendingFunc_frame _ _ _ _ _ _ Hrun) as (-> & _).
  auto.
Qed.

(** C3: on two variables that satisfy the dimensions of their constructors
    and agree on [Solution], [Gradient], [sigma_om2] and [beta_star], calls
    with equal arguments produce equal [F1], [F2] and [CDkw]; a call on a
    variable with at least two solution entries returns; and the variable
    it returns has the [Solution], [Solution_Old], [Gradient], [muT],
    [Limiter], [Solution_Min], [Solution_Max] and model constants of the
    variable it was called on.  The function has no argument through which
    another grid point could be read. *)
Theorem SetBlendingFunc_pure (val_viscosity val_dist val_density : R)
    (v1 v2 : CTurbSSTVariable) :
  dims_ok v1 -> dims_ok v2 ->
  Solution v1 = Solution v2 -> Gradient v1 = Gradient v2 ->
  sigma_om2 v1 = sigma_om2 v2 -> beta_star v1 = beta_star v2 ->
  blending <$> SetBlendingFunc val_viscosity val_dist val_density v1
  = blending <$> SetBlendingFunc val_viscosity val_dist val_density v2 /\
  ((2 <= nVar v1)%nat ->
   is_Some (SetBlendingFunc val_viscosity val_dist val_density v1)) /\
  (forall v' divs,
     SetBlendingFunc val_viscosity val_dist val_density v1 = Some (v', divs) ->
     Solution v' = Solution v1 /\ Solution_Old v' = Solution_Old v1 /\
     Gradient v' = Gradient v1 /\ muT v' = muT v1 /\
     Limiter v' = Limiter v1 /\ Solution_Min v' = Solution_Min v1 /\
     Solution_Max v' = Solution_Max v1 /\
     nDim v' = nDim v1 /\ nVar v' = nVar v1 /\
     sigma_om2 v' = sigma_om2 v1 /\ beta_star v' = beta_star v1).
Proof.
  intros D1 D2 ES EG Esig Ebeta. split; [|split].
  - destruct (Nat.eq_dec (nVar v1) 0%nat) as [Z1 | NZ1].
    + assert (Z2 : nVar v2 = 0%nat).
      { destruct D1 as (L1 & _), D2 as (L2 & _). congruence. }
      now rewrite !SetBlendingFunc_no_variable.
    + assert (EnDim : nDim v1 = nDim v2).
      { destruct D1 as (_ & _ & LG1 & F1_), D2 as (_ & _ & _ & F2_).
        destruct (Gradient v1) as [|row rows] eqn:E1; [simpl in LG1; lia|].
        rewrite <- EG in F2_.
        apply Forall_cons_1 in F1_ as [<- _].
        now apply Forall_cons_1 in F2_ as [<- _]. }
      unfold SetBlendingFunc, bind, divide, ret.
      rewrite ES, EG, Esig, Ebeta, EnDim.
      destruct (cross_loop _ _ _ _) as [[c0 l0]|]; [|reflexivity].
      destruct (load (Solution v2) 1) as [[om l1]|]; [|reflexivity].
      destruct (load (Solution v2) 0) as [[k l2]|]; reflexivity.
  - intros HnVar.
    destruct (dims_ok_rows v1 D1 HnVar)
      as (k & om & g0 & g1 & Hk & Hom & H0 & H1 & L0 & L1).
    rewrite (SetBlendingFunc_eval _ _ _ v1 k om g0 g1) by assumption.
    eauto.
  - intros v' divs Hrun.
    destruct (SetBlendingFunc_frame _ _ _ _ _ _ Hrun) as (Eb & Es & Ebs).
    rewrite Eb. repeat split; assumption.
Qed.

Lemma SetBlendingFunc_pure_witness :
  let v1 := sst_example 0 1 0 0 in
  let v2 := sst_example 5 0.5 0.25 3 in
  blending <$> SetBlendingFunc 1 1 1 v1
  = blending <$> SetBlendingFunc 1 1 1 v2 /\
  ((2 <= nVar v1)%nat -> is_Some (SetBlendingFunc 1 1 1 v1)) /\
  (forall v' divs,
     SetBlendingFunc 1 1 1 v1 = Some (v', divs) ->
     Solution v' = Solution v1 /\ Solution_Old v' = Solution_Old v1 /\
     Gradient v' = Gradient v1 /\ muT v' = muT v1 /\
     Limiter v' = Limiter v1 /\ Solution_Min v' = Solution_Min v1 /\
     Solution_Max v' = Solution_Max v1 /\
     nDim v' = nDim v1 /\ nVar v' = nVar v1 /\
     sigma_om2 v' = sigma_om2 v1 /\ beta_star v' = beta_star v1).
Proof.
  intros v1 v2.
  apply (SetBlendingFunc_pure 1 1 1 v1 v2);
    try reflexivity; apply sst_example_dims_ok.
Defined.

End TurbFacts.

(* ===================================================================== *)
(** * The divisors of the blending functions in double precision *)
(* ===================================================================== *)

Module Turb64Facts.
Import PrimFloat FloatOps SpecFloat FloatAxioms.
Import Turb64.
Local Open Scope float_scope.

(** ** The floor *)

Lemma Prim2SF_zero : Prim2SF 0 = S754_zero false.
Proof. vm_compute. reflexivity. Qed.

Lemma Prim2SF_floor :
  Prim2SF Std64.pow_10_m20 = S754_finite false 6646139978924579 (-119).
Proof. vm_compute. reflexivity. Qed.

(** A double that is not below the floor is not zero: it is a NaN, an
    infinity or a finite value that is not a zero. *)
Lemma not_below_floor_nonzero (x : float) :
  (x <? Std64.pow_10_m20) = false -> Std64.nonzero x.
Proof.
  unfold Std64.nonzero.
  rewrite ltb_spec, eqb_spec, Prim2SF_zero, Prim2SF_floor.
  destruct (Prim2SF x) as [s|s| |s m e].
  - destruct s; discriminate.
  - intros _. now destruct s.
  - reflexivity.
  - intros _. now destruct s.
Qed.

Lemma floor_not_below_itself :
  (Std64.pow_10_m20 <? Std64.pow_10_m20) = false.
Proof. reflexivity. Qed.

(** [std::max(x, pow(10.0, -20.0))] is never below the floor, whatever [x]
    is: a NaN is returned as it is, and it is not below anything. *)
Lemma max_floor_not_below (x : float) :
  (Std64.max x Std64.pow_10_m20 <? Std64.pow_10_m20) = false.
Proof.
  unfold Std64.max. destruct (x <? Std64.pow_10_m20) eqn:E.
  - apply floor_not_below_itself.
  - exact E.
Qed.

Lemma max_floor_nonzero (x : float) :
  Std64.nonzero (Std64.max x Std64.pow_10_m20).
Proof. apply not_below_floor_nonzero, max_floor_not_below. Qed.

(** ** The loop of the scalar product *)

Lemma load2_row (G : list (list float)) (i j : nat) (row : list float) :
  G !! i = Some row -> (j < length row)%nat ->
  exists x, load2 G i j = Some (x, []).
Proof.
  intros Hrow Hj. unfold load2, load. rewrite Hrow.
  destruct (lookup_lt_is_Some_2 row j Hj) as [x Hx].
  rewrite Hx. now exists x.
Qed.

(** On two rows of [nDim] entries the loop returns, and it divides
    nothing. *)
Lemma cross_loop_returns (G : list (list float)) (g0 g1 : list float)
    (n : nat) : forall (iDim : nat) (acc : float),
  G !! 0%nat = Some g0 -> G !! 1%nat = Some g1 ->
  (iDim + n <= length g0)%nat -> (iDim + n <= length g1)%nat ->
  exists c, cross_loop G n iDim acc = Some (c, []).
Proof.
  induction n as [|n IH]; intros iDim acc H0 H1 L0 L1; cbn [cross_loop].
  - now exists acc.
  - destruct (load2_row G 0 iDim g0 H0 ltac:(lia)) as [x0 E0].
    destruct (load2_row G 1 iDim g1 H1 ltac:(lia)) as [x1 E1].
    rewrite E0. cbn [bind]. rewrite E1. cbn [bind].
    destruct (IH (S iDim) (acc + x0 * x1) H0 H1 ltac:(lia) ltac:(lia))
      as [c Ec].
    rewrite Ec. now exists c.
Qed.

(** ** The divisors *)

(** C2, amended.  In double precision, a call on a variable with two
    solution entries and two gradient rows of [nDim] entries, with
    [Solution[1] != 0], returns after four divisions, by [Solution[1]],
    [beta_star*Solution[1]*val_dist],
    [val_density*val_dist*val_dist*Solution[1]] and
    [CDkw*val_dist*val_dist], where [CDkw] is the value that the call
    stores.  The first divisor is not zero, and whatever the gradients and
    the arguments are, the [CDkw] that enters the last divisor is not zero
    and not below the floor [pow(10.0, -20.0)].  Nothing is said of the
    three products. *)
Theorem SetBlendingFunc_floor_nonzero (tanh : float -> float)
    (val_viscosity val_dist val_density : float)
    (v : CTurbSSTVariable) (k omega : float) (g0 g1 : list float) :
  Solution v !! 1%nat = Some omega ->
  Std64.nonzero omega ->
  Solution v !! 0%nat = Some k ->
  Gradient v !! 0%nat = Some g0 -> Gradient v !! 1%nat = Some g1 ->
  length g0 = nDim v -> length g1 = nDim v ->
  exists (v' : CTurbSSTVariable) (divs : list float),
    SetBlendingFunc tanh val_viscosity val_dist val_density v
    = Some (v', divs) /\
    divs = [omega;
            beta_star v * omega * val_dist;
            val_density * val_dist * val_dist * omega;
            CDkw v' * val_dist * val_dist] /\
    Std64.nonzero omega /\
    Std64.nonzero (CDkw v') /\
    (CDkw v' <? Std64.pow_10_m20) = false.
Proof.
  intros Hom Nom Hk H0 H1 L0 L1.
  destruct (cross_loop_returns (Gradient v) g0 g1 (nDim v) 0 0 H0 H1
              ltac:(lia) ltac:(lia)) as [c0 Ec].
  unfold SetBlendingFunc, load, divide. rewrite Ec. cbn [bind].
  rewrite Hom. cbn [bind ret]. rewrite Hk. cbn [bind ret app].
  do 2 eexists. split; [reflexivity|]. cbn [CDkw].
  split; [reflexivity|]. split; [exact Nom|].
  split; [apply max_floor_nonzero | apply max_floor_not_below].
Qed.

Lemma SetBlendingFunc_floor_nonzero_witness :
  Std64.nonzero 2 /\
  (forall tanh : float -> float,
     exists (v' : CTurbSSTVariable) (divs : list float),
       SetBlendingFunc tanh 1 1 1 sst_example = Some (v', divs) /\
       divs = [2; 0.09 * 2 * 1; 1 * 1 * 1 * 2; CDkw v' * 1 * 1] /\
       Std64.nonzero 2 /\
       Std64.nonzero (CDkw v') /\
       (CDkw v' <? Std64.pow_10_m20) = false).
Proof.
  split; [reflexivity|]. intros tanh.
  apply (SetBlendingFunc_floor_nonzero tanh 1 1 1 sst_example 1 2
           [1; -2] [3; 4]); reflexivity.
Defined.

(** C2, as stated, fails in double precision.  With [Solution[1]], the wall
    distance, the density and [beta_star] all different from zero, the
    divisor [CDkw*val_dist*val_dist] is zero at the wall distance [1e-155]:
    [CDkw] has been clamped to the floor, the scalar product of the
    gradients being negative, and the product of the three nonzero doubles
    underflows to [0.0]. *)
Lemma SetBlendingFunc_divisor_underflows :
  let v := sst_example in
  let val_dist := 1e-155 in
  let val_density := 1 in
  Solution v !! 1%nat = Some 2 /\
  Std64.nonzero 2 /\ Std64.nonzero val_dist /\ Std64.nonzero val_density /\
  Std64.nonzero (beta_star v) /\
  (forall tanh : float -> float,
     exists (v' : CTurbSSTVariable) (divs : list float) (y : float),
       SetBlendingFunc tanh 1 val_dist val_density v = Some (v', divs) /\
       CDkw v' = Std64.pow_10_m20 /\
       divs !! 3%nat = Some y /\
       y = CDkw v' * val_dist * val_dist /\
       (y =? 0) = true).
Proof.
  repeat split.
  intros tanh. do 3 eexists.
  split; [reflexivity|].
  repeat split.
Qed.

(** The other two products underflow as well: with [Solution[1]] and the
    wall distance both [1e-200], the second and the third divisor are
    zero. *)
Lemma SetBlendingFunc_products_underflow :
  let v := {| sst_base :=
                {| turb_base :=
                     {| nDim := 2; nVar := 2;
                        Solution := [1; 1e-200]; Solution_Old := [1; 1e-200];
                        Gradient := [[1; -2]; [3; 4]];
                        Limiter := [0; 0]; Solution_Max := [0; 0];
                        Solution_Min := [0; 0] |};
                   muT := 0 |};
              sigma_om2 := 0.856; beta_star := 0.09;
              F1 := 1; F2 := 0; CDkw := 0 |} in
  Std64.nonzero 1e-200 /\ Std64.nonzero (beta_star v) /\
  (forall tanh : float -> float,
     exists (v' : CTurbSSTVariable) (y3 : float),
       SetBlendingFunc tanh 1 1e-200 1 v
       = Some (v', [1e-200; 0; 0; y3])).
Proof.
  repeat split. intros tanh. do 2 eexists. reflexivity.
Qed.

(** The quotient of that division is an infinity, and [std::min] then
    returns its other argument. *)
Lemma SetBlendingFunc_divisor_underflows_quotient :
  let num := 4 * 1 * sigma_om2 sst_example * 1 in
  num / (Std64.pow_10_m20 * 1e-155 * 1e-155) = infinity /\
  forall arg2 : float, (infinity <? arg2) = false.
Proof.
  split; [reflexivity|]. intros arg2.
  rewrite ltb_spec.
  assert (Hinf : Prim2SF infinity = S754_infinity false)
    by (vm_compute; reflexivity).
  rewrite Hinf. now destruct (Prim2SF arg2) as [s|s| |s m e]; try destruct s.
Qed.

End Turb64Facts.

(* ===================================================================== *)
(** * Properties of the decimal conversion *)
(* ===================================================================== *)

Module DecimalFacts.
Import Decimal.

Lemma digit_not_space c : is_digit c = true -> Stream.isspace c = false.
Proof.
  unfold is_digit, Stream.isspace. intros H.
  apply andb_prop in H as [H1 H2].
  apply Nat.leb_le in H1. apply Nat.leb_le in H2.
  apply orb_false_iff. split.
  - apply Nat.eqb_neq. lia.
  - apply andb_false_iff. right. apply Nat.leb_gt. lia.
Qed.

Lemma digits_app s : forall acc n rest,
  all_digits s = true ->
  digits (s +:+ String " " rest) acc n
  = (fst (fst (digits s acc n)), snd (fst (digits s acc n)), String " " rest).
Proof.
  induction s as [|c s IH]; intros acc n rest Hs; simpl in *.
  - reflexivity.
  - apply andb_prop in Hs as [Hc Hs]. rewrite Hc. now apply IH.
Qed.

Lemma digits_count s : forall acc n,
  all_digits s = true ->
  snd (fst (digits s acc n)) = (n + String.length s)%nat.
Proof.
  induction s as [|c s IH]; intros acc n Hs; simpl in *.
  - lia.
  - apply andb_prop in Hs as [Hc Hs]. rewrite Hc, IH by assumption. lia.
Qed.

Lemma sign_digit c s :
  is_digit c = true -> sign (String c s) = (false, String c s).
Proof.
  intros Hc. unfold sign.
  destruct c as [[] [] [] [] [] [] [] []]; try reflexivity; discriminate.
Qed.

Lemma num_get_digits c s rest :
  all_digits (String c s) = true ->
  num_get (String c (s +:+ String " " rest))
  = (Some (IZR (digits (String c s) 0 0).1.1), String " " rest).
Proof.
  intros Hs. pose proof Hs as Hcs. simpl in Hcs.
  apply andb_prop in Hcs as [Hc _].
  unfold num_get, scan. rewrite (sign_digit c _ Hc).
  change (String c (s +:+ String " " rest))
    with (String c s +:+ String " " rest).
  rewrite (digits_app (String c s) 0 0 rest Hs).
  pose proof (digits_count (String c s) 0 0 Hs) as Hn.
  destruct (digits (String c s) 0 0) as [[m n] r].
  simpl in Hn. subst n. simpl.
  unfold to_R. simpl. now rewrite Z.mul_1_r.
Qed.

(** A non-empty string of digits is read whole, to the integer it denotes. *)
Lemma digits_read_whole (s : string) :
  s <> "" -> all_digits s = true ->
  Stream.reads_whole num_get s (IZR (digits s 0 0).1.1).
Proof.
  intros Hne Hs b Hb.
  destruct s as [|c s]; [congruence|]. clear Hne.
  pose proof Hs as Hcs. simpl in Hcs. apply andb_prop in Hcs as [Hc _].
  assert (Eput : Stream.put " " (Stream.put (String c s) (Stream.init b))
                 = Stream.init (b +:+ String c (s +:+ " "))).
  { destruct Hb as [-> | ->]; reflexivity. }
  rewrite Eput. unfold Stream.get_double.
  assert (Eskip : Stream.skipws (b +:+ String c (s +:+ " "))
                  = String c (s +:+ " ")).
  { destruct Hb as [-> | ->]; simpl; now rewrite (digit_not_space c Hc). }
  simpl Stream.good. cbn iota. simpl Stream.buffer. rewrite Eskip.
  rewrite (num_get_digits c s "" Hs). reflexivity.
Qed.

End DecimalFacts.

(* ===================================================================== *)
(** * Properties of the configuration options *)
(* ===================================================================== *)

Module OptionFacts.

(** ** Messages *)

Lemma append_nonempty_r (s t : string) : t <> "" -> s +:+ t <> "".
Proof. intros Ht. destruct s; simpl; [exact Ht | discriminate]. Qed.

Lemma badValue_nonempty option_value type_id option_name :
  COptionBase.badValue option_value type_id option_name <> "".
Proof. unfold COptionBase.badValue. apply append_nonempty_r. discriminate. Qed.

Lemma optionCheckMultipleValues_spec option_value type_id option_name :
  (length option_value = 1%nat /\
   COptionBase.optionCheckMultipleValues option_value type_id option_name = "")
  \/
  (length option_value <> 1%nat /\
   COptionBase.optionCheckMultipleValues option_value type_id option_name <> "").
Proof.
  unfold COptionBase.optionCheckMultipleValues.
  case_decide as Hlen.
  - right. split; [exact Hlen|]. apply append_nonempty_r. discriminate.
  - left. split; [lia | reflexivity].
Qed.

(** ** [COptionDouble] *)

(** C5, as stated, fails on the empty list: [SetValue] returns a message and
    leaves the field alone, although the list has neither more than one
    element nor a single element that does not convert. *)
Lemma COptionDouble_SetValue_empty_list :
  let this := {| COptionDouble.field := 1; COptionDouble.def := 0;
                 COptionDouble.name := "MACH_NUMBER" |} in
  exists msg this',
    COptionDouble.SetValue Decimal.num_get [] this = Some (msg, this') /\
    (msg <> "" /\ COptionDouble.field this' = COptionDouble.field this) /\
    ~ ((1 < length ([] : list string))%nat \/
       exists tok, [] = [tok] /\ ~ COptionDouble.converts Decimal.num_get tok).
Proof.
  intros this. exists "MACH_NUMBER: multiple values for type double", this.
  split; [reflexivity|]. split; [split; [discriminate | reflexivity]|].
  intros [Hlen | (tok & Heq & _)]; [simpl in Hlen; lia | discriminate].
Qed.

(** C5, amended: [SetValue] returns a non-empty message and leaves the
    field unchanged exactly when the list does not have exactly one element
    or its single element does not convert; otherwise it stores the
    converted value in the field and returns the empty string.  The default
    and the name never change. *)
Theorem COptionDouble_SetValue_spec
    (num_get : string -> option R * string)
    (option_value : list string) (this : COptionDouble.t) :
  exists msg this',
    COptionDouble.SetValue num_get option_value this = Some (msg, this') /\
    ((msg <> "" /\ COptionDouble.field this' = COptionDouble.field this) <->
     (length option_value <> 1%nat \/
      exists tok,
        option_value = [tok] /\ ~ COptionDouble.converts num_get tok)) /\
    (forall tok, option_value = [tok] -> COptionDouble.converts num_get tok ->
       msg = "" /\
       (Stream.get_double num_get (Stream.init tok)).1
       = Some (COptionDouble.field this')) /\
    COptionDouble.def this' = COptionDouble.def this /\
    COptionDouble.name this' = COptionDouble.name this.
Proof.
  unfold COptionDouble.SetValue.
  destruct (optionCheckMultipleValues_spec option_value "double"
              (COptionDouble.name this)) as [[Hlen Hout] | [Hlen Hout]].
  - rewrite Hout. rewrite decide_False by (intros H; now apply H).
    destruct option_value as [|tok [|? ?]]; try discriminate. simpl.
    unfold COptionDouble.converts.
    destruct (Stream.get_double num_get (Stream.init tok)) as [[val|] is']
      eqn:Eget.
    + do 2 eexists. split; [reflexivity|]. simpl.
      split; [split|split; [|split; reflexivity]].
      * intros [Hmsg _]. now contradict Hmsg.
      * intros [Hne | (tok' & [= <-] & Hconv)]; [now contradict Hne|].
        contradict Hconv. rewrite Eget. discriminate.
      * intros tok' [= <-] _. rewrite Eget. now split.
    + do 2 eexists. split; [reflexivity|]. simpl.
      split; [split|split; [|split; reflexivity]].
      * intros _. right. exists tok. split; [reflexivity|].
        rewrite Eget. simpl. tauto.
      * intros _. split; [apply badValue_nonempty | reflexivity].
      * intros tok' [= <-] Hconv. contradict Hconv. now rewrite Eget.
  - rewrite decide_True by exact Hout.
    do 2 eexists. split; [reflexivity|].
    split; [split|split; [|split; reflexivity]].
    + intros _. now left.
    + intros _. now split.
    + intros tok ->. now contradict Hlen.
Qed.

(** ** The token [NONE] *)

(** C10: on the one-element list [NONE], [COptionPeriodic::SetValue]
    returns the empty string with [size = 0] and the five arrays [NULL],
    and [CMarkerOptionRef::SetValue] returns with the marker count [0];
    on the empty list [CMarkerOptionRef::SetValue] writes its two lines of
    diagnostic to the error stream and throws, leaving what it refers to
    as it was. *)
Theorem NONE_means_no_markers :
  (forall num_get garbage (this : COptionPeriodic.t),
     exists this',
       COptionPeriodic.SetValue num_get garbage ["NONE"] this
       = Some ("", this') /\
       COptionPeriodic.size this' = 0%Z /\
       COptionPeriodic.marker_bound this' = None /\
       COptionPeriodic.marker_donor this' = None /\
       COptionPeriodic.rot_center this' = None /\
       COptionPeriodic.rot_angles this' = None /\
       COptionPeriodic.translation this' = None) /\
  (forall this : CMarkerOptionRef.t,
     exists this',
       CMarkerOptionRef.SetValue ["NONE"] this = Std.Returns this' /\
       CMarkerOptionRef.num_marker_ this' = 0%Z /\
       CMarkerOptionRef.cerr this' = CMarkerOptionRef.cerr this) /\
  (forall this : CMarkerOptionRef.t,
     exists this' diagnostic,
       CMarkerOptionRef.SetValue [] this = Std.Throws (-1) this' /\
       diagnostic <> "" /\
       CMarkerOptionRef.cerr this'
       = CMarkerOptionRef.cerr this +:+ diagnostic /\
       CMarkerOptionRef.marker_ref_ this'
       = CMarkerOptionRef.marker_ref_ this /\
       CMarkerOptionRef.num_marker_ this'
       = CMarkerOptionRef.num_marker_ this).
Proof.
  split; [|split].
  - intros num_get garbage this. eexists. split; [reflexivity|].
    simpl. repeat split.
  - intros this. eexists. split; [reflexivity|]. simpl. now split.
  - intros this. do 2 eexists. split; [reflexivity|]. simpl.
    split; [|split; [reflexivity | now split]]. discriminate.
Qed.

(** ** Entry counts that are not a multiple of 11 *)

Lemma to_int_small (n : nat) :
  (Z.of_nat n < 2 ^ 31)%Z -> Std.to_int (Z.of_nat n) = Z.of_nat n.
Proof.
  intros Hn. unfold Std.to_int.
  rewrite Z.mod_small by lia. lia.
Qed.

Lemma rem_11_nonzero (n : nat) :
  (Z.of_nat n < 2 ^ 31)%Z -> (n mod 11 <> 0)%nat ->
  Z.rem (Std.to_int (Z.of_nat n)) 11 <> 0%Z.
Proof.
  intros Hn Hmod. rewrite to_int_small by exact Hn.
  rewrite Z.rem_mod_nonneg by lia.
  change 11%Z with (Z.of_nat 11). rewrite <- Nat2Z.inj_mod. lia.
Qed.

(** [CMarkerPeriodicRef::SetValue] looks at the first token only: any list
    that starts with [NONE] and whose count is not a multiple of 11 sets
    the marker count to [0]. *)
Lemma CMarkerPeriodicRef_NONE_first
    (num_get : string -> option R * string) (garbage : nat -> R)
    (value : list string) (ref : CMarkerPeriodicRef.t) :
  (length value mod 11 <> 0)%nat ->
  (Z.of_nat (length value) < 2 ^ 31)%Z ->
  value !! 0%nat = Some "NONE" -> CMarkerPeriodicRef.unallocated ref ->
  CMarkerPeriodicRef.SetValue num_get garbage value ref
  = Std.Returns (CMarkerPeriodicRef.set_nMarker 0 ref).
Proof.
  intros Hmod Hlen Hfirst (H1 & H2 & H3 & H4 & H5).
  unfold CMarkerPeriodicRef.SetValue.
  rewrite H1, H2, H3, H4, H5. simpl.
  rewrite decide_True by now apply rem_11_nonzero.
  rewrite Hfirst. now rewrite decide_True.
Qed.

(** C7: [CMarkerPeriodicRef::SetValue] at the failing input, a list of two
    tokens that starts with [NONE].  The count is not a multiple of 11 and
    the list is not the single token [NONE], yet the call returns with the
    marker count [0], nothing is thrown and nothing is printed: the guard
    inside the branch of the wrong count compares [value[0]] with [NONE]
    and does not look at the number of tokens. *)
Lemma CMarkerPeriodicRef_accepts_NONE_prefix :
  let value := ["NONE"; "wall"] in
  (length value mod 11 <> 0)%nat /\ value <> ["NONE"] /\
  CMarkerPeriodicRef.SetValue Decimal.num_get (fun _ => 0) value
                              CMarkerPeriodicRef.fresh_periodic_ref
  = Std.Returns
      (CMarkerPeriodicRef.set_nMarker 0 CMarkerPeriodicRef.fresh_periodic_ref)
  /\
  CMarkerPeriodicRef.cerr
    (CMarkerPeriodicRef.set_nMarker 0 CMarkerPeriodicRef.fresh_periodic_ref)
  = "".
Proof. repeat split; try discriminate; reflexivity. Qed.

(** The sibling paths read [NONE] as the absence of markers only when it is
    the single token.  On the same list [COptionPeriodic::SetValue] returns
    its diagnostic on the number of entries, and
    [CMarkerOptionRef::SetValue] takes [NONE] for the name of a marker. *)
Lemma siblings_on_NONE_prefix (opt : COptionPeriodic.t)
    (m : CMarkerOptionRef.t) :
  COptionPeriodic.SetValue Decimal.num_get (fun _ => 0) ["NONE"; "wall"] opt
  = Some (COptionPeriodic.name opt
          +:+ ": must have a number of entries divisible by 11",
          COptionPeriodic.reset opt) /\
  CMarkerOptionRef.SetValue ["NONE"; "wall"] m
  = Std.Returns {| CMarkerOptionRef.marker_ref_ := Some ["NONE"; "wall"];
                   CMarkerOptionRef.num_marker_ := 2;
                   CMarkerOptionRef.cerr := CMarkerOptionRef.cerr m |}.
Proof. split; reflexivity. Qed.

(** What the two classes do on every other list of a wrong count: for a
    list of fewer than [2^31] entries whose count is not a multiple of 11,
    - [COptionPeriodic::SetValue], unless the list is the single token
      [NONE], sets [size = 0] and the five arrays to [NULL] and returns the
      option name followed by
      [": must have a number of entries divisible by 11"];
    - [CMarkerPeriodicRef::SetValue] prints a diagnostic and throws when
      the first token is not [NONE]. *)
Theorem periodic_count_not_multiple_of_11
    (num_get : string -> option R * string) (garbage : nat -> R)
    (value : list string)
    (opt : COptionPeriodic.t) (ref : CMarkerPeriodicRef.t) :
  (length value mod 11 <> 0)%nat ->
  (Z.of_nat (length value) < 2 ^ 31)%Z ->
  (value <> ["NONE"] ->
   COptionPeriodic.SetValue num_get garbage value opt
   = Some (COptionPeriodic.name opt
           +:+ ": must have a number of entries divisible by 11",
           COptionPeriodic.reset opt) /\
   COptionPeriodic.size (COptionPeriodic.reset opt) = 0%Z /\
   COptionPeriodic.marker_bound (COptionPeriodic.reset opt) = None /\
   COptionPeriodic.marker_donor (COptionPeriodic.reset opt) = None /\
   COptionPeriodic.rot_center (COptionPeriodic.reset opt) = None /\
   COptionPeriodic.rot_angles (COptionPeriodic.reset opt) = None /\
   COptionPeriodic.translation (COptionPeriodic.reset opt) = None) /\
  (value !! 0%nat <> Some "NONE" ->
   exists diagnostic,
     diagnostic <> "" /\
     CMarkerPeriodicRef.SetValue num_get garbage value ref
     = Std.Throws (-1) (CMarkerPeriodicRef.print diagnostic ref)).
Proof.
  intros Hmod Hlen. split.
  - intros Hnone. split; [|repeat split].
    unfold COptionPeriodic.SetValue.
    rewrite decide_False.
    + now rewrite decide_True.
    + intros [H1 H0]. apply Hnone.
      destruct value as [|tok [|? ?]]; try discriminate.
      simpl in H0. congruence.
  - intros Hfirst. unfold CMarkerPeriodicRef.SetValue.
    destruct (negb _ || _ || _ || _ || _).
    + eexists. split; [|reflexivity]. discriminate.
    + rewrite decide_True by now apply rem_11_nonzero.
      destruct (value !! 0%nat) as [first|] eqn:E0.
      * rewrite decide_False by congruence.
        eexists. split; [|reflexivity]. discriminate.
      * destruct value; [simpl in Hmod; lia | discriminate].
Qed.

Lemma periodic_count_not_multiple_of_11_witness :
  let value := ["inlet"; "outlet"; "0.0"] in
  let opt := {| COptionPeriodic.name := "MARKER_PERIODIC";
                COptionPeriodic.size := 4;
                COptionPeriodic.marker_bound := Some ["a"];
                COptionPeriodic.marker_donor := None;
                COptionPeriodic.rot_center := None;
                COptionPeriodic.rot_angles := None;
                COptionPeriodic.translation := None |} in
  (value <> ["NONE"] ->
   COptionPeriodic.SetValue Decimal.num_get (fun _ => 0) value opt
   = Some ("MARKER_PERIODIC"
           +:+ ": must have a number of entries divisible by 11",
           COptionPeriodic.reset opt) /\
   COptionPeriodic.size (COptionPeriodic.reset opt) = 0%Z /\
   COptionPeriodic.marker_bound (COptionPeriodic.reset opt) = None /\
   COptionPeriodic.marker_donor (COptionPeriodic.reset opt) = None /\
   COptionPeriodic.rot_center (COptionPeriodic.reset opt) = None /\
   COptionPeriodic.rot_angles (COptionPeriodic.reset opt) = None /\
   COptionPeriodic.translation (COptionPeriodic.reset opt) = None) /\
  (value !! 0%nat <> Some "NONE" ->
   exists diagnostic,
     diagnostic <> "" /\
     CMarkerPeriodicRef.SetValue Decimal.num_get (fun _ => 0) value
                                 CMarkerPeriodicRef.fresh_periodic_ref
     = Std.Throws (-1)
         (CMarkerPeriodicRef.print diagnostic
            CMarkerPeriodicRef.fresh_periodic_ref)).
Proof.
  intros value opt.
  apply (periodic_count_not_multiple_of_11 Decimal.num_get (fun _ => 0)
           value opt CMarkerPeriodicRef.fresh_periodic_ref).
  - simpl. lia.
  - simpl. lia.
Defined.

(** ** Design-variable parameters before their kinds *)

(** C6, as stated, fails on the one-token value [1.0] given before any
    [DV_KIND]: the call throws without allocating [ParamDV], but the state
    it leaves is not the one it found, since [*nDV_] went from 0 to 1. *)
Lemma CDVParamOptionRef_error_path_changes_nDV :
  let value := ["1.0"] in
  let this := CDVParamOptionRef.no_design_variables in
  exists this',
    CDVParamOptionRef.count_nDV value = Some 1%Z /\
    CDVParamOptionRef.SetValue Decimal.num_get (fun _ => 0) value this
    = Std.Throws (-1) this' /\
    CDVParamOptionRef.ParamDV_ this' = None /\
    CDVParamOptionRef.nDV_ this' <> CDVParamOptionRef.nDV_ this.
Proof.
  eexists. split; [reflexivity|]. split; [reflexivity|]. simpl.
  split; [reflexivity | discriminate].
Qed.

(** C6, amended: when the count derived from the semicolons is positive
    and [Design_Variable] is [NULL], [SetValue] writes its two lines of
    diagnostic to the error stream and throws before it allocates
    anything: [ParamDV] and [Design_Variable] are as they were, and [*nDV_]
    holds the count. *)
Theorem CDVParamOptionRef_unallocated_kinds
    (num_get : string -> option R * string) (garbage : nat -> R)
    (value : list string) (this : CDVParamOptionRef.t) (nDV : Z) :
  CDVParamOptionRef.count_nDV value = Some nDV ->
  (0 < nDV)%Z ->
  CDVParamOptionRef.Design_Variable_ this = None ->
  exists this' diagnostic,
    CDVParamOptionRef.SetValue num_get garbage value this
    = Std.Throws (-1) this' /\
    diagnostic <> "" /\
    CDVParamOptionRef.cerr this'
    = CDVParamOptionRef.cerr this +:+ diagnostic /\
    CDVParamOptionRef.ParamDV_ this' = CDVParamOptionRef.ParamDV_ this /\
    CDVParamOptionRef.Design_Variable_ this'
    = CDVParamOptionRef.Design_Variable_ this /\
    CDVParamOptionRef.nDV_ this' = nDV.
Proof.
  intros Hcount Hpos Hnull. unfold CDVParamOptionRef.SetValue.
  rewrite Hcount, Hnull. rewrite bool_decide_eq_true_2 by exact Hpos. simpl.
  do 2 eexists. split; [reflexivity|]. simpl.
  split; [|repeat split]. discriminate.
Qed.

Lemma CDVParamOptionRef_unallocated_kinds_witness :
  exists this' diagnostic,
    CDVParamOptionRef.SetValue Decimal.num_get (fun _ => 0)
      ["1.0"; "0.5"; ";"; "2.0"; "0.25"] CDVParamOptionRef.no_design_variables
    = Std.Throws (-1) this' /\
    diagnostic <> "" /\
    CDVParamOptionRef.cerr this'
    = CDVParamOptionRef.cerr CDVParamOptionRef.no_design_variables
      +:+ diagnostic /\
    CDVParamOptionRef.ParamDV_ this'
    = CDVParamOptionRef.ParamDV_ CDVParamOptionRef.no_design_variables /\
    CDVParamOptionRef.Design_Variable_ this'
    = CDVParamOptionRef.Design_Variable_
        CDVParamOptionRef.no_design_variables /\
    CDVParamOptionRef.nDV_ this' = 2%Z.
Proof.
  apply (CDVParamOptionRef_unallocated_kinds Decimal.num_get (fun _ => 0)
           ["1.0"; "0.5"; ";"; "2.0"; "0.25"]
           CDVParamOptionRef.no_design_variables 2).
  - reflexivity.
  - lia.
  - reflexivity.
Defined.

End OptionFacts.

(* ===================================================================== *)
(** * Periodic markers and their mirror entries *)
(* ===================================================================== *)

Module PeriodicFacts.
Import COptionPeriodic Periodic.

(** ** The transform and its mirror *)

(** A translation, or a rotation about one axis, is undone by the entry
    with the opposite angles and the opposite translation. *)
Lemma transform_round_trip (c a t : list R) (v : vec) :
  length c = 3%nat ->
  translation_or_axis_rotation a t ->
  transform c a t v ≫= transform c (Ropp <$> a) (Ropp <$> t) = Some v.
Proof.
  intros Hc Hcond.
  destruct c as [|cx [|cy [|cz [|? ?]]]]; try discriminate.
  destruct v as [[x y] z].
  destruct Hcond as [[-> Ht] | [[theta Hax] ->]].
  - destruct t as [|tx [|ty [|tz [|? ?]]]]; try discriminate.
    simpl. rewrite Ropp_0, cos_0, sin_0. do 3 f_equal; ring.
  - pose proof (sin2_cos2 theta) as H. unfold Rsqr in H.
    destruct Hax as [-> | [-> | ->]]; simpl;
      rewrite ?Ropp_0, ?cos_0, ?sin_0, ?cos_neg, ?sin_neg;
      generalize dependent (cos theta); generalize dependent (sin theta);
      intros s c H; do 3 f_equal; nsatz.
Qed.

Lemma deg2rad_90 : 90 * deg2rad = PI / 2.
Proof. unfold deg2rad, PI_NUMBER. rewrite atan_1. field. Qed.

(** ** One statement at a time *)

Lemma ready_write n i e a : ready n a -> rows3 e -> ready n (write i e a).
Proof.
  intros (_ & LB & LD & LC & LA & LT & FC & FA & FT) (RC & RA & RT).
  unfold ready, write; simpl. rewrite !length_insert.
  repeat split; auto using Forall_insert.
  exists " ". split; [reflexivity | now right].
Qed.

Ltac flow_simpl :=
  cbn [andthen upd with_ss with_bound with_donor sel
       ss bound donor center angles trans].

Section Parsing.

Variable num_get : string -> option R * string.
Variable value : list string.
Variable name : string.

Lemma extract_next idx m i j a tok x b row base :
  value !! idx = Some tok -> Stream.reads_whole num_get tok x ->
  ss a = Stream.init b -> blank b ->
  sel m a = <[i := row]> base -> (i < length base)%nat ->
  (j < length row)%nat ->
  extract num_get value name idx m i j a
  = Next (upd m (<[i := <[j := x]> row]> base) (with_ss (Stream.init " ") a)).
Proof.
  intros Htok Hread Hss Hb Hsel Hi Hj. unfold extract.
  rewrite Htok, Hss, (Hread b Hb). unfold store2.
  rewrite Hsel, list_lookup_insert_eq by lia. simpl.
  rewrite decide_True by lia. now rewrite list_insert_insert_eq.
Qed.

Lemma scale_next m i j factor a x row base :
  sel m a = <[i := row]> base -> (i < length base)%nat ->
  row !! j = Some x ->
  scale m i j factor a
  = Next (upd m (<[i := <[j := x * factor]> row]> base) a).
Proof.
  intros Hsel Hi Hx. unfold scale, peek2, store2.
  rewrite Hsel, list_lookup_insert_eq by lia. simpl. rewrite Hx.
  rewrite decide_True by (now apply lookup_lt_Some in Hx).
  now rewrite list_insert_insert_eq.
Qed.

Lemma assign_bound_next i idx a tok :
  value !! idx = Some tok -> (i < length (bound a))%nat ->
  assign_bound value i idx a = Next (with_bound (<[i := tok]> (bound a)) a).
Proof.
  intros Htok Hi. unfold assign_bound, store_string.
  now rewrite Htok, decide_True.
Qed.

Lemma assign_donor_next i idx a tok :
  value !! idx = Some tok -> (i < length (donor a))%nat ->
  assign_donor value i idx a = Next (with_donor (<[i := tok]> (donor a)) a).
Proof.
  intros Htok Hi. unfold assign_donor, store_string.
  now rewrite Htok, decide_True.
Qed.

Lemma row3 (l : list (list R)) i :
  Forall len3 l -> (i < length l)%nat ->
  exists r0 r1 r2, l = <[i := [r0; r1; r2]]> l.
Proof.
  intros Hall Hi.
  destruct (lookup_lt_is_Some_2 l i Hi) as [row Hrow].
  pose proof (proj1 (Forall_lookup _ _) Hall _ _ Hrow) as Hlen.
  destruct row as [|r0 [|r1 [|r2 [|? ?]]]]; try discriminate.
  exists r0, r1, r2. symmetry. now apply list_insert_id.
Qed.

Ltac extract_step :=
  erewrite extract_next;
  [ flow_simpl
  | eassumption
  | eassumption
  | reflexivity
  | first [eassumption | right; reflexivity]
  | reflexivity
  | rewrite ?length_insert; lia
  | simpl; lia ].

Ltac scale_step :=
  erewrite scale_next;
  [ flow_simpl
  | reflexivity
  | rewrite ?length_insert; lia
  | reflexivity ].

Ltac numerals_of H :=
  destruct (H 2%nat ltac:(lia)) as (? & ? & ?);
  destruct (H 3%nat ltac:(lia)) as (? & ? & ?);
  destruct (H 4%nat ltac:(lia)) as (? & ? & ?);
  destruct (H 5%nat ltac:(lia)) as (? & ? & ?);
  destruct (H 6%nat ltac:(lia)) as (? & ? & ?);
  destruct (H 7%nat ltac:(lia)) as (? & ? & ?);
  destruct (H 8%nat ltac:(lia)) as (? & ? & ?);
  destruct (H 9%nat ltac:(lia)) as (? & ? & ?);
  destruct (H 10%nat ltac:(lia)) as (? & ? & ?).

(** One pass of the first loop. *)
Lemma direct_ok n i a tb td (x : nat -> R) :
  ready n a -> (i < n)%nat ->
  (Z.of_nat (11 * i + 10) <= Std.INT_MAX)%Z ->
  value !! (11 * i)%nat = Some tb ->
  value !! (11 * i + 1)%nat = Some td ->
  numerals num_get value i x ->
  direct num_get value name i a = Next (write i (direct_entry tb td x) a).
Proof.
  intros ((b & Hss & Hb) & LB & LD & LC & LA & LT & FC & FA & FT)
         Hi Hint Htb Htd Hnum.
  destruct a as [s B D C A T]; simpl in *. subst s.
  destruct (row3 C i FC ltac:(lia)) as (c0 & c1 & c2 & EC).
  destruct (row3 A i FA ltac:(lia)) as (a0 & a1 & a2 & EA).
  destruct (row3 T i FT ltac:(lia)) as (t0 & t1 & t2 & ET).
  numerals_of Hnum.
  unfold direct, write. change mod_num with 11%nat.
  rewrite decide_False by lia.
  rewrite (assign_bound_next _ _ _ tb) by (simpl; first [assumption | lia]).
  flow_simpl.
  rewrite (assign_donor_next _ _ _ td) by (simpl; first [assumption | lia]).
  flow_simpl.
  rewrite EC, EA, ET.
  do 9 extract_step.
  do 3 scale_step.
  simpl. rewrite <- EC, <- EA, <- ET. reflexivity.
Qed.

(** One pass of the second loop, on the mirror of entry [e]. *)
Lemma mirror_ok n half e a tb td (x : nat -> R) :
  ready n a -> (half + e < n)%nat ->
  value !! (11 * e)%nat = Some tb ->
  value !! (11 * e + 1)%nat = Some td ->
  numerals num_get value e x ->
  mirror num_get value name half (half + e) a
  = Next (write (half + e) (mirror_entry tb td x) a).
Proof.
  intros ((b & Hss & Hb) & LB & LD & LC & LA & LT & FC & FA & FT)
         Hi Htb Htd Hnum.
  destruct a as [s B D C A T]; simpl in *. subst s.
  destruct (row3 C (half + e) FC ltac:(lia)) as (c0 & c1 & c2 & EC).
  destruct (row3 A (half + e) FA ltac:(lia)) as (a0 & a1 & a2 & EA).
  destruct (row3 T (half + e) FT ltac:(lia)) as (t0 & t1 & t2 & ET).
  numerals_of Hnum.
  unfold mirror, write. change mod_num with 11%nat.
  replace (half + e - half)%nat with e by lia.
  rewrite (assign_bound_next _ _ _ td) by (simpl; first [assumption | lia]).
  flow_simpl.
  rewrite (assign_donor_next _ _ _ tb) by (simpl; first [assumption | lia]).
  flow_simpl.
  rewrite EC, EA, ET.
  do 9 extract_step.
  do 9 scale_step.
  simpl. rewrite <- EC, <- EA, <- ET. reflexivity.
Qed.

End Parsing.

(** ** The loops *)

Lemma ready_writes len E n : forall i0 a,
  (forall i, rows3 (E i)) -> ready len a -> ready len (writes E i0 n a).
Proof.
  unfold writes. induction n as [|n IH]; intros i0 a HE Ha; simpl.
  - exact Ha.
  - apply IH; auto using ready_write.
Qed.

Lemma loop_writes (body : nat -> arrays -> flow) (E : nat -> entry) len n :
  forall i0 a,
    (forall i a', (i0 <= i < i0 + n)%nat -> ready len a' ->
                  body i a' = Next (write i (E i) a')) ->
    (forall i, rows3 (E i)) -> ready len a ->
    loop body n i0 a = Next (writes E i0 n a).
Proof.
  unfold writes. induction n as [|n IH]; intros i0 a Hbody HE Ha; simpl.
  - reflexivity.
  - rewrite Hbody by (auto; lia). simpl.
    apply IH; auto using ready_write.
    intros i a' Hi Ha'. apply Hbody; [lia | exact Ha'].
Qed.

Section Lookup.

Context {X : Type} (proj : arrays -> list X) (pe : entry -> X).
Hypothesis proj_write :
  forall i e a, proj (write i e a) = <[i := pe e]> (proj a).

Lemma writes_length E n : forall i0 a,
  length (proj (writes E i0 n a)) = length (proj a).
Proof.
  unfold writes. induction n as [|n IH]; intros i0 a; simpl.
  - reflexivity.
  - rewrite IH, proj_write. apply length_insert.
Qed.

Lemma writes_lookup_in E n i0 a i :
  (i0 <= i < i0 + n)%nat -> (i < length (proj a))%nat ->
  proj (writes E i0 n a) !! i = Some (pe (E i)).
Proof.
  revert i0 a. induction n as [|n IH]; intros i0 a Hi Hlen; [lia|].
  unfold writes. rewrite seq_S, foldl_snoc. fold (writes E i0 n a).
  rewrite proj_write.
  destruct (decide (i = i0 + n)%nat) as [-> | Hne].
  - apply list_lookup_insert_eq. now rewrite writes_length.
  - rewrite list_lookup_insert_ne by lia. apply IH; [lia | exact Hlen].
Qed.

Lemma writes_lookup_out E n i0 a i :
  ~ (i0 <= i < i0 + n)%nat ->
  proj (writes E i0 n a) !! i = proj a !! i.
Proof.
  revert i0 a. induction n as [|n IH]; intros i0 a Hi; [reflexivity|].
  unfold writes. rewrite seq_S, foldl_snoc. fold (writes E i0 n a).
  rewrite proj_write, list_lookup_insert_ne by lia. apply IH. lia.
Qed.

End Lookup.

Lemma ready_allocate garbage n : ready n (allocate garbage n).
Proof.
  unfold ready, allocate; simpl. rewrite !length_replicate.
  repeat split; try (apply Forall_replicate; reflexivity).
  exists "". split; [reflexivity | now left].
Qed.

(** ** [SetValue] on well-formed numerals *)

Lemma SetValue_eval num_get garbage (value : list string) (this : t)
    (k : nat) (x : nat -> nat -> R) (nb nd : nat -> string) :
  length value = (11 * k)%nat ->
  (Z.of_nat (11 * k) <= 2 ^ 31)%Z ->
  (forall i, (i < k)%nat ->
     value !! (11 * i)%nat = Some (nb i) /\
     value !! (11 * i + 1)%nat = Some (nd i) /\
     numerals num_get value i (x i)) ->
  SetValue num_get garbage value this
  = Some ("",
          pack (2 * k)
            (writes (fun i => mirror_entry (nb (i - k)%nat) (nd (i - k)%nat)
                                           (x (i - k)%nat)) k k
               (writes (fun i => direct_entry (nb i) (nd i) (x i)) 0 k
                  (allocate garbage (2 * k))))
            this).
Proof.
  intros Hlen Hint Htok. unfold SetValue. rewrite Hlen. unfold mod_num.
  rewrite decide_False by lia.
  rewrite (Nat.mul_comm 11 k), Nat.Div0.mod_mul.
  rewrite decide_False by (intros H; now apply H).
  rewrite Nat.div_mul by lia.
  rewrite decide_False by (unfold Std.INT_MAX; lia).
  replace (2 * k / 2)%nat with k by (rewrite Nat.mul_comm, Nat.div_mul; lia).
  replace (2 * k - k)%nat with k by lia.
  rewrite (loop_writes _ (fun i => direct_entry (nb i) (nd i) (x i))
             (2 * k)).
  - simpl andthen.
    rewrite (loop_writes _ (fun i => mirror_entry (nb (i - k)%nat)
                                                  (nd (i - k)%nat)
                                                  (x (i - k)%nat))
               (2 * k)).
    + reflexivity.
    + intros i a' Hi Ha'.
      destruct (Htok (i - k)%nat ltac:(lia)) as (Hb & Hd & Hnum).
      replace i with (k + (i - k))%nat at 1 2 by lia.
      apply (mirror_ok _ _ _ (2 * k)); auto; lia.
    + intros i. now repeat split.
    + apply ready_writes; [|apply ready_allocate].
      intros i. now repeat split.
  - intros i a' Hi Ha'.
    destruct (Htok i ltac:(lia)) as (Hb & Hd & Hnum).
    apply (direct_ok _ _ _ (2 * k)); auto; unfold Std.INT_MAX; lia.
  - intros i. now repeat split.
  - apply ready_allocate.
Qed.

Lemma mirror_entry_opposite tb td (x : nat -> R) :
  e_center (mirror_entry tb td x) = e_center (direct_entry tb td x) /\
  e_angles (mirror_entry tb td x) = Ropp <$> e_angles (direct_entry tb td x) /\
  e_trans (mirror_entry tb td x) = Ropp <$> e_trans (direct_entry tb td x).
Proof. simpl. repeat split; repeat f_equal; ring. Qed.

(** Numerals written with digits only are read whole by the decimal
    conversion. *)
Lemma numerals_of_digits (value : list string) (e : nat) :
  (forall j, (2 <= j < 11)%nat ->
     exists tok, value !! (11 * e + j)%nat = Some tok /\
                 tok <> "" /\ Decimal.all_digits tok = true) ->
  numerals Decimal.num_get value e
    (fun j => IZR (Decimal.digits
                     (default "" (value !! (11 * e + j)%nat)) 0 0).1.1).
Proof.
  intros H j Hj. destruct (H j Hj) as (tok & Htok & Hne & Hdig).
  exists tok. split; [exact Htok|]. rewrite Htok. simpl default.
  now apply DecimalFacts.digits_read_whole.
Qed.

(** C4, amended: on a list of [11*k] tokens (at most [2^31], the range of
    the [int] indices) in which every numeral is read whole by one
    extraction, [SetValue] returns the empty string and leaves five arrays
    of [2*k] entries, the 16-bit [size] holding [2*k] modulo [2^16].  For
    every [i < k], entry [i] holds the two names, the centre, the angles
    converted to radians and the translation of the [i]-th group of
    tokens, and entry [k+i] holds the two names swapped, the same centre,
    the opposite angles and the opposite translation.  The transform of
    entry [i] followed by the transform of entry [k+i] returns every vector
    to its original value when entry [i] is a pure translation or a
    rotation about one coordinate axis without translation. *)
Theorem COptionPeriodic_mirror_entries
    (num_get : string -> option R * string) (garbage : nat -> R)
    (value : list string) (this : t) (k : nat) (x : nat -> nat -> R) :
  length value = (11 * k)%nat ->
  (Z.of_nat (11 * k) <= 2 ^ 31)%Z ->
  (forall i, (i < k)%nat -> numerals num_get value i (x i)) ->
  exists this' bounds donors centers rotations translations,
    SetValue num_get garbage value this = Some ("", this') /\
    size this' = Std.ushort (Z.of_nat (2 * k)) /\
    marker_bound this' = Some bounds /\
    marker_donor this' = Some donors /\
    rot_center this' = Some centers /\
    rot_angles this' = Some rotations /\
    translation this' = Some translations /\
    length bounds = (2 * k)%nat /\ length donors = (2 * k)%nat /\
    length centers = (2 * k)%nat /\ length rotations = (2 * k)%nat /\
    length translations = (2 * k)%nat /\
    forall i, (i < k)%nat ->
      exists b d c a t,
        value !! (11 * i)%nat = Some b /\
        value !! (11 * i + 1)%nat = Some d /\
        c = [x i 2; x i 3; x i 4]%nat /\
        a = [x i 5%nat * deg2rad; x i 6%nat * deg2rad;
             x i 7%nat * deg2rad] /\
        t = [x i 8; x i 9; x i 10]%nat /\
        bounds !! i = Some b /\ donors !! i = Some d /\
        centers !! i = Some c /\ rotations !! i = Some a /\
        translations !! i = Some t /\
        bounds !! (k + i)%nat = Some d /\ donors !! (k + i)%nat = Some b /\
        centers !! (k + i)%nat = Some c /\
        rotations !! (k + i)%nat = Some (Ropp <$> a) /\
        translations !! (k + i)%nat = Some (Ropp <$> t) /\
        (translation_or_axis_rotation a t ->
         forall v : vec,
           transform c a t v ≫= transform c (Ropp <$> a) (Ropp <$> t)
           = Some v).
Proof.
  intros Hlen Hint Hnum.
  set (nb := fun i => default "" (value !! (11 * i)%nat)).
  set (nd := fun i => default "" (value !! (11 * i + 1)%nat)).
  assert (Htok : forall i, (i < k)%nat ->
            value !! (11 * i)%nat = Some (nb i) /\
            value !! (11 * i + 1)%nat = Some (nd i) /\
            numerals num_get value i (x i)).
  { intros i Hi. unfold nb, nd.
    destruct (lookup_lt_is_Some_2 value (11 * i)) as [tb ->]; [lia|].
    destruct (lookup_lt_is_Some_2 value (11 * i + 1)) as [td ->]; [lia|].
    auto. }
  rewrite (SetValue_eval _ _ _ _ k x nb nd Hlen Hint Htok).
  set (E1 := fun i => direct_entry (nb i) (nd i) (x i)).
  set (E2 := fun i => mirror_entry (nb (i - k)%nat) (nd (i - k)%nat)
                                   (x (i - k)%nat)).
  set (a1 := writes E1 0 k (allocate garbage (2 * k))).
  set (a2 := writes E2 k k a1).
  assert (R2 : ready (2 * k) a2).
  { apply ready_writes; [intros i; now repeat split|].
    apply ready_writes; [intros i; now repeat split|].
    apply ready_allocate. }
  destruct R2 as (_ & LB & LD & LC & LA & LT & _).
  exists (pack (2 * k) a2 this), (bound a2), (donor a2), (center a2),
         (angles a2), (trans a2).
  do 12 (split; [first [reflexivity | assumption]|]).
  intros i Hi.
  destruct (Htok i Hi) as (Hb & Hd & _).
  pose proof (mirror_entry_opposite (nb i) (nd i) (x i)) as (MC & MA & MT).
  assert (Lout : forall {X} (proj : arrays -> list X) (pe : entry -> X),
            (forall j e a, proj (write j e a) = <[j := pe e]> (proj a)) ->
            length (proj (allocate garbage (2 * k))) = (2 * k)%nat ->
            proj a2 !! i = Some (pe (E1 i)) /\
            proj a2 !! (k + i)%nat = Some (pe (E2 (k + i)%nat))).
  { intros X proj pe Hw Hl. split.
    - unfold a2. rewrite (writes_lookup_out proj pe Hw) by lia.
      unfold a1. apply (writes_lookup_in proj pe Hw); lia.
    - unfold a2. apply (writes_lookup_in proj pe Hw); [lia|].
      unfold a1. rewrite (writes_length proj pe Hw). lia. }
  assert (Len : forall {X} (y : X), length (replicate (2 * k) y) = (2 * k)%nat)
    by (intros; apply length_replicate).
  destruct (Lout _ bound e_bound ltac:(reflexivity) (Len _ _)) as [B1 B2].
  destruct (Lout _ donor e_donor ltac:(reflexivity) (Len _ _)) as [D1 D2].
  destruct (Lout _ center e_center ltac:(reflexivity) (Len _ _)) as [C1 C2].
  destruct (Lout _ angles e_angles ltac:(reflexivity) (Len _ _)) as [A1 A2].
  destruct (Lout _ trans e_trans ltac:(reflexivity) (Len _ _)) as [T1 T2].
  unfold E2 in B2, D2, C2, A2, T2.
  replace (k + i - k)%nat with i in B2, D2, C2, A2, T2 by lia.
  rewrite MC in C2. rewrite MA in A2. rewrite MT in T2.
  exists (nb i), (nd i), (e_center (E1 i)), (e_angles (E1 i)),
         (e_trans (E1 i)).
  do 15 (split; [first [reflexivity | assumption]|]).
  intros Hcond v. now apply transform_round_trip.
Qed.

Lemma COptionPeriodic_mirror_entries_witness :
  let garbage := fun _ : nat => 0 in
  let value := rotation_30 in
  let this := periodic_option in
  let x := fun (_ j : nat) => if (j =? 7)%nat then 30 else 0 in
  exists this' bounds donors centers rotations translations,
    SetValue Decimal.num_get garbage value this = Some ("", this') /\
    size this' = Std.ushort (Z.of_nat 2) /\
    marker_bound this' = Some bounds /\
    marker_donor this' = Some donors /\
    rot_center this' = Some centers /\
    rot_angles this' = Some rotations /\
    translation this' = Some translations /\
    length bounds = 2%nat /\ length donors = 2%nat /\
    length centers = 2%nat /\ length rotations = 2%nat /\
    length translations = 2%nat /\
    forall i, (i < 1)%nat ->
      exists b d c a t,
        value !! (11 * i)%nat = Some b /\
        value !! (11 * i + 1)%nat = Some d /\
        c = [x i 2; x i 3; x i 4]%nat /\
        a = [x i 5%nat * deg2rad; x i 6%nat * deg2rad;
             x i 7%nat * deg2rad] /\
        t = [x i 8; x i 9; x i 10]%nat /\
        bounds !! i = Some b /\ donors !! i = Some d /\
        centers !! i = Some c /\ rotations !! i = Some a /\
        translations !! i = Some t /\
        bounds !! (1 + i)%nat = Some d /\ donors !! (1 + i)%nat = Some b /\
        centers !! (1 + i)%nat = Some c /\
        rotations !! (1 + i)%nat = Some (Ropp <$> a) /\
        translations !! (1 + i)%nat = Some (Ropp <$> t) /\
        (translation_or_axis_rotation a t ->
         forall v : vec,
           transform c a t v ≫= transform c (Ropp <$> a) (Ropp <$> t)
           = Some v).
Proof.
  intros garbage value this x.
  apply (COptionPeriodic_mirror_entries Decimal.num_get garbage value this
           1 x).
  - reflexivity.
  - simpl. lia.
  - intros i Hi j Hj.
    assert (i = 0%nat) as -> by lia.
    assert (j = 2 \/ j = 3 \/ j = 4 \/ j = 5 \/ j = 6 \/ j = 7 \/
            j = 8 \/ j = 9 \/ j = 10)%nat as Hcases by lia.
    repeat (destruct Hcases as [-> | Hcases]); try subst j;
      (eexists; split; [reflexivity | intros b [-> | ->]; reflexivity]).
Defined.

(** C4, as stated, fails on a marker with two nonzero angles: [SetValue]
    succeeds and builds the mirror entry with the opposite angles, but the
    transform of the entry followed by the transform of its mirror sends
    the vector [(1, 0, 0)] to [(0, -1, 0)].  Rotations about different axes
    do not commute, so opposite angles applied in the same order do not
    undo the rotation. *)
Lemma COptionPeriodic_mirror_not_inverse :
  exists this' c a t c' a' t',
    SetValue Decimal.num_get (fun _ => 0) rotation_90_90 periodic_option
    = Some ("", this') /\
    rot_center this' = Some [c; c'] /\
    rot_angles this' = Some [a; a'] /\
    translation this' = Some [t; t'] /\
    c' = c /\ a' = Ropp <$> a /\ t' = Ropp <$> t /\
    transform c a t (1, 0, 0) ≫= transform c' a' t' = Some (0, -1, 0) /\
    transform c a t (1, 0, 0) ≫= transform c' a' t' <> Some (1, 0, 0).
Proof.
  assert (E : transform [0; 0; 0] [90 * deg2rad; 90 * deg2rad; 0 * deg2rad]
                [0; 0; 0] (1, 0, 0)
              ≫= transform [0 * 1; 0 * 1; 0 * 1]
                   [90 * - deg2rad; 90 * - deg2rad; 0 * - deg2rad]
                   [0 * -1; 0 * -1; 0 * -1]
              = Some (0, -1, 0)).
  { replace (90 * - deg2rad) with (- (PI / 2))
      by (rewrite <- deg2rad_90; ring).
    rewrite deg2rad_90, !Rmult_0_l. simpl.
    rewrite !cos_neg, !sin_neg, cos_PI2, sin_PI2, cos_0, sin_0.
    do 3 f_equal; ring. }
  exists {| name := "MARKER_PERIODIC"; size := 2;
            marker_bound := Some ["lower"; "upper"];
            marker_donor := Some ["upper"; "lower"];
            rot_center := Some [[0; 0; 0]; [0 * 1; 0 * 1; 0 * 1]];
            rot_angles :=
              Some [[90 * deg2rad; 90 * deg2rad; 0 * deg2rad];
                    [90 * - deg2rad; 90 * - deg2rad; 0 * - deg2rad]];
            translation := Some [[0; 0; 0]; [0 * -1; 0 * -1; 0 * -1]] |}.
  exists [0; 0; 0], [90 * deg2rad; 90 * deg2rad; 0 * deg2rad], [0; 0; 0].
  exists [0 * 1; 0 * 1; 0 * 1],
         [90 * - deg2rad; 90 * - deg2rad; 0 * - deg2rad],
         [0 * -1; 0 * -1; 0 * -1].
  split; [reflexivity|].
  do 3 (split; [reflexivity|]).
  split; [repeat f_equal; ring|].
  split; [simpl; repeat f_equal; ring|].
  split; [simpl; repeat f_equal; ring|].
  split; [exact E|].
  rewrite E. intros [= H]. lra.
Qed.

(** A token that holds two numerals shifts every later extraction: the
    call still returns the empty string, and the mirror entry is built from
    other numbers than the entry it mirrors.  The statement above leaves
    such lists out. *)
Lemma COptionPeriodic_split_token :
  SetValue Decimal.num_get (fun _ => 0)
    ["lower"; "upper"; "1-2"; "3"; "4"; "5"; "6"; "7"; "8"; "9"; "10"]
    periodic_option
  = Some ("",
          {| name := "MARKER_PERIODIC"; size := 2;
             marker_bound := Some ["lower"; "upper"];
             marker_donor := Some ["upper"; "lower"];
             rot_center := Some [[1; -2; 3]; [10 * 1; 1 * 1; -2 * 1]];
             rot_angles :=
               Some [[4 * deg2rad; 5 * deg2rad; 6 * deg2rad];
                     [3 * - deg2rad; 4 * - deg2rad; 5 * - deg2rad]];
             translation := Some [[7; 8; 9]; [6 * -1; 7 * -1; 8 * -1]] |}).
Proof. reflexivity. Qed.

End PeriodicFacts.

(* ===================================================================== *)
(** * Properties of the other option classes *)
(* ===================================================================== *)

Module UpperCaseFacts.

Lemma toupper_idem (c : ascii) : toupper (toupper c) = toupper c.
Proof. destruct c as [[] [] [] [] [] [] [] []]; reflexivity. Qed.

Lemma islower_toupper (c : ascii) : islower (toupper c) = false.
Proof. destruct c as [[] [] [] [] [] [] [] []]; reflexivity. Qed.

Lemma toupper_fixes_not_lower (c : ascii) :
  islower c = false -> toupper c = c.
Proof. unfold toupper, islower. now intros ->. Qed.

(** [StringToUpperCase] gives a normal form: applying it twice is applying
    it once, the length of the string is kept, no small letter is left, and
    a string without small letters is returned as it is. *)
Theorem StringToUpperCase_normal_form (str : string) :
  StringToUpperCase (StringToUpperCase str) = StringToUpperCase str /\
  String.length (StringToUpperCase str) = String.length str /\
  has_lower (StringToUpperCase str) = false /\
  (has_lower str = false -> StringToUpperCase str = str).
Proof.
  unfold StringToUpperCase.
  induction str as [|c s (IH1 & IH2 & IH3 & IH4)]; simpl.
  - repeat split; reflexivity.
  - rewrite toupper_idem, IH1, IH2, islower_toupper, IH3.
    repeat split; try reflexivity.
    intros [Hc Hs]%orb_false_iff.
    now rewrite toupper_fixes_not_lower, IH4.
Qed.

End UpperCaseFacts.

Module EnumFacts.

(** ** The maps *)

Lemma chain_lookup_nil {U} (k0 : string) (v0 : U) (k : string) :
  CCreateMap.chain (k0, v0) [] !! k = if decide (k0 = k) then Some v0 else None.
Proof.
  unfold CCreateMap.chain, CCreateMap.ctor. simpl.
  case_decide as Hk.
  - subst. apply lookup_insert_eq.
  - rewrite lookup_insert_ne by exact Hk. apply lookup_empty.
Qed.

(** A key of the map that [CCreateMap] builds has the value of the last
    pair given for it. *)
Lemma chain_lookup_snoc {U} (first : string * U) (rest : list (string * U))
    (k' : string) (v' : U) (k : string) :
  CCreateMap.chain first (rest ++ [(k', v')]) !! k
  = if decide (k' = k) then Some v' else CCreateMap.chain first rest !! k.
Proof.
  unfold CCreateMap.chain. rewrite foldl_app. simpl.
  unfold CCreateMap.call at 1. simpl.
  case_decide as Hk.
  - subst. apply lookup_insert_eq.
  - now rewrite lookup_insert_ne by exact Hk.
Qed.

Lemma subscript_known (m : gmap string Z) (key : string) (v : Z) :
  m !! key = Some v -> subscript m key = (v, m).
Proof. unfold subscript. now intros ->. Qed.

Lemma Math_Problem_Map_keys (tok : string) :
  Math_Problem_Map !! tok <> None ->
  tok = "DIRECT" \/ tok = "ADJOINT" \/ tok = "LINEARIZED".
Proof.
  unfold Math_Problem_Map, CCreateMap.chain, CCreateMap.call, CCreateMap.ctor.
  simpl. intros H.
  destruct (decide (tok = "LINEARIZED")) as [|H1]; [tauto|].
  destruct (decide (tok = "ADJOINT")) as [|H2]; [tauto|].
  destruct (decide (tok = "DIRECT")) as [|H3]; [tauto|].
  contradict H.
  rewrite !lookup_insert_ne by congruence. apply lookup_empty.
Qed.

Lemma Centered_Map_lookup (tok : string) (v : Z) :
  Centered_Map !! tok = Some v ->
  (tok = "NONE" /\ v = 0%Z) \/ (tok <> "NONE" /\ (1 <= v <= 4)%Z).
Proof.
  unfold Centered_Map, CCreateMap.chain, CCreateMap.call, CCreateMap.ctor.
  simpl. intros H.
  repeat (apply lookup_insert_Some in H as [[<- <-]|[? H]];
          [first [left; split; [reflexivity|reflexivity]
                 |right; split; [discriminate|
                    unfold ENUM_CENTERED.JST, ENUM_CENTERED.JST_KE,
                      ENUM_CENTERED.LAX; lia]]|]).
  now rewrite lookup_empty in H.
Qed.

Lemma Upwind_Map_lookup (tok : string) (v : Z) :
  Upwind_Map !! tok = Some v ->
  (tok = "NONE" /\ v = 0%Z) \/ (tok <> "NONE" /\ (1 <= v <= 10)%Z).
Proof.
  unfold Upwind_Map, CCreateMap.chain, CCreateMap.call, CCreateMap.ctor.
  simpl. intros H.
  repeat (apply lookup_insert_Some in H as [[<- <-]|[? H]];
          [first [left; split; [reflexivity|reflexivity]
                 |right; split; [discriminate|
                    unfold ENUM_UPWIND.ROE, ENUM_UPWIND.SCALAR_UPWIND,
                      ENUM_UPWIND.AUSM, ENUM_UPWIND.HLLC, ENUM_UPWIND.SW,
                      ENUM_UPWIND.MSW, ENUM_UPWIND.TURKEL,
                      ENUM_UPWIND.AUSMPWPLUS, ENUM_UPWIND.CUSP,
                      ENUM_UPWIND.CONVECTIVE_TEMPLATE; lia]]|]).
  now rewrite lookup_empty in H.
Qed.

Lemma Centered_Map_NONE : Centered_Map !! "NONE" = Some 0%Z.
Proof. reflexivity. Qed.

Lemma Space_Map_centered :
  find_second Space_Map "SPACE_CENTERED" = Some ENUM_SPACE.SPACE_CENTERED.
Proof. reflexivity. Qed.

Lemma Space_Map_upwind :
  find_second Space_Map "SPACE_UPWIND" = Some ENUM_SPACE.SPACE_UPWIND.
Proof. reflexivity. Qed.

End EnumFacts.

Module OptionFacts2.
Import EnumFacts.

(** ** [CCreateMap] *)

(** In the map that [CCreateMap<string, U>(k0, v0)(k1, v1)...(kn, vn)]
    builds, a key has the value of the last pair given for it, and a key
    that no pair gives is absent. *)
Theorem CCreateMap_last_pair_wins {U} (first : string * U)
    (rest : list (string * U)) (k : string) :
  CCreateMap.chain first rest !! k = last_value k (first :: rest).
Proof.
  induction rest as [|[k' v'] rest IH] using rev_ind.
  - destruct first as [k0 v0]. rewrite chain_lookup_nil.
    unfold last_value. simpl. reflexivity.
  - rewrite chain_lookup_snoc, IH.
    unfold last_value. rewrite app_comm_cons, foldl_app. simpl.
    reflexivity.
Qed.

(** ** [COptionEnum] *)

(** [COptionEnum::SetValue] returns the empty string exactly when the list
    is a single token that is a key of the map, as it is written (the
    comparison is case sensitive); the field then holds the value of the
    key.  In every other case the message is not empty and the option is
    left as it was.  The map is never changed. *)
Theorem COptionEnum_SetValue_spec (option_value : list string)
    (this : COptionEnum.t) :
  exists msg this',
    COptionEnum.SetValue option_value this = Some (msg, this') /\
    COptionEnum.m this' = COptionEnum.m this /\
    (msg = "" <->
     exists tok v, option_value = [tok] /\
                   COptionEnum.m this !! tok = Some v) /\
    (msg <> "" -> this' = this) /\
    (forall tok v, option_value = [tok] ->
       COptionEnum.m this !! tok = Some v ->
       COptionEnum.field this' = Std.ushort v).
Proof.
  unfold COptionEnum.SetValue.
  destruct (OptionFacts.optionCheckMultipleValues_spec option_value "enum"
              (COptionEnum.name this)) as [[Hlen Hout] | [Hlen Hout]].
  - rewrite Hout. rewrite decide_False by (intros H; now apply H).
    destruct option_value as [|tok [|? ?]]; try discriminate. simpl.
    destruct (COptionEnum.m this !! tok) as [v|] eqn:Hm.
    + rewrite decide_False by discriminate.
      rewrite (subscript_known _ _ _ Hm).
      do 2 eexists. split; [reflexivity|]. simpl.
      split; [reflexivity|]. split; [split|split].
      * intros _. now exists tok, v.
      * reflexivity.
      * intros H. now contradict H.
      * intros tok' v' [= <-]. rewrite Hm. now intros [= <-].
    + rewrite decide_True by reflexivity.
      do 2 eexists. split; [reflexivity|]. split; [reflexivity|].
      split; [split|split].
      * intros H. exfalso. revert H.
        apply OptionFacts.append_nonempty_r.
        destruct tok; discriminate.
      * intros (tok' & v' & [= <-] & Hv). congruence.
      * reflexivity.
      * intros tok' v' [= <-]. congruence.
  - rewrite decide_True by exact Hout.
    do 2 eexists. split; [reflexivity|]. split; [reflexivity|].
    split; [split|split].
    + intros H. now contradict Hout.
    + intros (tok & v & -> & _). now contradict Hlen.
    + reflexivity.
    + intros tok v ->. now contradict Hlen.
Qed.

End OptionFacts2.

(* ===================================================================== *)
(** * Properties of the list options *)
(* ===================================================================== *)

Module ListOptionFacts.
Import EnumFacts.

(** ** [COptionBool] and [COptionString] *)

(** [COptionBool::SetValue] accepts the lists [YES] and [NO] and nothing
    else: on [YES] the field becomes [true], on [NO] it becomes [false],
    and on every other list the message is not empty and the option is
    left as it was. *)
Theorem COptionBool_SetValue_spec (option_value : list string)
    (this : COptionBool.t) :
  exists msg this',
    COptionBool.SetValue option_value this = Some (msg, this') /\
    (msg = "" <-> option_value = ["YES"] \/ option_value = ["NO"]) /\
    (option_value = ["YES"] -> COptionBool.field this' = true) /\
    (option_value = ["NO"] -> COptionBool.field this' = false) /\
    (msg <> "" -> this' = this) /\
    COptionBool.def this' = COptionBool.def this /\
    COptionBool.name this' = COptionBool.name this.
Proof.
  unfold COptionBool.SetValue.
  destruct (OptionFacts.optionCheckMultipleValues_spec option_value "bool"
              (COptionBool.name this)) as [[Hlen Hout] | [Hlen Hout]].
  - rewrite Hout. rewrite decide_False by (intros H; now apply H).
    destruct option_value as [|tok [|? ?]]; try discriminate. simpl.
    destruct (decide (tok = "YES")) as [->|Hyes];
      [|destruct (decide (tok = "NO")) as [->|Hno]].
    + do 2 eexists. split; [reflexivity|]. simpl.
      repeat split; auto; try discriminate. intros H. now contradict H.
    + do 2 eexists. split; [reflexivity|]. simpl.
      repeat split; auto; try discriminate. intros H. now contradict H.
    + do 2 eexists. split; [reflexivity|].
      repeat split; auto.
      * intros H. now apply OptionFacts.badValue_nonempty in H.
      * intros [[= ->] | [= ->]]; congruence.
      * intros [= ->]. congruence.
      * intros [= ->]. congruence.
  - rewrite decide_True by exact Hout.
    do 2 eexists. split; [reflexivity|].
    repeat split; auto.
    + intros H. now contradict Hout.
    + intros [-> | ->]; now contradict Hlen.
    + intros ->. now contradict Hlen.
    + intros ->. now contradict Hlen.
Qed.

(** [COptionString::SetValue] stores any single token, the empty one too,
    and refuses every other list with the message of a [double] option,
    leaving the option as it was. *)
Theorem COptionString_SetValue_spec (option_value : list string)
    (this : COptionString.t) :
  COptionString.SetValue option_value this
  = Some match option_value with
         | [tok] =>
             ("", {| COptionString.field := tok;
                     COptionString.def := COptionString.def this;
                     COptionString.name := COptionString.name this |})
         | _ =>
             (COptionString.name this +:+ ": multiple values for type double",
              this)
         end.
Proof.
  unfold COptionString.SetValue, COptionBase.optionCheckMultipleValues.
  destruct option_value as [|tok [|? ?]]; cbn [length].
  - rewrite (decide_True (P := 0%nat <> 1%nat)) by lia.
    rewrite decide_True
      by (apply OptionFacts.append_nonempty_r; discriminate).
    reflexivity.
  - rewrite (decide_False (P := 1%nat <> 1%nat)) by lia.
    rewrite decide_False by (intros H; now apply H). reflexivity.
  - rewrite (decide_True (P := S (S _) <> 1%nat)) by lia.
    rewrite decide_True
      by (apply OptionFacts.append_nonempty_r; discriminate).
    reflexivity.
Qed.

(** ** Loops that fill an array *)

Lemma store1_Some {A} (a : list A) (i : nat) (x : A) :
  (i < length a)%nat -> store1 a i x = Some (<[i := x]> a).
Proof. intros H. unfold store1. now rewrite decide_True. Qed.

Lemma take_S_insert {A} (a : list A) (i : nat) (x : A) :
  (i < length a)%nat -> take (S i) (<[i := x]> a) = take i a ++ [x].
Proof.
  intros H.
  rewrite (take_S_r _ _ x) by now apply list_lookup_insert_eq.
  now rewrite take_insert_ge by lia.
Qed.

Lemma length_new_ushort garbage n : length (new_ushort garbage n) = n.
Proof. unfold new_ushort. now rewrite length_map, length_seq. Qed.

(** ** [COptionStringList] *)

Lemma COptionStringList_loop (option_value : list string) (n i : nat)
    (vals : list string) :
  (i + n)%nat = length option_value ->
  length vals = length option_value ->
  (Z.of_nat (length option_value) <= Std.INT_MAX)%Z ->
  COptionStringList.loop option_value n i vals
  = Some (take i vals ++ drop i option_value).
Proof.
  revert i vals.
  induction n as [|n IH]; intros i vals Hn Hlen Hmax; simpl.
  - rewrite drop_ge by lia. rewrite app_nil_r.
    now rewrite take_ge by lia.
  - destruct (lookup_lt_is_Some_2 option_value i) as [tok Htok]; [lia|].
    rewrite Htok. simpl.
    rewrite store1_Some by lia. simpl.
    rewrite decide_False by lia.
    rewrite IH by (rewrite ?length_insert; lia).
    rewrite take_S_insert by lia.
    rewrite (drop_S _ _ _ Htok). now rewrite <- app_assoc.
Qed.

(** [COptionStringList::SetValue] on a list of at most [INT_MAX] tokens
    that is not the single token [NONE] returns the empty string, stores a
    copy of the whole list in the field and sets the size to the number of
    tokens, reduced to an [unsigned short]; on [NONE] it sets the size to 0
    and leaves the field as it was. *)
Theorem COptionStringList_SetValue_copies (option_value : list string)
    (this : COptionStringList.t) :
  (Z.of_nat (length option_value) <= Std.INT_MAX)%Z ->
  COptionStringList.SetValue option_value this
  = Some ("",
          if decide (is_NONE option_value) then
            {| COptionStringList.field := COptionStringList.field this;
               COptionStringList.name := COptionStringList.name this;
               COptionStringList.size := 0 |}
          else
            {| COptionStringList.field := Some option_value;
               COptionStringList.name := COptionStringList.name this;
               COptionStringList.size :=
                 Std.ushort (Z.of_nat (length option_value)) |}).
Proof.
  intros Hmax. unfold COptionStringList.SetValue.
  case_decide as Hnone; [reflexivity|].
  rewrite COptionStringList_loop
    by (rewrite ?length_replicate; auto).
  reflexivity.
Qed.

Lemma COptionStringList_SetValue_copies_witness :
  COptionStringList.SetValue ["inlet"; "outlet"]
    {| COptionStringList.field := None;
       COptionStringList.name := "MARKER_PLOTTING";
       COptionStringList.size := 0 |}
  = Some ("",
          {| COptionStringList.field := Some ["inlet"; "outlet"];
             COptionStringList.name := "MARKER_PLOTTING";
             COptionStringList.size := 2 |}).
Proof.
  apply (COptionStringList_SetValue_copies ["inlet"; "outlet"]).
  vm_compute. discriminate.
Defined.

(** ** [COptionDoubleList] *)

Lemma COptionDoubleList_loop num_get (option_value : list string) (n i : nat)
    (vals : list R) :
  (i + n)%nat = length option_value ->
  length vals = length option_value ->
  (Z.of_nat (length option_value) <= Std.INT_MAX)%Z ->
  COptionDoubleList.loop num_get option_value n i vals
  = Some (xs ← mapM (COptionDoubleList.convert num_get) (drop i option_value);
          Some (take i vals ++ xs)).
Proof.
  revert i vals.
  induction n as [|n IH]; intros i vals Hn Hlen Hmax; simpl.
  - rewrite drop_ge by lia. simpl. rewrite app_nil_r.
    now rewrite take_ge by lia.
  - destruct (lookup_lt_is_Some_2 option_value i) as [tok Htok]; [lia|].
    rewrite Htok. simpl. rewrite (drop_S _ _ _ Htok). simpl.
    destruct (COptionDoubleList.convert num_get tok) as [val|]; simpl;
      [|reflexivity].
    rewrite store1_Some by lia. simpl.
    rewrite decide_False by lia.
    rewrite IH by (rewrite ?length_insert; lia).
    rewrite take_S_insert by lia.
    destruct (mapM _ (drop (S i) option_value)) as [xs|]; simpl;
      [|reflexivity].
    now rewrite <- app_assoc.
Qed.

(** [COptionDoubleList::SetValue] on a list of at most [INT_MAX] tokens
    that is not the single token [NONE]: when every token converts, taken
    alone, the field holds exactly the converted values in the order of the
    tokens (no cell of the new array is left unwritten) and the message is
    empty; when a token does not convert the message is the one of
    [badValue] and the field is left as it was.  In both cases the size has
    been set to the number of tokens. *)
Theorem COptionDoubleList_SetValue_spec num_get garbage
    (option_value : list string) (this : COptionDoubleList.t) :
  (Z.of_nat (length option_value) <= Std.INT_MAX)%Z ->
  ~ is_NONE option_value ->
  COptionDoubleList.SetValue num_get garbage option_value this
  = Some match mapM (COptionDoubleList.convert num_get) option_value with
         | Some vals =>
             ("", {| COptionDoubleList.field := Some vals;
                     COptionDoubleList.name := COptionDoubleList.name this;
                     COptionDoubleList.size :=
                       Std.ushort (Z.of_nat (length option_value)) |})
         | None =>
             (COptionBase.badValue option_value "double list"
                (COptionDoubleList.name this),
              {| COptionDoubleList.field := COptionDoubleList.field this;
                 COptionDoubleList.name := COptionDoubleList.name this;
                 COptionDoubleList.size :=
                   Std.ushort (Z.of_nat (length option_value)) |})
         end.
Proof.
  intros Hmax Hnone. unfold COptionDoubleList.SetValue.
  rewrite decide_False by exact Hnone.
  rewrite COptionDoubleList_loop
    by (rewrite ?TurbFacts.length_new_double; auto).
  rewrite drop_0.
  destruct (mapM _ option_value) as [xs|]; reflexivity.
Qed.

End ListOptionFacts.

(* ===================================================================== *)
(** * Properties of the enumeration options *)
(* ===================================================================== *)

Module EnumListFacts.
Import EnumFacts ListOptionFacts.

(** ** [COptionEnumList] *)

Lemma COptionEnumList_loop (option_value : list string) (option_name : string)
    (first : string) (v0 : Z) (m : gmap string Z) (n i : nat)
    (enums : list Z) :
  option_value !! 0%nat = Some first ->
  m !! first = Some v0 ->
  (i + n <= length option_value)%nat ->
  (i + n <= length enums)%nat ->
  COptionEnumList.loop option_value option_name n i m enums
  = Some (if decide (Forall (known m) (take n (drop i option_value)))
          then COptionEnumList.Done m
                 (take i enums ++ replicate n (Std.ushort v0)
                  ++ drop (i + n) enums)
          else COptionEnumList.Invalid
                 (option_name +:+ ": invalid option value " +:+ first) m).
Proof.
  intros Hfirst Hv0. revert i enums.
  induction n as [|n IH]; intros i enums Hov Hen;
    cbn [COptionEnumList.loop].
  - rewrite take_0. rewrite decide_True by constructor.
    rewrite Nat.add_0_r. cbn [replicate app]. now rewrite take_drop.
  - destruct (lookup_lt_is_Some_2 option_value i) as [tok Htok]; [lia|].
    rewrite Htok. cbn [mbind option_bind].
    rewrite (drop_S _ _ _ Htok). cbn [take].
    rewrite Hfirst. cbn [mbind option_bind].
    destruct (m !! tok) as [v|] eqn:Hm.
    + rewrite (decide_False (P := Some v = None)) by discriminate.
      rewrite (subscript_known _ _ _ Hv0).
      rewrite store1_Some by lia. cbn [mbind option_bind].
      rewrite IH by (rewrite ?length_insert; lia).
      rewrite take_S_insert by lia.
      rewrite drop_insert_lt by lia.
      replace (S i + n)%nat with (i + S n)%nat by lia.
      rewrite <- app_assoc. cbn [replicate app].
      repeat case_decide; try reflexivity.
      * exfalso. match goal with H : ~ Forall _ (_ :: _) |- _ => apply H end.
        constructor; [unfold known; rewrite Hm; eauto | assumption].
      * exfalso. match goal with H : ~ Forall _ (take _ _) |- _ => apply H end.
        match goal with H : Forall _ (_ :: _) |- _ =>
          now apply Forall_cons in H as [_ H] end.
    + rewrite (decide_True (P := None = None)) by reflexivity.
      rewrite decide_False; [reflexivity|].
      intros [Hk _]%Forall_cons. unfold known in Hk. rewrite Hm in Hk.
      now destruct Hk.
Qed.

Lemma ushort_le (z : Z) : (0 <= z)%Z -> (0 <= Std.ushort z <= z)%Z.
Proof.
  intros Hz. unfold Std.ushort. split.
  - apply Z.mod_pos_bound. lia.
  - apply Z.mod_le; lia.
Qed.

Lemma COptionEnumList_loop_0 (option_value : list string)
    (option_name : string) (m : gmap string Z) (n : nat) (enums : list Z) :
  (n <= length option_value)%nat ->
  (n <= length enums)%nat ->
  COptionEnumList.loop option_value option_name n 0 m enums
  = Some (if decide (Forall (known m) (take n option_value))
          then COptionEnumList.Done m
                 (replicate n
                    (Std.ushort (default 0%Z (head option_value ≫= (m !!.))))
                  ++ drop n enums)
          else COptionEnumList.Invalid
                 (option_name +:+ ": invalid option value "
                  +:+ default "" (head option_value)) m).
Proof.
  intros Hov Hen.
  destruct n as [|n].
  - cbn [COptionEnumList.loop]. rewrite take_0.
    rewrite decide_True by constructor. now rewrite drop_0.
  - destruct option_value as [|first rest]; [simpl in Hov; lia|].
    destruct (m !! first) as [v0|] eqn:Hm.
    + rewrite (COptionEnumList_loop _ _ first v0) by (auto; simpl; lia).
      rewrite drop_0. cbn [head mbind option_bind default take app].
      rewrite Hm. reflexivity.
    + cbn [COptionEnumList.loop lookup list_lookup mbind option_bind].
      rewrite decide_True by exact Hm.
      cbn [mbind option_bind head default].
      rewrite decide_False; [reflexivity|].
      cbn [take].
      intros [Hk _]%Forall_cons. unfold known in Hk. rewrite Hm in Hk.
      now destruct Hk.
Qed.

(** [COptionEnumList::SetValue] always returns and never changes the map.
    On the single token [NONE] it sets the size to 0.  On every other
    list it sets the size to the number of tokens (as an [unsigned short]),
    and it returns the empty string exactly when each of the first [size]
    tokens is a key of the map; otherwise the message quotes the first token
    of the list, whichever token is the unknown one, and the field is left
    as it was although the size has changed. *)
Theorem COptionEnumList_SetValue_spec (garbage : nat -> Z)
    (option_value : list string) (this : COptionEnumList.t) :
  exists msg this',
    COptionEnumList.SetValue garbage option_value this = Some (msg, this') /\
    COptionEnumList.m this' = COptionEnumList.m this /\
    COptionEnumList.name this' = COptionEnumList.name this /\
    (is_NONE option_value ->
       msg = "" /\ COptionEnumList.size this' = 0%Z /\
       COptionEnumList.field this' = COptionEnumList.field this) /\
    (~ is_NONE option_value ->
       let size' := Std.ushort (Z.of_nat (length option_value)) in
       COptionEnumList.size this' = size' /\
       (msg = "" <->
        Forall (known (COptionEnumList.m this))
               (take (Z.to_nat size') option_value)) /\
       (msg <> "" ->
        COptionEnumList.field this' = COptionEnumList.field this /\
        exists first,
          option_value !! 0%nat = Some first /\
          msg = COptionEnumList.name this +:+ ": invalid option value "
                +:+ first)).
Proof.
  unfold COptionEnumList.SetValue.
  case_decide as Hnone.
  - do 2 eexists. split; [reflexivity|]. simpl.
    repeat split; tauto.
  - pose proof (ushort_le (Z.of_nat (length option_value))
                  ltac:(lia)) as Hsz.
    rewrite COptionEnumList_loop_0
      by (rewrite ?length_new_ushort; lia).
    case_decide as Hall.
    + do 2 eexists. split; [reflexivity|]. simpl.
      repeat split; try tauto; try (intros H; now contradict H).
    + do 2 eexists. split; [reflexivity|]. simpl.
      assert (Hmsg : forall s t : string, s +:+ ": invalid option value " +:+ t
                                          <> "")
        by (intros s t; apply OptionFacts.append_nonempty_r;
            destruct t; discriminate).
      repeat split; try tauto.
      * intros Hm. now apply Hmsg in Hm.
      * destruct option_value as [|first rest].
        -- contradict Hall. rewrite take_nil. constructor.
        -- exists first. split; reflexivity.
Qed.

(** When [COptionEnumList::SetValue] accepts a list, every entry of the
    array it stores is the value of the first token of the list: the loop
    checks [option_value[i]] and stores [m[option_value[0]]]. *)
Theorem COptionEnumList_entries_of_first_token (garbage : nat -> Z)
    (option_value : list string) (this this' : COptionEnumList.t)
    (first : string) (v0 : Z) :
  ~ is_NONE option_value ->
  option_value !! 0%nat = Some first ->
  COptionEnumList.m this !! first = Some v0 ->
  COptionEnumList.SetValue garbage option_value this = Some ("", this') ->
  COptionEnumList.field this'
  = Some (replicate (Z.to_nat (COptionEnumList.size this'))
                    (Std.ushort v0)).
Proof.
  intros Hnone Hfirst Hv0. unfold COptionEnumList.SetValue.
  rewrite decide_False by exact Hnone.
  pose proof (ushort_le (Z.of_nat (length option_value)) ltac:(lia)) as Hsz.
  rewrite COptionEnumList_loop_0 by (rewrite ?length_new_ushort; lia).
  case_decide as Hall.
  - intros [= <-]. simpl.
    rewrite drop_ge by (rewrite length_new_ushort; lia).
    rewrite app_nil_r.
    destruct option_value as [|f rest]; [discriminate|].
    simpl in Hfirst. injection Hfirst as ->. simpl. rewrite Hv0. reflexivity.
  - intros [= Hmsg _]. exfalso. revert Hmsg.
    apply OptionFacts.append_nonempty_r.
    destruct (default "" (head option_value)); discriminate.
Qed.

Lemma COptionEnumList_entries_of_first_token_witness :
  let this := {| COptionEnumList.m := Centered_Map;
                 COptionEnumList.field := None;
                 COptionEnumList.name := "KIND_CENTERED";
                 COptionEnumList.size := 0 |} in
  let this' := {| COptionEnumList.m := Centered_Map;
                  COptionEnumList.field :=
                    Some [ENUM_CENTERED.JST; ENUM_CENTERED.JST];
                  COptionEnumList.name := "KIND_CENTERED";
                  COptionEnumList.size := 2 |} in
  COptionEnumList.SetValue (fun _ => 0%Z) ["JST"; "LAX-FRIEDRICH"] this
  = Some ("", this') /\
  COptionEnumList.field this'
  = Some (replicate (Z.to_nat (COptionEnumList.size this'))
                    (Std.ushort ENUM_CENTERED.JST)).
Proof.
  intros this this'.
  assert (Hrun : COptionEnumList.SetValue (fun _ => 0%Z)
                   ["JST"; "LAX-FRIEDRICH"] this = Some ("", this'))
    by (vm_compute; reflexivity).
  split; [exact Hrun|].
  apply (COptionEnumList_entries_of_first_token (fun _ => 0%Z)
           ["JST"; "LAX-FRIEDRICH"] this this' "JST" ENUM_CENTERED.JST).
  - intros [Hlen _]. simpl in Hlen. lia.
  - reflexivity.
  - vm_compute. reflexivity.
  - exact Hrun.
Defined.

(** ** [COptionDoubleList], an instance *)

Lemma COptionDoubleList_SetValue_spec_witness :
  let this := {| COptionDoubleList.field := None;
                 COptionDoubleList.name := "CFL_RAMP";
                 COptionDoubleList.size := 0 |} in
  COptionDoubleList.SetValue Decimal.num_get (fun _ => 0) ["1"; "x"] this
  = Some (COptionBase.badValue ["1"; "x"] "double list" "CFL_RAMP",
          {| COptionDoubleList.field := None;
             COptionDoubleList.name := "CFL_RAMP";
             COptionDoubleList.size := 2 |}).
Proof.
  intros this.
  apply (ListOptionFacts.COptionDoubleList_SetValue_spec Decimal.num_get
           (fun _ => 0) ["1"; "x"] this).
  - vm_compute. discriminate.
  - intros [Hlen _]. simpl in Hlen. lia.
Defined.

End EnumListFacts.

(* ===================================================================== *)
(** * Properties of the options on the numerical scheme *)
(* ===================================================================== *)

Module SchemeFacts.
Import EnumFacts.

Lemma ushort_small (z : Z) : (0 <= z < 65536)%Z -> Std.ushort z = z.
Proof. intros H. unfold Std.ushort. now apply Z.mod_small. Qed.

Lemma last_char_append (s t : string) :
  t <> "" -> last_char (s +:+ t) = last_char t.
Proof.
  intros Ht. induction s as [|c s IH]; [reflexivity|].
  change (String c s +:+ t) with (String c (s +:+ t)).
  cbn [last_char]. rewrite IH.
  destruct (s +:+ t) eqn:E; [|reflexivity].
  destruct s; simpl in E; [contradiction|discriminate].
Qed.

(** ** [COptionConvect] *)

(** After [COptionConvect::SetValue] on a list of one token, whatever the
    token is, the three fields are consistent: either the space is
    [SPACE_CENTERED] and there is no upwind scheme, or the space is
    [SPACE_UPWIND], there is no centered scheme and there is an upwind one;
    the space is never [NO_CONVECTIVE].  The message is empty exactly for a
    single token that is a key of [Centered_Map] or of [Upwind_Map]; a
    list with another number of tokens leaves the option as it was. *)
Theorem COptionConvect_SetValue_consistent (option_value : list string)
    (this : COptionConvect.t) :
  exists msg this',
    COptionConvect.SetValue option_value this = Some (msg, this') /\
    (length option_value <> 1%nat -> msg <> "" /\ this' = this) /\
    (length option_value = 1%nat ->
       (COptionConvect.space this' = ENUM_SPACE.SPACE_CENTERED /\
        COptionConvect.upwind this' = ENUM_UPWIND.NO_UPWIND /\
        (0 <= COptionConvect.centered this' <= 4)%Z)
       \/
       (COptionConvect.space this' = ENUM_SPACE.SPACE_UPWIND /\
        COptionConvect.centered this' = ENUM_CENTERED.NO_CENTERED /\
        (1 <= COptionConvect.upwind this' <= 10)%Z)) /\
    (msg = "" <->
     exists tok, option_value = [tok] /\
                 (known Centered_Map tok \/ known Upwind_Map tok)).
Proof.
  unfold COptionConvect.SetValue.
  destruct (OptionFacts.optionCheckMultipleValues_spec option_value
              "unsigned short" (COptionConvect.name this))
    as [[Hlen Hout] | [Hlen Hout]].
  - rewrite Hout. rewrite decide_False by (intros H; now apply H).
    destruct option_value as [|tok [|? ?]]; try discriminate.
    cbn [lookup list_lookup mbind option_bind].
    rewrite Space_Map_centered, Space_Map_upwind. unfold find_second.
    cbn [mbind option_bind].
    destruct (Centered_Map !! tok) as [c|] eqn:Hc.
    + rewrite decide_True by eauto. cbn [mbind option_bind].
      do 2 eexists. split; [reflexivity|]. simpl.
      split; [intros H; now contradict H|]. split.
      * intros _. left. split; [reflexivity|]. split; [reflexivity|].
        destruct (Centered_Map_lookup _ _ Hc) as [[_ ->] | [_ Hr]];
          [vm_compute; split; discriminate|].
        rewrite ushort_small by lia. lia.
      * split; [|reflexivity]. intros _. exists tok. split; [reflexivity|].
        left. unfold known. rewrite Hc. eauto.
    + rewrite decide_False by (intros [? [=]]).
      destruct (Upwind_Map !! tok) as [u|] eqn:Hu.
      * rewrite decide_True by eauto. cbn [mbind option_bind].
        do 2 eexists. split; [reflexivity|]. simpl.
        split; [intros H; now contradict H|]. split.
        -- intros _. right. split; [reflexivity|]. split; [reflexivity|].
           destruct (Upwind_Map_lookup _ _ Hu) as [[-> _] | [_ Hr]];
             [rewrite Centered_Map_NONE in Hc; discriminate|].
           rewrite ushort_small by lia. lia.
        -- split; [|reflexivity]. intros _. exists tok.
           split; [reflexivity|]. right. unfold known. rewrite Hu. eauto.
      * rewrite decide_False by (intros [? [=]]).
        do 2 eexists. split; [reflexivity|]. simpl.
        split; [intros H; now contradict H|]. split.
        -- intros _. left. split; [reflexivity|]. split; [reflexivity|].
           vm_compute. split; discriminate.
        -- split.
           ++ intros H. now apply OptionFacts.badValue_nonempty in H.
           ++ intros (tok' & [= <-] & [[? Hk] | [? Hk]]);
                unfold known in Hk; congruence.
  - rewrite decide_True by exact Hout.
    do 2 eexists. split; [reflexivity|].
    split; [intros _; now split|]. split; [intros H; now contradict Hlen|].
    split.
    + intros H. now contradict Hout.
    + intros (tok & -> & _). now contradict Hlen.
Qed.

(** ** [CConvOptionRef] *)

(** [CConvOptionRef::SetValue] and [COptionConvect::SetValue] select the
    same scheme: when the former returns on a list that starts with [tok],
    the latter accepts the list [tok] with the same space, centered and
    upwind discretisation; when the former throws, it leaves the three
    fields as they were, and the latter returns the message of [badValue]
    with its three defaults.  On a list that is not empty the call has a
    defined behaviour. *)
Theorem CConvOptionRef_agrees_with_COptionConvect (tok : string)
    (rest : list string) (ref : CConvOptionRef.t) (this : COptionConvect.t) :
  match CConvOptionRef.SetValue (tok :: rest) ref with
  | Std.Returns ref' =>
      exists this',
        COptionConvect.SetValue [tok] this = Some ("", this') /\
        scheme_of_option this' = scheme_of_ref ref' /\
        CConvOptionRef.cerr ref' = CConvOptionRef.cerr ref
  | Std.Throws code ref' =>
      code = (-1)%Z /\
      scheme_of_ref ref' = scheme_of_ref ref /\
      COptionConvect.SetValue [tok] this
      = Some (COptionBase.badValue [tok] "convect" (COptionConvect.name this),
              COptionConvect.SetDefault this)
  | Std.Undefined => False
  end.
Proof.
  unfold CConvOptionRef.SetValue, COptionConvect.SetValue,
    COptionBase.optionCheckMultipleValues.
  cbn [lookup list_lookup length].
  rewrite (decide_False (P := 1%nat <> 1%nat)) by lia.
  rewrite (decide_False (P := "" <> "")) by (intros H; now apply H).
  cbn [mbind option_bind].
  rewrite Space_Map_centered, Space_Map_upwind. unfold find_second.
  cbn [mbind option_bind].
  destruct (Centered_Map !! tok) as [c|] eqn:Hc.
  - rewrite !decide_True by eauto. cbn [mbind option_bind].
    eexists. split; [reflexivity|]. split; reflexivity.
  - rewrite !(decide_False (P := is_Some None)) by (intros [? [=]]).
    destruct (Upwind_Map !! tok) as [u|] eqn:Hu.
    + rewrite !decide_True by eauto. cbn [mbind option_bind].
      eexists. split; [reflexivity|]. split; reflexivity.
    + rewrite !(decide_False (P := is_Some None)) by (intros [? [=]]).
      split; [reflexivity|]. split; reflexivity.
Qed.

(** ** [COptionMathProblem] *)

Lemma not_considered_unlike (s t : string) (c : ascii) :
  last_char t = Some c -> c <> "r"%char ->
  s +:+ t <> COptionMathProblem.not_considered.
Proof.
  intros Ht Hc E. apply (f_equal last_char) in E.
  rewrite last_char_append in E by (intros ->; discriminate).
  rewrite Ht in E. vm_compute in E. congruence.
Qed.

(** [COptionMathProblem::SetValue] returns the empty string exactly on the
    lists [DIRECT], [ADJOINT] and [LINEARIZED]; then the flags depend on the
    token alone: one shot is off, restart is on exactly when adjoint or
    linearized is, and adjoint and linearized are not both on.  On every
    other list the option is left as it was.  The message of the last
    [return] of the function is never produced. *)
Theorem COptionMathProblem_SetValue_spec (option_value : list string)
    (this : COptionMathProblem.t) :
  exists msg this',
    COptionMathProblem.SetValue option_value this = Some (msg, this') /\
    msg <> COptionMathProblem.not_considered /\
    (msg = "" <->
     option_value = ["DIRECT"] \/ option_value = ["ADJOINT"] \/
     option_value = ["LINEARIZED"]) /\
    (msg = "" ->
     flags_of_option this'
     = (bool_decide (option_value = ["ADJOINT"]), false,
        bool_decide (option_value = ["LINEARIZED"]),
        bool_decide (option_value <> ["DIRECT"]))) /\
    (msg <> "" -> this' = this).
Proof.
  unfold COptionMathProblem.SetValue.
  destruct (OptionFacts.optionCheckMultipleValues_spec option_value
              "unsigned short" (COptionMathProblem.name this))
    as [[Hlen Hout] | [Hlen Hout]].
  - rewrite Hout. rewrite decide_False by (intros H; now apply H).
    destruct option_value as [|tok [|? ?]]; try discriminate.
    cbn [lookup list_lookup mbind option_bind].
    case_decide as Hmap.
    + do 2 eexists. split; [reflexivity|].
      split; [apply (not_considered_unlike _ _ "m"%char);
              [reflexivity | discriminate]|].
      split; [split|split; [|reflexivity]].
      * intros H. now apply OptionFacts.badValue_nonempty in H.
      * intros [[= ->] | [[= ->] | [= ->]]]; vm_compute in Hmap; discriminate.
      * intros H. now apply OptionFacts.badValue_nonempty in H.
    + apply Math_Problem_Map_keys in Hmap as [-> | [-> | ->]].
      * do 2 eexists. split; [reflexivity|].
        split; [discriminate|]. split; [split; auto|].
        split; [reflexivity|]. intros H. now contradict H.
      * do 2 eexists. split; [reflexivity|].
        split; [discriminate|]. split; [split; auto|].
        split; [reflexivity|]. intros H. now contradict H.
      * do 2 eexists. split; [reflexivity|].
        split; [discriminate|]. split; [split; auto|].
        split; [reflexivity|]. intros H. now contradict H.
  - rewrite decide_True by exact Hout.
    do 2 eexists. split; [reflexivity|].
    split.
    { unfold COptionBase.optionCheckMultipleValues.
      rewrite decide_True by exact Hlen.
      apply (not_considered_unlike _ _ "t"%char);
        [reflexivity | discriminate]. }
    split; [split|split; [|reflexivity]].
    + intros H. now contradict Hout.
    + intros [-> | [-> | ->]]; now contradict Hlen.
    + intros H. now contradict Hout.
Qed.

(** ** [CMathProblemRef] *)

(** Started with the adjoint, one shot and linearized flags off,
    [CMathProblemRef::SetValue] sets the four flags as
    [COptionMathProblem::SetValue] does on every token that the latter
    accepts. *)
Theorem CMathProblemRef_agrees_from_fresh_flags (tok : string)
    (rest : list string) (ref : CMathProblemRef.t)
    (this this' : COptionMathProblem.t) :
  CMathProblemRef.Adjoint_ ref = false ->
  CMathProblemRef.OneShot_ ref = false ->
  CMathProblemRef.Linearized_ ref = false ->
  COptionMathProblem.SetValue [tok] this = Some ("", this') ->
  exists ref',
    CMathProblemRef.SetValue (tok :: rest) ref = Some ref' /\
    flags_of_ref ref' = flags_of_option this'.
Proof.
  intros Ha Ho Hl.
  destruct ref as [a o l r]. simpl in Ha, Ho, Hl. subst a o l.
  unfold COptionMathProblem.SetValue, CMathProblemRef.SetValue,
    COptionBase.optionCheckMultipleValues.
  cbn [lookup list_lookup length].
  rewrite (decide_False (P := 1%nat <> 1%nat)) by lia.
  rewrite decide_False by (intros H; now apply H).
  cbn [mbind option_bind].
  case_decide as Hmap.
  - intros [= Hmsg _]. now apply OptionFacts.badValue_nonempty in Hmsg.
  - apply Math_Problem_Map_keys in Hmap as [-> | [-> | ->]];
      intros [= <-]; eexists; (split; [reflexivity|reflexivity]).
Qed.

Lemma CMathProblemRef_agrees_from_fresh_flags_witness :
  let this := {| COptionMathProblem.name := "MATH_PROBLEM";
                 COptionMathProblem.adjoint := false;
                 COptionMathProblem.oneshot := true;
                 COptionMathProblem.linearized := true;
                 COptionMathProblem.restart := false;
                 COptionMathProblem.adjoint_def := false;
                 COptionMathProblem.oneshot_def := false;
                 COptionMathProblem.linearized_def := false;
                 COptionMathProblem.restart_def := false |} in
  let ref := {| CMathProblemRef.Adjoint_ := false;
                CMathProblemRef.OneShot_ := false;
                CMathProblemRef.Linearized_ := false;
                CMathProblemRef.Restart_Flow_ := false |} in
  exists ref',
    CMathProblemRef.SetValue ["ADJOINT"] ref = Some ref' /\
    flags_of_ref ref' = (true, false, false, true).
Proof.
  intros this ref.
  apply (CMathProblemRef_agrees_from_fresh_flags "ADJOINT" [] ref this
           (COptionMathProblem.set true false false true this));
    reflexivity.
Defined.

(** The two differ otherwise: on [ADJOINT], [CMathProblemRef::SetValue]
    keeps a linearized flag that is on, and [COptionMathProblem::SetValue]
    turns it off. *)
Lemma CMathProblemRef_keeps_other_flags :
  let ref := {| CMathProblemRef.Adjoint_ := false;
                CMathProblemRef.OneShot_ := false;
                CMathProblemRef.Linearized_ := true;
                CMathProblemRef.Restart_Flow_ := true |} in
  flags_of_ref <$> CMathProblemRef.SetValue ["ADJOINT"] ref
  = Some (true, false, true, true).
Proof. reflexivity. Qed.

End SchemeFacts.

Module EnumRefFacts.

(** ** [CEnumOptionRef] *)

Lemma StringToUpperCase_idem (s : string) :
  StringToUpperCase (StringToUpperCase s) = StringToUpperCase s.
Proof.
  unfold StringToUpperCase. induction s as [|c s IH]; simpl.
  - reflexivity.
  - now rewrite UpperCaseFacts.toupper_idem, IH.
Qed.

Lemma CEnumOptionRef_loop_upper (value : list string) (rank dim : Z)
    (n i : nat) (arr : list Z) (this : CEnumOptionRef.t) :
  match CEnumOptionRef.loop value rank dim n i arr this with
  | CEnumOptionRef.Returns s =>
      CEnumOptionRef.loop (StringToUpperCase <$> value) rank dim n i arr this
      = CEnumOptionRef.Returns s
  | CEnumOptionRef.Exits code s =>
      exists tok,
        CEnumOptionRef.loop (StringToUpperCase <$> value) rank dim n i arr
          this
        = CEnumOptionRef.Exits code
            (CEnumOptionRef.not_found tok rank
               (CEnumOptionRef.with_list
                  (default [] (CEnumOptionRef.list_ s)) dim this))
  | CEnumOptionRef.Undefined =>
      CEnumOptionRef.loop (StringToUpperCase <$> value) rank dim n i arr this
      = CEnumOptionRef.Undefined
  end.
Proof.
  revert i arr.
  induction n as [|n IH]; intros i arr; cbn [CEnumOptionRef.loop].
  - reflexivity.
  - rewrite list_lookup_fmap.
    destruct (value !! i) as [tok|]; cbn [fmap option_fmap option_map];
      [|reflexivity].
    rewrite StringToUpperCase_idem.
    destruct (CEnumOptionRef.Tmap_ this !! StringToUpperCase tok) as [v|].
    + destruct (store1 arr i (Std.ushort v)) as [arr'|]; [|reflexivity].
      apply IH.
    + exists (StringToUpperCase tok). reflexivity.
Qed.

(** [CEnumOptionRef::SetValue] does not depend on the case of the letters
    of its tokens: with every token replaced by its upper-case form the call
    returns with the same state, or has no defined behaviour, or ends the
    program with the same exit code, as it does on the tokens as given (the
    diagnostic then quotes the token it is given). *)
Theorem CEnumOptionRef_case_insensitive (garbage : nat -> Z)
    (value : list string) (this : CEnumOptionRef.t) :
  match CEnumOptionRef.SetValue garbage value this with
  | CEnumOptionRef.Returns s =>
      CEnumOptionRef.SetValue garbage (StringToUpperCase <$> value) this
      = CEnumOptionRef.Returns s
  | CEnumOptionRef.Exits code s =>
      exists s',
        CEnumOptionRef.SetValue garbage (StringToUpperCase <$> value) this
        = CEnumOptionRef.Exits code s' /\
        CEnumOptionRef.scalar s' = CEnumOptionRef.scalar s /\
        CEnumOptionRef.list_ s' = CEnumOptionRef.list_ s
  | CEnumOptionRef.Undefined =>
      CEnumOptionRef.SetValue garbage (StringToUpperCase <$> value) this
      = CEnumOptionRef.Undefined
  end.
Proof.
  unfold CEnumOptionRef.SetValue.
  destruct (CEnumOptionRef.ref_dim_ this) as [d|].
  - rewrite length_fmap.
    pose proof (CEnumOptionRef_loop_upper value CEnumOptionRef.MASTER_NODE
                  (Std.ushort (Z.of_nat (length value)))
                  (Z.to_nat (Std.ushort (Z.of_nat (length value)))) 0
                  (new_ushort garbage
                     (Z.to_nat (Std.ushort (Z.of_nat (length value)))))
                  this) as H.
    destruct (CEnumOptionRef.loop value _ _ _ _ _ _) as [s|code s|] eqn:E;
      try exact H.
    destruct H as [tok H]. eexists. split; [exact H|].
    clear H. revert E.
    generalize (new_ushort garbage
                  (Z.to_nat (Std.ushort (Z.of_nat (length value))))).
    generalize 0%nat.
    generalize (Z.to_nat (Std.ushort (Z.of_nat (length value)))) as n.
    induction n as [|n IH]; intros i arr; cbn [CEnumOptionRef.loop];
      [discriminate|].
    destruct (value !! i) as [tok'|]; [|discriminate].
    destruct (CEnumOptionRef.Tmap_ this !! StringToUpperCase tok') as [v|].
    + destruct (store1 arr i (Std.ushort v)) as [arr'|]; [|discriminate].
      apply IH.
    + intros [= _ <-]. split; reflexivity.
  - rewrite list_lookup_fmap.
    destruct (value !! 0%nat) as [tok|]; cbn [fmap option_fmap option_map];
      [|reflexivity].
    rewrite StringToUpperCase_idem.
    destruct (CEnumOptionRef.Tmap_ this !! StringToUpperCase tok) as [v|].
    + reflexivity.
    + eexists. split; [reflexivity|]. split; reflexivity.
Qed.

(** [COptionEnum::SetValue], in contrast, compares the token as it is
    written. *)
Lemma COptionEnum_case_sensitive :
  let this := {| COptionEnum.m := Centered_Map; COptionEnum.field := 0;
                 COptionEnum.def := 0; COptionEnum.name := "KIND" |} in
  COptionEnum.SetValue ["jst"] this
  = Some ("KIND: invalid option value jst", this) /\
  exists this', COptionEnum.SetValue ["JST"] this = Some ("", this') /\
                COptionEnum.field this' = ENUM_CENTERED.JST.
Proof.
  intros this. split; [vm_compute; reflexivity|].
  eexists. split; [vm_compute; reflexivity|]. reflexivity.
Qed.

End EnumRefFacts.

(* ===================================================================== *)
(** * Properties of the inlet options *)
(* ===================================================================== *)

Module ParseFacts.
Import ListOptionFacts.

(** ** Arrays filled from the left *)

Lemma fill_step {A} (F I : list A) (i : nat) (x : A) :
  length F = length I -> F !! i = Some x ->
  <[i := x]> (take i F ++ drop i I) = take (S i) F ++ drop (S i) I.
Proof.
  intros Hlen Hx. pose proof (lookup_lt_Some _ _ _ Hx) as Hi.
  destruct (lookup_lt_is_Some_2 I i ltac:(lia)) as [y Hy].
  rewrite (drop_S _ _ _ Hy).
  rewrite insert_app_r_alt by (rewrite length_take; lia).
  rewrite length_take. replace (i - i `min` length F)%nat with 0%nat by lia.
  simpl. rewrite (take_S_r _ _ _ Hx). now rewrite <- app_assoc.
Qed.

Lemma length_fill {A} (F I : list A) (i : nat) :
  length F = length I -> (i <= length F)%nat ->
  length (take i F ++ drop i I) = length I.
Proof.
  intros Hlen Hi. rewrite length_app, length_take, length_drop. lia.
Qed.

Lemma lookup_fill {A} (F I : list A) (i : nat) :
  length F = length I -> (i <= length F)%nat ->
  (take i F ++ drop i I) !! i = I !! i.
Proof.
  intros Hlen Hi.
  rewrite lookup_app_r by (rewrite length_take; lia).
  rewrite length_take, lookup_drop. f_equal. lia.
Qed.

Lemma fill_all_n {X} (F I : list X) (n : nat) :
  length F = n -> length I = n -> take n F ++ drop n I = F.
Proof.
  intros HF HI. rewrite take_ge by lia. rewrite drop_ge by lia.
  apply app_nil_r.
Qed.

Lemma lookup_tabulate {A} (f : nat -> A) (k i : nat) :
  (i < k)%nat -> (f <$> seq 0 k) !! i = Some (f i).
Proof.
  intros Hi. rewrite list_lookup_fmap, lookup_seq_lt by lia. reflexivity.
Qed.

Lemma length_tabulate {A} (f : nat -> A) (k : nat) :
  length (f <$> seq 0 k) = k.
Proof. now rewrite length_fmap, length_seq. Qed.

Lemma store2_row (arr : list (list R)) (i j : nat) (row : list R) (x : R) :
  arr !! i = Some row -> (j < length row)%nat ->
  store2 arr i j x = Some (<[i := <[j := x]> row]> arr).
Proof.
  intros Hrow Hj. unfold store2. rewrite Hrow. simpl.
  now rewrite decide_True.
Qed.

(** The lengths of the arrays of a parsing loop. *)
Ltac fill_len :=
  rewrite ?length_insert; rewrite length_fill;
  rewrite ?length_replicate, ?TurbFacts.length_new_double, ?length_tabulate;
  lia.

(** ** Loops and extractions *)

Lemma loop_states {A} (body : nat -> A -> Flow.flow A) (state : nat -> A)
    (n i0 : nat) :
  (forall i, (i0 <= i < i0 + n)%nat ->
     body i (state i) = Flow.Next (state (S i))) ->
  Flow.loop body n i0 (state i0) = Flow.Next (state (i0 + n)%nat).
Proof.
  revert i0. induction n as [|n IH]; intros i0 Hbody; simpl.
  - now rewrite Nat.add_0_r.
  - rewrite Hbody by lia. simpl.
    replace (i0 + S n)%nat with (S i0 + n)%nat by lia.
    apply IH. intros i Hi. apply Hbody. lia.
Qed.

Lemma extract_reads {A} num_get (option_value : list string)
    (get_ss : A -> Stream.stringstream)
    (set_ss : Stream.stringstream -> A -> A) (msg : string) (idx : nat)
    (store : R -> A -> option A) (a : A) (tok : string) (x : R)
    (b : string) :
  option_value !! idx = Some tok ->
  Stream.reads_whole num_get tok x ->
  get_ss a = Stream.init b -> b = "" \/ b = " " ->
  Flow.extract num_get option_value get_ss set_ss msg idx store a
  = Flow.lift (store x (set_ss (Stream.init " ") a)).
Proof.
  intros Htok Hread Hss Hb. unfold Flow.extract.
  now rewrite Htok, Hss, (Hread b Hb).
Qed.

Lemma blank_left_over (i : nat) : left_over i = "" \/ left_over i = " ".
Proof. destruct i; auto. Qed.

(** ** [COptionInletFixed] *)

Section InletFixed.

Import COptionInletFixed.

Variable num_get : string -> option R * string.
Variable garbage : nat -> R.
Variable option_value : list string.
Variable option_name : string.
Variable k : nat.
Variable x : nat -> R.

Hypothesis Hlen : length option_value = (3 * k)%nat.
Hypothesis Hint : (Z.of_nat (length option_value) <= Std.INT_MAX)%Z.
Hypothesis Hnum :
  forall i j, (i < k)%nat -> (1 <= j < 3)%nat ->
    exists tok, option_value !! (3 * i + j)%nat = Some tok /\
                Stream.reads_whole num_get tok (x (3 * i + j)%nat).

Lemma InletFixed_body (i : nat) :
  (i < k)%nat ->
  body num_get option_value option_name i
       (inlet_fixed_state garbage option_value x k i)
  = Flow.Next (inlet_fixed_state garbage option_value x k (S i)).
Proof.
  intros Hi. unfold body, inlet_fixed_state.
  rewrite decide_False by lia.
  destruct (lookup_lt_is_Some_2 option_value (3 * i)) as [tok Htok]; [lia|].
  destruct (Hnum i 1%nat Hi ltac:(lia)) as (t1 & Ht1 & Hr1).
  destruct (Hnum i 2%nat Hi ltac:(lia)) as (t2 & Ht2 & Hr2).
  rewrite Htok. cbn [mbind option_bind].
  unfold set_marker. cbn [markers].
  rewrite store1_Some by fill_len.
  cbn [mbind option_bind Flow.lift Flow.andthen].
  unfold extract.
  erewrite extract_reads;
    [|exact Ht1|exact Hr1|reflexivity|apply blank_left_over].
  unfold set_ttotal. cbn [with_ss ttotals ss markers ptotals].
  rewrite store1_Some by fill_len.
  cbn [mbind option_bind Flow.lift Flow.andthen].
  erewrite extract_reads;
    [|exact Ht2|exact Hr2|reflexivity|right; reflexivity].
  unfold set_ptotal. cbn [with_ss ttotals ss markers ptotals].
  rewrite store1_Some by fill_len.
  cbn [mbind option_bind Flow.lift Flow.andthen left_over].
  f_equal. f_equal.
  - apply fill_step; [now rewrite length_tabulate, length_replicate|].
    rewrite lookup_tabulate by lia. now rewrite Htok.
  - apply fill_step;
      [now rewrite length_tabulate, TurbFacts.length_new_double|].
    now rewrite lookup_tabulate by lia.
  - apply fill_step;
      [now rewrite length_tabulate, TurbFacts.length_new_double|].
    now rewrite lookup_tabulate by lia.
Qed.

Lemma InletFixed_loop :
  Flow.loop (body num_get option_value option_name) k 0
            (allocate garbage k)
  = Flow.Next
      {| ss := Stream.init (left_over k);
         markers := (fun i => default "" (option_value !! (3 * i)%nat))
                    <$> seq 0 k;
         ttotals := (fun i => x (3 * i + 1)%nat) <$> seq 0 k;
         ptotals := (fun i => x (3 * i + 2)%nat) <$> seq 0 k |}.
Proof.
  change (allocate garbage k)
    with (inlet_fixed_state garbage option_value x k 0).
  rewrite (loop_states _ (inlet_fixed_state garbage option_value x k))
    by (intros i Hi; apply InletFixed_body; lia).
  unfold inlet_fixed_state. cbn [Nat.add].
  rewrite !fill_all_n
    by (rewrite ?length_tabulate, ?length_replicate,
          ?TurbFacts.length_new_double; reflexivity).
  reflexivity.
Qed.

End InletFixed.

(** [COptionInletFixed::SetValue] on [3*k] tokens (at most [INT_MAX]) whose
    numerals are read whole by one extraction each returns the empty string
    and stores, for every [i < k], the [3*i]-th token as the marker and the
    values of the two tokens after it as its total temperature and total
    pressure; the size is [k] as an [unsigned short]. *)
Theorem COptionInletFixed_SetValue_parses
    (num_get : string -> option R * string) (garbage : nat -> R)
    (option_value : list string) (this : COptionInletFixed.t)
    (k : nat) (x : nat -> R) :
  length option_value = (3 * k)%nat ->
  (Z.of_nat (length option_value) <= Std.INT_MAX)%Z ->
  (forall i j, (i < k)%nat -> (1 <= j < 3)%nat ->
     exists tok, option_value !! (3 * i + j)%nat = Some tok /\
                 Stream.reads_whole num_get tok (x (3 * i + j)%nat)) ->
  COptionInletFixed.SetValue num_get garbage option_value this
  = Some ("",
          {| COptionInletFixed.name := COptionInletFixed.name this;
             COptionInletFixed.size := Std.ushort (Z.of_nat k);
             COptionInletFixed.marker :=
               Some ((fun i => default "" (option_value !! (3 * i)%nat))
                     <$> seq 0 k);
             COptionInletFixed.ttotal :=
               Some ((fun i => x (3 * i + 1)%nat) <$> seq 0 k);
             COptionInletFixed.ptotal :=
               Some ((fun i => x (3 * i + 2)%nat) <$> seq 0 k) |}).
Proof.
  intros Hlen Hint Hnum. unfold COptionInletFixed.SetValue.
  rewrite decide_False
    by (intros [H1 H2]; destruct option_value as [|? [|? ?]];
        simpl in *; try lia; destruct k; simpl in *; lia).
  rewrite Hlen, (Nat.mul_comm 3 k), Nat.Div0.mod_mul.
  rewrite decide_False by (intros H; now apply H).
  rewrite Nat.div_mul by lia.
  rewrite (InletFixed_loop num_get garbage option_value _ k x)
    by (auto; lia).
  reflexivity.
Qed.

End ParseFacts.

Module InletFacts.
Import ListOptionFacts ParseFacts.

(** The value of a numeral written with digits only. *)
Lemma digits_numeral (value : list string) (j : nat) (tok : string) :
  value !! j = Some tok -> tok <> "" -> Decimal.all_digits tok = true ->
  exists tok', value !! j = Some tok' /\
    Stream.reads_whole Decimal.num_get tok'
      (IZR (Decimal.digits (default "" (value !! j)) 0 0).1.1).
Proof.
  intros Htok Hne Hdig. exists tok. split; [exact Htok|].
  rewrite Htok. simpl default. now apply DecimalFacts.digits_read_whole.
Qed.

Lemma COptionInletFixed_SetValue_parses_witness :
  let value := ["inlet"; "288"; "101325"] in
  let x := fun j => IZR (Decimal.digits (default "" (value !! j)) 0 0).1.1 in
  let this := {| COptionInletFixed.name := "MARKER_INLET";
                 COptionInletFixed.size := 0;
                 COptionInletFixed.marker := None;
                 COptionInletFixed.ttotal := None;
                 COptionInletFixed.ptotal := None |} in
  COptionInletFixed.SetValue Decimal.num_get (fun _ => 0) value this
  = Some ("",
          {| COptionInletFixed.name := "MARKER_INLET";
             COptionInletFixed.size := Std.ushort (Z.of_nat 1);
             COptionInletFixed.marker :=
               Some ((fun i => default "" (value !! (3 * i)%nat))
                     <$> seq 0 1);
             COptionInletFixed.ttotal :=
               Some ((fun i => x (3 * i + 1)%nat) <$> seq 0 1);
             COptionInletFixed.ptotal :=
               Some ((fun i => x (3 * i + 2)%nat) <$> seq 0 1) |}).
Proof.
  intros value x this.
  apply (COptionInletFixed_SetValue_parses Decimal.num_get (fun _ => 0)
           value this 1 x).
  - reflexivity.
  - vm_compute. discriminate.
  - intros i j Hi Hj.
    assert (i = 0%nat) as -> by lia.
    assert (j = 1%nat \/ j = 2%nat) as [-> | ->] by lia.
    + apply (digits_numeral value 1 "288");
        [reflexivity | discriminate | reflexivity].
    + apply (digits_numeral value 2 "101325");
        [reflexivity | discriminate | reflexivity].
Defined.

(** ** [COptionInlet] *)

Section Inlet.

Import COptionInlet.

Variable num_get : string -> option R * string.
Variable garbage : nat -> R.
Variable option_value : list string.
Variable option_name : string.
Variable k : nat.
Variable x : nat -> R.

Hypothesis Hlen : length option_value = (6 * k)%nat.
Hypothesis Hint : (Z.of_nat (length option_value) <= Std.INT_MAX)%Z.
Hypothesis Hnum :
  forall i j, (i < k)%nat -> (1 <= j < 6)%nat ->
    exists tok, option_value !! (6 * i + j)%nat = Some tok /\
                Stream.reads_whole num_get tok (x (6 * i + j)%nat).

Lemma Inlet_body (i : nat) :
  (i < k)%nat ->
  body num_get option_value option_name i
       (inlet_state garbage option_value x k i)
  = Flow.Next (inlet_state garbage option_value x k (S i)).
Proof.
  intros Hi. unfold body, inlet_state.
  rewrite decide_False by lia.
  destruct (lookup_lt_is_Some_2 option_value (6 * i)) as [tok Htok]; [lia|].
  destruct (Hnum i 1%nat Hi ltac:(lia)) as (t1 & Ht1 & Hr1).
  destruct (Hnum i 2%nat Hi ltac:(lia)) as (t2 & Ht2 & Hr2).
  destruct (Hnum i 3%nat Hi ltac:(lia)) as (t3 & Ht3 & Hr3).
  destruct (Hnum i 4%nat Hi ltac:(lia)) as (t4 & Ht4 & Hr4).
  destruct (Hnum i 5%nat Hi ltac:(lia)) as (t5 & Ht5 & Hr5).
  rewrite Htok. cbn [mbind option_bind].
  unfold set_marker. cbn [markers].
  rewrite store1_Some by fill_len.
  cbn [mbind option_bind Flow.lift Flow.andthen].
  unfold extract.
  erewrite extract_reads;
    [|exact Ht1|exact Hr1|reflexivity|apply blank_left_over].
  unfold set_ttotal. cbn [with_ss ttotals ss markers ptotals flowdirs].
  rewrite store1_Some by fill_len.
  cbn [mbind option_bind Flow.lift Flow.andthen].
  erewrite extract_reads;
    [|exact Ht2|exact Hr2|reflexivity|right; reflexivity].
  unfold set_ptotal. cbn [with_ss ttotals ss markers ptotals flowdirs].
  rewrite store1_Some by fill_len.
  cbn [mbind option_bind Flow.lift Flow.andthen].
  erewrite extract_reads;
    [|exact Ht3|exact Hr3|reflexivity|right; reflexivity].
  unfold set_flowdir. cbn [with_ss ttotals ss markers ptotals flowdirs].
  rewrite (store2_row _ _ _ (Std.new_double garbage 3))
    by (rewrite ?lookup_fill
          by (rewrite ?length_tabulate, ?length_replicate; lia);
        first [apply lookup_replicate_2; lia | simpl; lia]).
  cbn [mbind option_bind Flow.lift Flow.andthen].
  erewrite extract_reads;
    [|exact Ht4|exact Hr4|reflexivity|right; reflexivity].
  cbn [with_ss ttotals ss markers ptotals flowdirs].
  erewrite store2_row;
    [|apply list_lookup_insert_eq; fill_len|simpl; lia].
  cbn [mbind option_bind Flow.lift Flow.andthen].
  erewrite extract_reads;
    [|exact Ht5|exact Hr5|reflexivity|right; reflexivity].
  cbn [with_ss ttotals ss markers ptotals flowdirs].
  erewrite store2_row;
    [|apply list_lookup_insert_eq; fill_len|simpl; lia].
  cbn [mbind option_bind Flow.lift Flow.andthen left_over].
  rewrite !list_insert_insert_eq.
  f_equal. f_equal.
  - apply fill_step; [now rewrite length_tabulate, length_replicate|].
    rewrite lookup_tabulate by lia. now rewrite Htok.
  - apply fill_step;
      [now rewrite length_tabulate, TurbFacts.length_new_double|].
    now rewrite lookup_tabulate by lia.
  - apply fill_step;
      [now rewrite length_tabulate, TurbFacts.length_new_double|].
    now rewrite lookup_tabulate by lia.
  - apply fill_step; [now rewrite length_tabulate, length_replicate|].
    now rewrite lookup_tabulate by lia.
Qed.

Lemma Inlet_loop :
  Flow.loop (body num_get option_value option_name) k 0
            (allocate garbage k)
  = Flow.Next
      {| ss := Stream.init (left_over k);
         markers := (fun i => default "" (option_value !! (6 * i)%nat))
                    <$> seq 0 k;
         ttotals := (fun i => x (6 * i + 1)%nat) <$> seq 0 k;
         ptotals := (fun i => x (6 * i + 2)%nat) <$> seq 0 k;
         flowdirs := (fun i => [x (6 * i + 3)%nat; x (6 * i + 4)%nat;
                                x (6 * i + 5)%nat]) <$> seq 0 k |}.
Proof.
  change (allocate garbage k) with (inlet_state garbage option_value x k 0).
  rewrite (loop_states _ (inlet_state garbage option_value x k))
    by (intros i Hi; apply Inlet_body; lia).
  unfold inlet_state. cbn [Nat.add].
  rewrite !fill_all_n
    by (rewrite ?length_tabulate, ?length_replicate,
          ?TurbFacts.length_new_double; reflexivity).
  reflexivity.
Qed.

End Inlet.

(** [COptionInlet::SetValue] on [6*k] tokens (at most [INT_MAX]) whose
    numerals are read whole by one extraction each returns the empty string
    and stores, for every [i < k], the [6*i]-th token as the marker, the
    values of the next two tokens as its total temperature and total
    pressure, and the values of the last three as its flow direction; the
    size is [k] as an [unsigned short]. *)
Theorem COptionInlet_SetValue_parses
    (num_get : string -> option R * string) (garbage : nat -> R)
    (option_value : list string) (this : COptionInlet.t)
    (k : nat) (x : nat -> R) :
  length option_value = (6 * k)%nat ->
  (Z.of_nat (length option_value) <= Std.INT_MAX)%Z ->
  (forall i j, (i < k)%nat -> (1 <= j < 6)%nat ->
     exists tok, option_value !! (6 * i + j)%nat = Some tok /\
                 Stream.reads_whole num_get tok (x (6 * i + j)%nat)) ->
  COptionInlet.SetValue num_get garbage option_value this
  = Some ("",
          {| COptionInlet.name := COptionInlet.name this;
             COptionInlet.size := Std.ushort (Z.of_nat k);
             COptionInlet.marker :=
               Some ((fun i => default "" (option_value !! (6 * i)%nat))
                     <$> seq 0 k);
             COptionInlet.ttotal :=
               Some ((fun i => x (6 * i + 1)%nat) <$> seq 0 k);
             COptionInlet.ptotal :=
               Some ((fun i => x (6 * i + 2)%nat) <$> seq 0 k);
             COptionInlet.flowdir :=
               Some ((fun i => [x (6 * i + 3)%nat; x (6 * i + 4)%nat;
                                x (6 * i + 5)%nat]) <$> seq 0 k) |}).
Proof.
  intros Hlen Hint Hnum. unfold COptionInlet.SetValue.
  rewrite decide_False
    by (intros [H1 H2]; destruct option_value as [|? [|? ?]];
        simpl in *; try lia; destruct k; simpl in *; lia).
  rewrite Hlen, (Nat.mul_comm 6 k), Nat.Div0.mod_mul.
  rewrite decide_False by (intros H; now apply H).
  rewrite Nat.div_mul by lia.
  rewrite decide_False by lia.
  rewrite (Inlet_loop num_get garbage option_value _ k x)
    by (auto; lia).
  reflexivity.
Qed.

Lemma COptionInlet_SetValue_parses_witness :
  let value := ["inlet"; "288"; "101325"; "1"; "0"; "0"] in
  let x := fun j => IZR (Decimal.digits (default "" (value !! j)) 0 0).1.1 in
  let this := {| COptionInlet.name := "MARKER_INLET";
                 COptionInlet.size := 0;
                 COptionInlet.marker := None;
                 COptionInlet.ttotal := None;
                 COptionInlet.ptotal := None;
                 COptionInlet.flowdir := None |} in
  COptionInlet.SetValue Decimal.num_get (fun _ => 0) value this
  = Some ("",
          {| COptionInlet.name := "MARKER_INLET";
             COptionInlet.size := Std.ushort (Z.of_nat 1);
             COptionInlet.marker :=
               Some ((fun i => default "" (value !! (6 * i)%nat))
                     <$> seq 0 1);
             COptionInlet.ttotal :=
               Some ((fun i => x (6 * i + 1)%nat) <$> seq 0 1);
             COptionInlet.ptotal :=
               Some ((fun i => x (6 * i + 2)%nat) <$> seq 0 1);
             COptionInlet.flowdir :=
               Some ((fun i => [x (6 * i + 3)%nat; x (6 * i + 4)%nat;
                                x (6 * i + 5)%nat]) <$> seq 0 1) |}).
Proof.
  intros value x this.
  apply (COptionInlet_SetValue_parses Decimal.num_get (fun _ => 0)
           value this 1 x).
  - reflexivity.
  - vm_compute. discriminate.
  - intros i j Hi Hj.
    assert (i = 0%nat) as -> by lia.
    assert (j = 1 \/ j = 2 \/ j = 3 \/ j = 4 \/ j = 5)%nat
      as [-> | [-> | [-> | [-> | ->]]]] by lia.
    + apply (digits_numeral value 1 "288");
        [reflexivity | discriminate | reflexivity].
    + apply (digits_numeral value 2 "101325");
        [reflexivity | discriminate | reflexivity].
    + apply (digits_numeral value 3 "1");
        [reflexivity | discriminate | reflexivity].
    + apply (digits_numeral value 4 "0");
        [reflexivity | discriminate | reflexivity].
    + apply (digits_numeral value 5 "0");
        [reflexivity | discriminate | reflexivity].
Defined.

End InletFacts.

(* ===================================================================== *)
(** * More on the periodic markers *)
(* ===================================================================== *)

Module PeriodicShapeFacts.
Import COptionPeriodic.

(** ** The arrays keep their shape *)

Lemma store2_shape (arr arr' : list (list R)) (i j : nat) (x : R) :
  store2 arr i j x = Some arr' ->
  length arr' = length arr /\ (Forall len3 arr -> Forall len3 arr').
Proof.
  unfold store2.
  destruct (arr !! i) as [row|] eqn:Hrow; [|discriminate]. simpl.
  case_decide; [|discriminate]. intros [= <-].
  split; [apply length_insert|].
  intros Hall. apply Forall_insert; [exact Hall|].
  unfold len3. rewrite length_insert.
  exact (proj1 (Forall_lookup _ _) Hall _ _ Hrow).
Qed.

Lemma store_string_length (a a' : list string) (i : nat) (s : string) :
  store_string a i s = Some a' -> length a' = length a.
Proof.
  unfold store_string. case_decide; [|discriminate].
  intros [= <-]. apply length_insert.
Qed.

Lemma shaped_upd n m arr a :
  shaped n a -> length arr = length (sel m a) ->
  (Forall len3 (sel m a) -> Forall len3 arr) ->
  shaped n (upd m arr a).
Proof.
  intros (LB & LD & LC & LA & LT & FC & FA & FT) Hlen Hall.
  destruct m; unfold shaped; simpl in *; repeat split; auto; lia.
Qed.

Lemma shaped_with_ss n s a : shaped n a -> shaped n (with_ss s a).
Proof. intros H. exact H. Qed.

Section Steps.

Variable num_get : string -> option R * string.
Variable value : list string.
Variable name : string.
Variable n : nat.

Lemma assign_bound_shaped i idx a :
  shaped n a -> flow_shaped n (assign_bound value i idx a).
Proof.
  intros Ha. unfold assign_bound.
  destruct (value !! idx) as [tok|]; [|exact I].
  destruct (store_string (bound a) i tok) as [x|] eqn:E; [|exact I].
  apply store_string_length in E.
  destruct Ha as (LB & LD & LC & LA & LT & FC & FA & FT).
  simpl. repeat split; auto. simpl. lia.
Qed.

Lemma assign_donor_shaped i idx a :
  shaped n a -> flow_shaped n (assign_donor value i idx a).
Proof.
  intros Ha. unfold assign_donor.
  destruct (value !! idx) as [tok|]; [|exact I].
  destruct (store_string (donor a) i tok) as [x|] eqn:E; [|exact I].
  apply store_string_length in E.
  destruct Ha as (LB & LD & LC & LA & LT & FC & FA & FT).
  simpl. repeat split; auto. simpl. lia.
Qed.

Lemma extract_shaped idx m i j a :
  shaped n a -> flow_shaped n (extract num_get value name idx m i j a).
Proof.
  intros Ha. unfold extract.
  destruct (value !! idx) as [tok|]; [|exact I].
  destruct (Stream.get_double _ _) as [[x|] ss'].
  - destruct (store2 (sel m a) i j x) as [arr|] eqn:E; [|exact I].
    apply store2_shape in E as [Hlen Hall].
    simpl. apply shaped_upd; [exact Ha | | ].
    + destruct m; exact Hlen.
    + destruct m; exact Hall.
  - exact Ha.
Qed.

Lemma scale_shaped m i j factor a :
  shaped n a -> flow_shaped n (scale m i j factor a).
Proof.
  intros Ha. unfold scale.
  destruct (peek2 (sel m a) i j) as [x|]; [|exact I].
  destruct (store2 (sel m a) i j (x * factor)) as [arr|] eqn:E; [|exact I].
  apply store2_shape in E as [Hlen Hall].
  simpl. now apply shaped_upd.
Qed.

Lemma andthen_shaped f k :
  flow_shaped n f -> (forall a, shaped n a -> flow_shaped n (k a)) ->
  flow_shaped n (andthen f k).
Proof. intros Hf Hk. destruct f; simpl in *; auto. Qed.

Lemma direct_shaped i a :
  shaped n a -> flow_shaped n (direct num_get value name i a).
Proof.
  intros Ha. unfold direct. case_decide; [exact I|].
  repeat (apply andthen_shaped;
          [|intros; first [apply extract_shaped | apply scale_shaped
                          |apply assign_donor_shaped]; assumption]).
  now apply assign_bound_shaped.
Qed.

Lemma mirror_shaped half i a :
  shaped n a -> flow_shaped n (mirror num_get value name half i a).
Proof.
  intros Ha. unfold mirror.
  repeat (apply andthen_shaped;
          [|intros; first [apply extract_shaped | apply scale_shaped
                          |apply assign_donor_shaped]; assumption]).
  now apply assign_bound_shaped.
Qed.

Lemma loop_shaped body k : forall i a,
  (forall i a, shaped n a -> flow_shaped n (body i a)) ->
  shaped n a -> flow_shaped n (loop body k i a).
Proof.
  induction k as [|k IH]; intros i a Hbody Ha; simpl.
  - exact Ha.
  - apply andthen_shaped; [now apply Hbody|].
    intros a' Ha'. now apply IH.
Qed.

End Steps.

Lemma shaped_allocate garbage n : shaped n (allocate garbage n).
Proof.
  destruct (PeriodicFacts.ready_allocate garbage n) as (_ & H). exact H.
Qed.

(** Whatever the tokens are, when [COptionPeriodic::SetValue] returns,
    with or without a message, either the size is 0 and the five arrays are
    [NULL], or the five arrays are allocated with the same even number of
    entries, each row of the centres, angles and translations has three
    cells, and the size is that number as an [unsigned short]. *)
Theorem COptionPeriodic_SetValue_shape
    (num_get : string -> option R * string) (garbage : nat -> R)
    (value : list string) (this this' : t) (msg : string) :
  SetValue num_get garbage value this = Some (msg, this') ->
  (size this' = 0%Z /\
   marker_bound this' = None /\ marker_donor this' = None /\
   rot_center this' = None /\ rot_angles this' = None /\
   translation this' = None)
  \/
  (exists (k : nat) B D C A T,
     size this' = Std.ushort (Z.of_nat (2 * k)) /\
     marker_bound this' = Some B /\ marker_donor this' = Some D /\
     rot_center this' = Some C /\ rot_angles this' = Some A /\
     translation this' = Some T /\
     length B = (2 * k)%nat /\ length D = (2 * k)%nat /\
     length C = (2 * k)%nat /\ length A = (2 * k)%nat /\
     length T = (2 * k)%nat /\
     Forall len3 C /\ Forall len3 A /\ Forall len3 T).
Proof.
  unfold SetValue.
  case_decide as Hnone; [intros [= <- <-]; left; now repeat split|].
  case_decide as Hmod; [intros [= <- <-]; left; now repeat split|].
  case_decide as Hint; [discriminate|].
  set (k := (length value / mod_num)%nat).
  assert (Hflow :
    flow_shaped (2 * k)
      (andthen
         (loop (direct num_get value (name this)) (2 * k / 2) 0
               (allocate garbage (2 * k)))
         (loop (mirror num_get value (name this) (2 * k / 2))
               (2 * k - 2 * k / 2) (2 * k / 2)))).
  { apply andthen_shaped.
    - apply loop_shaped; [|apply shaped_allocate].
      intros. now apply direct_shaped.
    - intros a Ha. apply loop_shaped; [|exact Ha].
      intros. now apply mirror_shaped. }
  destruct (andthen _ _) as [a|m a|]; [| |discriminate];
    intros [= <- <-]; right;
    destruct Hflow as (LB & LD & LC & LA & LT & FC & FA & FT);
    exists k, (bound a), (donor a), (center a), (angles a), (trans a);
    now repeat split.
Qed.

Lemma COptionPeriodic_SetValue_shape_witness :
  exists msg this',
    SetValue Decimal.num_get (fun _ => 0) bad_center periodic_option
    = Some (msg, this') /\
    msg = "MARKER_PERIODIC: improper option value for type periodic" /\
    ((size this' = 0%Z /\
      marker_bound this' = None /\ marker_donor this' = None /\
      rot_center this' = None /\ rot_angles this' = None /\
      translation this' = None)
     \/
     (exists (k : nat) B D C A T,
        size this' = Std.ushort (Z.of_nat (2 * k)) /\
        marker_bound this' = Some B /\ marker_donor this' = Some D /\
        rot_center this' = Some C /\ rot_angles this' = Some A /\
        translation this' = Some T /\
        length B = (2 * k)%nat /\ length D = (2 * k)%nat /\
        length C = (2 * k)%nat /\ length A = (2 * k)%nat /\
        length T = (2 * k)%nat /\
        Forall len3 C /\ Forall len3 A /\ Forall len3 T)).
Proof.
  assert (Hrun :
    SetValue Decimal.num_get (fun _ => 0) bad_center periodic_option
    = Some ("MARKER_PERIODIC: improper option value for type periodic",
            {| name := "MARKER_PERIODIC"; size := 2;
               marker_bound := Some ["lower"; ""];
               marker_donor := Some ["upper"; ""];
               rot_center := Some [[0; 0; 0]; [0; 0; 0]];
               rot_angles := Some [[0; 0; 0]; [0; 0; 0]];
               translation := Some [[0; 0; 0]; [0; 0; 0]] |}))
    by reflexivity.
  do 2 eexists. split; [exact Hrun|]. split; [reflexivity|].
  exact (COptionPeriodic_SetValue_shape _ _ _ _ _ _ Hrun).
Defined.

End PeriodicShapeFacts.

Module PeriodicRefFacts.
Import CMarkerPeriodicRef.

(** ** [CMarkerPeriodicRef]: a second call *)

(** [CMarkerPeriodicRef::SetValue] can fill the arrays only once: after a
    call that has returned on a list whose length is a multiple of 11, the
    empty list too, every further call, whatever its tokens are, the token
    [NONE] too, writes its diagnostic and throws, and leaves the marker
    count and the five arrays as the first call left them. *)
Theorem CMarkerPeriodicRef_second_call_throws
    (num_get : string -> option R * string) (garbage : nat -> R)
    (value value' : list string) (this this' : t) :
  Z.rem (Std.to_int (Z.of_nat (length value))) 11 = 0%Z ->
  SetValue num_get garbage value this = Std.Returns this' ->
  SetValue num_get garbage value' this'
  = Std.Throws (-1)
      (print ("Error in CMarkerPeriodicRef::SetValue(): "
              +:+ "one or more periodic-marker option arrays have already been allocated."
              +:+ Std.endl) this').
Proof.
  intros Hrem. unfold SetValue at 1.
  match goal with
  | |- (if ?c then _ else _) = _ -> _ => destruct c; [discriminate|]
  end.
  rewrite decide_False by (intros H; now apply H).
  destruct (loop _ _ _ _ _) as [l|]; [|discriminate].
  intros [= <-]. reflexivity.
Qed.

Lemma CMarkerPeriodicRef_second_call_throws_witness :
  exists this',
    SetValue Decimal.num_get (fun _ => 0) [] fresh_periodic_ref
    = Std.Returns this' /\
    nMarker_PerBound_ this' = 0%Z /\
    SetValue Decimal.num_get (fun _ => 0) ["NONE"] this'
    = Std.Throws (-1)
        (print ("Error in CMarkerPeriodicRef::SetValue(): "
                +:+ "one or more periodic-marker option arrays have already been allocated."
                +:+ Std.endl) this').
Proof.
  assert (Hrun :
    SetValue Decimal.num_get (fun _ => 0) [] fresh_periodic_ref
    = Std.Returns {| nMarker_PerBound_ := 0;
                     Marker_PerBound_ := Some [];
                     Marker_PerDonor_ := Some [];
                     Periodic_RotCenter_ := Some [];
                     Periodic_RotAngles_ := Some [];
                     Periodic_Translation_ := Some [];
                     cerr := "" |})
    by reflexivity.
  eexists. split; [exact Hrun|]. split; [reflexivity|].
  exact (CMarkerPeriodicRef_second_call_throws Decimal.num_get (fun _ => 0)
           [] ["NONE"] fresh_periodic_ref _ eq_refl Hrun).
Defined.

End PeriodicRefFacts.

(* ===================================================================== *)
(** * The two parsers of the design-variable parameters *)
(* ===================================================================== *)

Module DVParamFacts.

Section Agreement.

Variable num_get : string -> option R * string.
Variable value : list string.
Variable option_name : string.

Lemma params_forget (n iDV : nat) : forall iParamDV l,
  COptionDVParam.params num_get value n iDV iParamDV (forget l)
  = forget <$> CDVParamOptionRef.params num_get value n iDV iParamDV l.
Proof.
  induction n as [|n IH]; intros iParamDV l.
  - reflexivity.
  - cbn [COptionDVParam.params CDVParamOptionRef.params].
    cbn [forget COptionDVParam.i COptionDVParam.ss COptionDVParam.rows
         COptionDVParam.nParamDV].
    destruct (value !! CDVParamOptionRef.i l) as [tok|]; [|reflexivity].
    cbn [mbind option_bind].
    destruct (Stream.get_double _ _) as [r ss'].
    destruct (match r with
              | Some x => store2 (CDVParamOptionRef.rows l) iDV iParamDV x
              | None =>
                  if peek2 (CDVParamOptionRef.rows l) iDV iParamDV is Some _
                  then Some (CDVParamOptionRef.rows l) else None
              end) as [rows'|]; [|reflexivity].
    cbn [mbind option_bind]. apply (IH _ (CDVParamOptionRef.mkLocals _ _ _ _ _)).
Qed.

Lemma variable_forget (nDV : Z) (kinds : option (list Z)) (iDV : nat) l :
  kinds_known kinds ->
  COptionDVParam.variable num_get value option_name nDV kinds iDV (forget l)
  = translate option_name
      (CDVParamOptionRef.variable num_get value nDV kinds iDV l).
Proof.
  intros Hk. unfold COptionDVParam.variable, CDVParamOptionRef.variable.
  destruct (kinds ≫= (.!! iDV)) as [kind|] eqn:Hkind; [|reflexivity].
  destruct (Hk _ _ Hkind) as [n Hn]. rewrite Hn.
  cbn [CDVParamOptionRef.nParamDV].
  change {| COptionDVParam.ss := COptionDVParam.ss (forget l);
            COptionDVParam.i := COptionDVParam.i (forget l);
            COptionDVParam.nParamDV := n;
            COptionDVParam.rows := COptionDVParam.rows (forget l) |}
    with (forget {| CDVParamOptionRef.ss := CDVParamOptionRef.ss l;
                    CDVParamOptionRef.i := CDVParamOptionRef.i l;
                    CDVParamOptionRef.nParamDV := n;
                    CDVParamOptionRef.rows := CDVParamOptionRef.rows l;
                    CDVParamOptionRef.err := CDVParamOptionRef.err l |}).
  rewrite params_forget.
  destruct (CDVParamOptionRef.params _ _ _ _ _ _) as [l2|]; [|reflexivity].
  cbn [fmap option_fmap option_map].
  case_decide; [|reflexivity].
  cbn [forget COptionDVParam.i].
  destruct (value !! CDVParamOptionRef.i l2) as [tok|]; [|reflexivity].
  case_decide; reflexivity.
Qed.

Lemma loop_forget (nDV : Z) (kinds : option (list Z)) (n : nat) :
  forall iDV l,
    kinds_known kinds ->
    Flow.loop (COptionDVParam.variable num_get value option_name nDV kinds)
              n iDV (forget l)
    = translate option_name
        (CDVParamOptionRef.loop num_get value nDV kinds n iDV l).
Proof.
  induction n as [|n IH]; intros iDV l Hk.
  - reflexivity.
  - cbn [Flow.loop CDVParamOptionRef.loop].
    rewrite variable_forget by exact Hk.
    destruct (CDVParamOptionRef.variable _ _ _ _ _ _) as [l'|code l'|];
      cbn [translate Flow.andthen]; [|reflexivity|reflexivity].
    now apply IH.
Qed.

End Agreement.

Lemma count_nDV_no_end_semicolon (value : list string) (first last : string) :
  value !! 0%nat = Some first ->
  value !! (length value - 1)%nat = Some last ->
  first <> ";" -> last <> ";" ->
  CDVParamOptionRef.count_nDV value
  = Some (Std.ushort (CDVParamOptionRef.count_semi value + 1)).
Proof.
  intros Hf Hl Hnf Hnl. unfold CDVParamOptionRef.count_nDV.
  rewrite Hf, Hl. cbn [mbind option_bind].
  rewrite (decide_True (P := first <> ";" /\ last <> ";")) by tauto.
  rewrite (decide_False (P := first = ";" /\ last = ";")) by tauto.
  reflexivity.
Qed.

(** [COptionDVParam::SetValue] and [CDVParamOptionRef::SetValue] parse
    alike.  On a list that is not the single token [NONE] and has no
    semicolon at either end, with every declared kind of design variable
    one that the [switch] knows: when the latter returns, the former
    returns the empty string with the same number of design variables and
    the same parameter rows; when the latter throws, the former returns a
    message, again with the same number and rows; when the behaviour of
    the latter is not defined, neither is that of the former. *)
Theorem COptionDVParam_agrees_with_CDVParamOptionRef
    (num_get : string -> option R * string) (garbage : nat -> R)
    (value : list string) (option_name : string)
    (ref : CDVParamOptionRef.t) (first last : string) :
  ~ is_NONE value ->
  value !! 0%nat = Some first ->
  value !! (length value - 1)%nat = Some last ->
  first <> ";" -> last <> ";" ->
  kinds_known (CDVParamOptionRef.Design_Variable_ ref) ->
  match CDVParamOptionRef.SetValue num_get garbage value ref with
  | Std.Returns ref' =>
      COptionDVParam.SetValue num_get garbage value (of_ref option_name ref)
      = Some ("", of_ref option_name ref')
  | Std.Throws code ref' =>
      code = (-1)%Z /\
      exists msg,
        msg <> "" /\
        COptionDVParam.SetValue num_get garbage value (of_ref option_name ref)
        = Some (msg, of_ref option_name ref')
  | Std.Undefined =>
      COptionDVParam.SetValue num_get garbage value (of_ref option_name ref)
      = None
  end.
Proof.
  intros Hnone Hf Hl Hnf Hnl Hk.
  unfold CDVParamOptionRef.SetValue, COptionDVParam.SetValue.
  rewrite (count_nDV_no_end_semicolon value first last) by assumption.
  rewrite decide_False by exact Hnone.
  rewrite Hf. cbn [mbind option_bind].
  rewrite decide_False by exact Hnf.
  rewrite Hl. cbn [mbind option_bind].
  rewrite decide_False by exact Hnl.
  cbn [of_ref COptionDVParam.design_variable COptionDVParam.name].
  set (nDV := Std.ushort (CDVParamOptionRef.count_semi value + 1)).
  destruct (bool_decide (0 < nDV)%Z
            && is_null (CDVParamOptionRef.Design_Variable_ ref)).
  - split; [reflexivity|]. eexists. split; [|reflexivity].
    apply OptionFacts.append_nonempty_r. discriminate.
  - change {| COptionDVParam.ss := Stream.empty; COptionDVParam.i := 0;
              COptionDVParam.nParamDV := 0;
              COptionDVParam.rows :=
                replicate (Z.to_nat nDV)
                          (Std.new_double garbage MAX_PARAMETERS) |}
      with (forget {| CDVParamOptionRef.ss := Stream.empty;
                      CDVParamOptionRef.i := 0;
                      CDVParamOptionRef.nParamDV := 0;
                      CDVParamOptionRef.rows :=
                        replicate (Z.to_nat nDV)
                                  (Std.new_double garbage MAX_PARAMETERS);
                      CDVParamOptionRef.err := CDVParamOptionRef.cerr ref |}).
    rewrite loop_forget by exact Hk.
    destruct (CDVParamOptionRef.loop _ _ _ _ _ _ _) as [l|code l|] eqn:E;
      cbn [translate].
    + reflexivity.
    + split.
      * clear -E. revert E.
        generalize 0%nat at 1.
        generalize (CDVParamOptionRef.mkLocals Stream.empty 0 0
                      (replicate (Z.to_nat nDV)
                         (Std.new_double garbage MAX_PARAMETERS))
                      (CDVParamOptionRef.cerr ref)).
        generalize (Z.to_nat nDV) as n.
        induction n as [|n IH]; intros l0 iDV;
          cbn [CDVParamOptionRef.loop]; [discriminate|].
        destruct (CDVParamOptionRef.variable _ _ _ _ _ _)
          as [l'|code' l'|] eqn:Ev.
        -- apply IH.
        -- intros [= <- _]. revert Ev.
           unfold CDVParamOptionRef.variable.
           destruct (_ ≫= _) as [kind|]; [|discriminate].
           destruct (CDVParamOptionRef.params _ _ _ _ _ _) as [l2|];
             [|discriminate].
           case_decide; [|discriminate].
           destruct (value !! _) as [tok|]; [|discriminate].
           case_decide; [|discriminate]. now intros [= <- _].
        -- discriminate.
      * eexists. split; [|reflexivity].
        apply OptionFacts.append_nonempty_r. discriminate.
    + reflexivity.
Qed.

Lemma COptionDVParam_agrees_with_CDVParamOptionRef_witness :
  match CDVParamOptionRef.SetValue Decimal.num_get (fun _ => 0)
          ["1"; "5"] one_bump with
  | Std.Returns ref' =>
      COptionDVParam.SetValue Decimal.num_get (fun _ => 0) ["1"; "5"]
        (of_ref "DV_PARAM" one_bump)
      = Some ("", of_ref "DV_PARAM" ref')
  | Std.Throws code ref' =>
      code = (-1)%Z /\
      exists msg,
        msg <> "" /\
        COptionDVParam.SetValue Decimal.num_get (fun _ => 0) ["1"; "5"]
          (of_ref "DV_PARAM" one_bump)
        = Some (msg, of_ref "DV_PARAM" ref')
  | Std.Undefined =>
      COptionDVParam.SetValue Decimal.num_get (fun _ => 0) ["1"; "5"]
        (of_ref "DV_PARAM" one_bump)
      = None
  end.
Proof.
  apply (COptionDVParam_agrees_with_CDVParamOptionRef Decimal.num_get
           (fun _ => 0) ["1"; "5"] "DV_PARAM" one_bump "1" "5").
  - intros [Hlen _]. simpl in Hlen. lia.
  - reflexivity.
  - reflexivity.
  - discriminate.
  - discriminate.
  - intros j kind. destruct j as [|j]; simpl.
    + intros [= <-]. eexists. reflexivity.
    + destruct j; discriminate.
Defined.

End DVParamFacts.

Module PairsFacts.
Import ListOptionFacts ParseFacts.

(** ** [COptionDVParam]: semicolons at the ends *)

(** [COptionDVParam::SetValue] refuses a list that starts or ends with a
    semicolon: it returns a message and leaves the option as it was, the
    number of design variables too. *)
Theorem COptionDVParam_rejects_end_semicolons
    (num_get : string -> option R * string) (garbage : nat -> R)
    (value : list string) (this : COptionDVParam.t) :
  value !! 0%nat = Some ";" \/ value !! (length value - 1)%nat = Some ";" ->
  exists msg,
    msg <> "" /\
    COptionDVParam.SetValue num_get garbage value this = Some (msg, this).
Proof.
  intros Hends. unfold COptionDVParam.SetValue.
  rewrite decide_False.
  2:{ intros [Hlen H0]. destruct value as [|tok [|? ?]]; try discriminate.
      simpl in *. destruct Hends; congruence. }
  destruct (value !! 0%nat) as [first|] eqn:Hf.
  2:{ destruct value; [|discriminate]. simpl in Hends.
      destruct Hends; discriminate. }
  cbn [mbind option_bind].
  case_decide as Hfirst.
  - eexists. split; [|reflexivity].
    apply OptionFacts.append_nonempty_r. discriminate.
  - destruct Hends as [[= ->] | Hl]; [congruence|].
    rewrite Hl. cbn [mbind option_bind].
    rewrite decide_True by reflexivity.
    eexists. split; [|reflexivity].
    apply OptionFacts.append_nonempty_r. discriminate.
Qed.

Lemma COptionDVParam_rejects_end_semicolons_witness :
  let this := of_ref "DV_PARAM" one_bump in
  exists msg,
    msg <> "" /\
    COptionDVParam.SetValue Decimal.num_get (fun _ => 0) ["1"; "5"; ";"] this
    = Some (msg, this).
Proof.
  intros this.
  apply (COptionDVParam_rejects_end_semicolons Decimal.num_get (fun _ => 0)
           ["1"; "5"; ";"] this).
  right. reflexivity.
Defined.

(** [CDVParamOptionRef::SetValue] accepts the same list. *)
Lemma CDVParamOptionRef_accepts_end_semicolon :
  exists ref',
    CDVParamOptionRef.SetValue Decimal.num_get (fun _ => 0) ["1"; "5"; ";"]
      one_bump
    = Std.Returns ref' /\
    CDVParamOptionRef.nDV_ ref' = 1%Z.
Proof.
  eexists. split; [vm_compute; reflexivity | reflexivity].
Qed.

(** ** [COptionStringDoubleList] *)

Section StringDouble.

Import COptionStringDoubleList.

Variable num_get : string -> option R * string.
Variable garbage : nat -> R.
Variable option_value : list string.
Variable option_name : string.
Variable k : nat.
Variable x : nat -> R.

Hypothesis Hlen : length option_value = (2 * k)%nat.
Hypothesis Hint : (Z.of_nat (length option_value) <= Std.INT_MAX)%Z.
Hypothesis Hnum :
  forall i, (i < k)%nat ->
    exists tok, option_value !! (2 * i + 1)%nat = Some tok /\
                COptionDoubleList.convert num_get tok = Some (x i).

Lemma StringDouble_body (i : nat) :
  (i < k)%nat ->
  body num_get option_value option_name i
       (string_double_state garbage option_value x k i)
  = Flow.Next (string_double_state garbage option_value x k (S i)).
Proof.
  intros Hi. unfold body, string_double_state.
  rewrite decide_False by lia.
  destruct (lookup_lt_is_Some_2 option_value (2 * i)) as [tok Htok]; [lia|].
  destruct (Hnum i Hi) as (t1 & Ht1 & Hr1).
  rewrite Htok, Ht1. cbn [strings doubles].
  rewrite store1_Some by fill_len.
  rewrite Hr1.
  rewrite store1_Some by fill_len.
  cbn [mbind option_bind Flow.lift].
  f_equal. f_equal.
  - apply fill_step; [now rewrite length_tabulate, length_replicate|].
    rewrite lookup_tabulate by lia. now rewrite Htok.
  - apply fill_step;
      [now rewrite length_tabulate, TurbFacts.length_new_double|].
    now rewrite lookup_tabulate by lia.
Qed.

Lemma StringDouble_loop :
  Flow.loop (body num_get option_value option_name) k 0
            {| strings := replicate k "";
               doubles := Std.new_double garbage k |}
  = Flow.Next
      {| strings := (fun i => default "" (option_value !! (2 * i)%nat))
                    <$> seq 0 k;
         doubles := x <$> seq 0 k |}.
Proof.
  change {| strings := replicate k "";
            doubles := Std.new_double garbage k |}
    with (string_double_state garbage option_value x k 0).
  rewrite (loop_states _ (string_double_state garbage option_value x k))
    by (intros i Hi; apply StringDouble_body; lia).
  unfold string_double_state. cbn [Nat.add].
  rewrite !fill_all_n
    by (rewrite ?length_tabulate, ?length_replicate,
          ?TurbFacts.length_new_double; reflexivity).
  reflexivity.
Qed.

End StringDouble.

(** [COptionStringDoubleList::SetValue] on [2*k] tokens (at most
    [INT_MAX]) of which every second one converts, taken alone, returns the
    empty string and stores the tokens at the even places as the strings
    and the values of the tokens at the odd places as the doubles, in the
    order of the list; the size is [k] as an [unsigned short]. *)
Theorem COptionStringDoubleList_SetValue_pairs
    (num_get : string -> option R * string) (garbage : nat -> R)
    (option_value : list string) (this : COptionStringDoubleList.t)
    (k : nat) (x : nat -> R) :
  length option_value = (2 * k)%nat ->
  (Z.of_nat (length option_value) <= Std.INT_MAX)%Z ->
  (forall i, (i < k)%nat ->
     exists tok, option_value !! (2 * i + 1)%nat = Some tok /\
                 COptionDoubleList.convert num_get tok = Some (x i)) ->
  COptionStringDoubleList.SetValue num_get garbage option_value this
  = Some ("",
          {| COptionStringDoubleList.name :=
               COptionStringDoubleList.name this;
             COptionStringDoubleList.size := Std.ushort (Z.of_nat k);
             COptionStringDoubleList.s_f :=
               Some ((fun i => default "" (option_value !! (2 * i)%nat))
                     <$> seq 0 k);
             COptionStringDoubleList.d_f := Some (x <$> seq 0 k) |}).
Proof.
  intros Hlen Hint Hnum. unfold COptionStringDoubleList.SetValue.
  rewrite Hlen, (Nat.mul_comm 2 k), Nat.Div0.mod_mul.
  rewrite decide_False by (intros H; now apply H).
  rewrite Nat.div_mul by lia.
  rewrite (StringDouble_loop num_get garbage option_value _ k x)
    by (auto; lia).
  reflexivity.
Qed.

Lemma COptionStringDoubleList_SetValue_pairs_witness :
  let value := ["wing"; "1"; "tail"; "0"] in
  let x := fun i : nat => if i is O then 1 else 0 in
  let this := {| COptionStringDoubleList.name := "MARKER_EULER";
                 COptionStringDoubleList.size := 0;
                 COptionStringDoubleList.s_f := None;
                 COptionStringDoubleList.d_f := None |} in
  COptionStringDoubleList.SetValue Decimal.num_get (fun _ => 0) value this
  = Some ("",
          {| COptionStringDoubleList.name := "MARKER_EULER";
             COptionStringDoubleList.size := Std.ushort (Z.of_nat 2);
             COptionStringDoubleList.s_f :=
               Some ((fun i => default "" (value !! (2 * i)%nat))
                     <$> seq 0 2);
             COptionStringDoubleList.d_f := Some (x <$> seq 0 2) |}).
Proof.
  intros value x this.
  apply (COptionStringDoubleList_SetValue_pairs Decimal.num_get
           (fun _ => 0) value this 2 x).
  - reflexivity.
  - vm_compute. discriminate.
  - intros i Hi.
    assert (i = 0 \/ i = 1)%nat as [-> | ->] by lia.
    + exists "1". split; [reflexivity|].
      unfold COptionDoubleList.convert, Stream.get_double. simpl.
      unfold Decimal.to_R. simpl. reflexivity.
    + exists "0". split; [reflexivity|].
      unfold COptionDoubleList.convert, Stream.get_double. simpl.
      unfold Decimal.to_R. simpl. reflexivity.
Defined.

End PairsFacts.

(* ===================================================================== *)
(** * [CMarkerPeriodicRef] on well-formed tokens *)
(* ===================================================================== *)

Module PeriodicRefParseFacts.
Import ListOptionFacts ParseFacts SchemeFacts.
Import CMarkerPeriodicRef.

(** ** Words *)

Lemma word_append (s : string) :
  no_space s = true -> Stream.word (s +:+ " ") = (s, " ").
Proof.
  induction s as [|c s IH]; simpl; [reflexivity|].
  intros [Hc Hs]%andb_prop. apply negb_true_iff in Hc.
  rewrite Hc. change (s +:+ " ") with (s +:+ " ") in IH.
  now rewrite (IH Hs).
Qed.

(** A word is read whole by an extraction into a string. *)
Lemma get_string_word (tok b : string) :
  is_word tok = true -> b = "" \/ b = " " ->
  Stream.get_string (Stream.put " " (Stream.put tok (Stream.init b)))
  = (Some tok, Stream.init " ").
Proof.
  intros [Hne Hns]%andb_prop Hb.
  destruct tok as [|c tok]; [discriminate|]. clear Hne.
  pose proof Hns as Hcs. simpl in Hcs. apply andb_prop in Hcs as [Hc _].
  apply negb_true_iff in Hc.
  assert (Eput : Stream.put " " (Stream.put (String c tok) (Stream.init b))
                 = Stream.init (b +:+ String c (tok +:+ " "))).
  { destruct Hb as [-> | ->]; reflexivity. }
  rewrite Eput. unfold Stream.get_string.
  assert (Eskip : Stream.skipws (b +:+ String c (tok +:+ " "))
                  = String c (tok +:+ " ")).
  { destruct Hb as [-> | ->]; simpl; now rewrite Hc. }
  simpl Stream.good. cbn iota. simpl Stream.buffer. rewrite Eskip.
  change (String c (tok +:+ " ")) with (String c tok +:+ " ").
  rewrite (word_append _ Hns). reflexivity.
Qed.

(** ** The steps of the loop *)

Section Steps.

Variable num_get : string -> option R * string.
Variable value : list string.

Lemma read_string_ok (w : names) (iM idx : nat) (tok b : string)
    (B D : list string) (C A T : list (list R)) :
  (Z.of_nat idx + 1 < 65536)%Z ->
  value !! idx = Some tok -> is_word tok = true ->
  b = "" \/ b = " " ->
  (iM < length (match w with Bound => B | Donor => D end))%nat ->
  read_string value w iM
    {| ss := Stream.init b; i := Z.of_nat idx;
       bound := B; donor := D; center := C; angles := A; trans := T |}
  = Some {| ss := Stream.init " "; i := Z.of_nat (S idx);
            bound := match w with Bound => <[iM := tok]> B | Donor => B end;
            donor := match w with Bound => D | Donor => <[iM := tok]> D end;
            center := C; angles := A; trans := T |}.
Proof.
  intros Hidx Htok Hword Hb Hlen. unfold read_string.
  cbn [i ss bound donor center angles trans].
  rewrite Nat2Z.id, Htok. cbn [mbind option_bind].
  rewrite (get_string_word tok b Hword Hb).
  rewrite ushort_small by lia.
  replace (Z.of_nat idx + 1)%Z with (Z.of_nat (S idx)) by lia.
  unfold store_string.
  destruct w; rewrite decide_True by exact Hlen; reflexivity.
Qed.

Lemma read_double_ok (m : member) (iM j idx : nat) (tok b : string) (x : R)
    (B D : list string) (C A T : list (list R)) (row : list R) :
  (Z.of_nat idx + 1 < 65536)%Z ->
  value !! idx = Some tok -> Stream.reads_whole num_get tok x ->
  b = "" \/ b = " " ->
  match m with Center => C | Angles => A | Trans => T end !! iM = Some row ->
  (j < length row)%nat ->
  read_double num_get value m iM j
    {| ss := Stream.init b; i := Z.of_nat idx;
       bound := B; donor := D; center := C; angles := A; trans := T |}
  = Some {| ss := Stream.init " "; i := Z.of_nat (S idx);
            bound := B; donor := D;
            center := match m with
                      | Center => <[iM := <[j := x]> row]> C | _ => C end;
            angles := match m with
                      | Angles => <[iM := <[j := x]> row]> A | _ => A end;
            trans := match m with
                     | Trans => <[iM := <[j := x]> row]> T | _ => T end |}.
Proof.
  intros Hidx Htok Hread Hb Hrow Hj. unfold read_double.
  cbn [i ss bound donor center angles trans].
  rewrite Nat2Z.id, Htok. cbn [mbind option_bind].
  rewrite (Hread b Hb).
  rewrite ushort_small by lia.
  replace (Z.of_nat idx + 1)%Z with (Z.of_nat (S idx)) by lia.
  destruct m; cbn [sel center angles trans];
    rewrite (store2_row _ _ _ _ _ Hrow Hj); reflexivity.
Qed.

Lemma scale_ok (m : member) (iM j : nat) (factor x : R)
    (s : Stream.stringstream) (idx : Z)
    (B D : list string) (C A T : list (list R)) (row : list R) :
  match m with Center => C | Angles => A | Trans => T end !! iM = Some row ->
  row !! j = Some x ->
  scale m iM j factor
    {| ss := s; i := idx;
       bound := B; donor := D; center := C; angles := A; trans := T |}
  = Some {| ss := s; i := idx; bound := B; donor := D;
            center := match m with
                      | Center => <[iM := <[j := x * factor]> row]> C
                      | _ => C end;
            angles := match m with
                      | Angles => <[iM := <[j := x * factor]> row]> A
                      | _ => A end;
            trans := match m with
                     | Trans => <[iM := <[j := x * factor]> row]> T
                     | _ => T end |}.
Proof.
  intros Hrow Hx. unfold scale, peek2.
  pose proof (lookup_lt_Some _ _ _ Hx) as Hj.
  destruct m; cbn [sel center angles trans];
    rewrite Hrow; cbn [mbind option_bind]; rewrite Hx;
    cbn [mbind option_bind];
    rewrite (store2_row _ _ _ _ _ Hrow Hj); reflexivity.
Qed.

Variable x : nat -> R.

(** One pass of the loop. *)
Lemma entry_ok (iM : nat) (b tb td : string)
    (B D : list string) (C A T : list (list R)) (rc ra rt : list R) :
  (Z.of_nat (11 * iM + 11) < 65536)%Z ->
  b = "" \/ b = " " ->
  (iM < length B)%nat -> (iM < length D)%nat ->
  C !! iM = Some rc -> A !! iM = Some ra -> T !! iM = Some rt ->
  length rc = 3%nat -> length ra = 3%nat -> length rt = 3%nat ->
  value !! (11 * iM)%nat = Some tb -> is_word tb = true ->
  value !! (11 * iM + 1)%nat = Some td -> is_word td = true ->
  (forall j, (2 <= j < 11)%nat ->
     exists tok, value !! (11 * iM + j)%nat = Some tok /\
                 Stream.reads_whole num_get tok (x (11 * iM + j)%nat)) ->
  entry num_get value iM
    {| ss := Stream.init b; i := Z.of_nat (11 * iM);
       bound := B; donor := D; center := C; angles := A; trans := T |}
  = Some {| ss := Stream.init " "; i := Z.of_nat (11 * S iM);
            bound := <[iM := tb]> B; donor := <[iM := td]> D;
            center := <[iM := [x (11 * iM + 2); x (11 * iM + 3);
                               x (11 * iM + 4)]%nat]> C;
            angles := <[iM := [x (11 * iM + 5)%nat * deg2rad;
                               x (11 * iM + 6)%nat * deg2rad;
                               x (11 * iM + 7)%nat * deg2rad]]> A;
            trans := <[iM := [x (11 * iM + 8); x (11 * iM + 9);
                              x (11 * iM + 10)]%nat]> T |}.
Proof.
  intros Hint Hb LB LD HC HA HT Lc La Lt Htb Wtb Htd Wtd Hnum.
  destruct rc as [|c0 [|c1 [|c2 [|? ?]]]]; try discriminate.
  destruct ra as [|a0 [|a1 [|a2 [|? ?]]]]; try discriminate.
  destruct rt as [|t0 [|t1 [|t2 [|? ?]]]]; try discriminate.
  destruct (Hnum 2%nat ltac:(lia)) as (k2 & E2 & R2).
  destruct (Hnum 3%nat ltac:(lia)) as (k3 & E3 & R3).
  destruct (Hnum 4%nat ltac:(lia)) as (k4 & E4 & R4).
  destruct (Hnum 5%nat ltac:(lia)) as (k5 & E5 & R5).
  destruct (Hnum 6%nat ltac:(lia)) as (k6 & E6 & R6).
  destruct (Hnum 7%nat ltac:(lia)) as (k7 & E7 & R7).
  destruct (Hnum 8%nat ltac:(lia)) as (k8 & E8 & R8).
  destruct (Hnum 9%nat ltac:(lia)) as (k9 & E9 & R9).
  destruct (Hnum 10%nat ltac:(lia)) as (k10 & E10 & R10).
  pose proof (lookup_lt_Some _ _ _ HC) as LC.
  pose proof (lookup_lt_Some _ _ _ HA) as LA.
  pose proof (lookup_lt_Some _ _ _ HT) as LT.
  unfold entry.
  rewrite (read_string_ok Bound iM _ tb b) by (auto; lia).
  cbn [mbind option_bind].
  replace (S (11 * iM)) with (11 * iM + 1)%nat by lia.
  rewrite (read_string_ok Donor iM _ td " ")
    by (auto; rewrite ?length_insert; lia).
  cbn [mbind option_bind].
  replace (S (11 * iM + 1)) with (11 * iM + 2)%nat by lia.
  rewrite (read_double_ok Center iM 0 _ k2 " " (x (11 * iM + 2)%nat)
             _ _ _ _ _ [c0; c1; c2]) by (auto; simpl; lia).
  cbn [mbind option_bind insert list_insert].
  replace (S (11 * iM + 2)) with (11 * iM + 3)%nat by lia.
  erewrite (read_double_ok Center iM 1 _ k3 " " (x (11 * iM + 3)%nat));
    [|lia|exact E3|exact R3|auto|apply list_lookup_insert_eq; lia|simpl; lia].
  cbn [mbind option_bind insert list_insert].
  replace (S (11 * iM + 3)) with (11 * iM + 4)%nat by lia.
  erewrite (read_double_ok Center iM 2 _ k4 " " (x (11 * iM + 4)%nat));
    [|lia|exact E4|exact R4|auto
     |apply list_lookup_insert_eq; rewrite ?length_insert; lia|simpl; lia].
  cbn [mbind option_bind insert list_insert].
  replace (S (11 * iM + 4)) with (11 * iM + 5)%nat by lia.
  rewrite (read_double_ok Angles iM 0 _ k5 " " (x (11 * iM + 5)%nat)
             _ _ _ _ _ [a0; a1; a2]) by (auto; simpl; lia).
  cbn [mbind option_bind insert list_insert].
  replace (S (11 * iM + 5)) with (11 * iM + 6)%nat by lia.
  erewrite (read_double_ok Angles iM 1 _ k6 " " (x (11 * iM + 6)%nat));
    [|lia|exact E6|exact R6|auto|apply list_lookup_insert_eq; lia|simpl; lia].
  cbn [mbind option_bind insert list_insert].
  replace (S (11 * iM + 6)) with (11 * iM + 7)%nat by lia.
  erewrite (read_double_ok Angles iM 2 _ k7 " " (x (11 * iM + 7)%nat));
    [|lia|exact E7|exact R7|auto
     |apply list_lookup_insert_eq; rewrite ?length_insert; lia|simpl; lia].
  cbn [mbind option_bind insert list_insert].
  replace (S (11 * iM + 7)) with (11 * iM + 8)%nat by lia.
  rewrite (read_double_ok Trans iM 0 _ k8 " " (x (11 * iM + 8)%nat)
             _ _ _ _ _ [t0; t1; t2]) by (auto; simpl; lia).
  cbn [mbind option_bind insert list_insert].
  replace (S (11 * iM + 8)) with (11 * iM + 9)%nat by lia.
  erewrite (read_double_ok Trans iM 1 _ k9 " " (x (11 * iM + 9)%nat));
    [|lia|exact E9|exact R9|auto|apply list_lookup_insert_eq; lia|simpl; lia].
  cbn [mbind option_bind insert list_insert].
  replace (S (11 * iM + 9)) with (11 * iM + 10)%nat by lia.
  erewrite (read_double_ok Trans iM 2 _ k10 " " (x (11 * iM + 10)%nat));
    [|lia|exact E10|exact R10|auto
     |apply list_lookup_insert_eq; rewrite ?length_insert; lia|simpl; lia].
  cbn [mbind option_bind insert list_insert].
  erewrite (scale_ok Angles iM 0);
    [|apply list_lookup_insert_eq; rewrite ?length_insert; lia|reflexivity].
  cbn [mbind option_bind insert list_insert].
  erewrite (scale_ok Angles iM 1);
    [|apply list_lookup_insert_eq; rewrite ?length_insert; lia|reflexivity].
  cbn [mbind option_bind insert list_insert].
  erewrite (scale_ok Angles iM 2);
    [|apply list_lookup_insert_eq; rewrite ?length_insert; lia|reflexivity].
  cbn [mbind option_bind insert list_insert].
  rewrite !list_insert_insert_eq.
  replace (S (11 * iM + 10)) with (11 * S iM)%nat by lia.
  reflexivity.
Qed.

Lemma loop_states_opt (state : nat -> locals) (n i0 : nat) :
  (forall iM, (i0 <= iM < i0 + n)%nat ->
     entry num_get value iM (state iM) = Some (state (S iM))) ->
  loop num_get value n i0 (state i0) = Some (state (i0 + n)%nat).
Proof.
  revert i0. induction n as [|n IH]; intros i0 Hbody; simpl.
  - now rewrite Nat.add_0_r.
  - rewrite Hbody by lia. simpl.
    replace (i0 + S n)%nat with (S i0 + n)%nat by lia.
    apply IH. intros iM Hi. apply Hbody. lia.
Qed.

End Steps.

(** [SetValue], called before any array is allocated on [11*k] tokens
    (fewer than [2^16]) whose marker names are words and whose numerals are
    read whole, returns with the marker count [k] and one entry for each
    group of eleven tokens: the two names, the centre, the angles converted
    to radians and the translation. *)
Lemma CMarkerPeriodicRef_SetValue_eval
    (num_get : string -> option R * string) (garbage : nat -> R)
    (value : list string) (this : t) (k : nat) (x : nat -> R) :
  unallocated this ->
  length value = (11 * k)%nat ->
  (Z.of_nat (11 * k) < 65536)%Z ->
  (forall i j, (i < k)%nat -> (j < 2)%nat ->
     exists tok, value !! (11 * i + j)%nat = Some tok /\ is_word tok = true) ->
  (forall i j, (i < k)%nat -> (2 <= j < 11)%nat ->
     exists tok, value !! (11 * i + j)%nat = Some tok /\
                 Stream.reads_whole num_get tok (x (11 * i + j)%nat)) ->
  SetValue num_get garbage value this
  = Std.Returns
      {| nMarker_PerBound_ := Z.of_nat k;
         Marker_PerBound_ :=
           Some ((fun i => default "" (value !! (11 * i)%nat)) <$> seq 0 k);
         Marker_PerDonor_ :=
           Some ((fun i => default "" (value !! (11 * i + 1)%nat))
                 <$> seq 0 k);
         Periodic_RotCenter_ :=
           Some ((fun i => [x (11 * i + 2); x (11 * i + 3);
                            x (11 * i + 4)]%nat) <$> seq 0 k);
         Periodic_RotAngles_ :=
           Some ((fun i => [x (11 * i + 5)%nat * deg2rad;
                            x (11 * i + 6)%nat * deg2rad;
                            x (11 * i + 7)%nat * deg2rad]) <$> seq 0 k);
         Periodic_Translation_ :=
           Some ((fun i => [x (11 * i + 8); x (11 * i + 9);
                            x (11 * i + 10)]%nat) <$> seq 0 k);
         cerr := cerr this |}.
Proof.
  intros (U1 & U2 & U3 & U4 & U5) Hlen Hint Hword Hnum.
  unfold SetValue. rewrite U1, U2, U3, U4, U5. cbn [is_null negb orb].
  rewrite Hlen.
  assert (Hto : Std.to_int (Z.of_nat (11 * k)) = Z.of_nat (11 * k)).
  { unfold Std.to_int. rewrite Z.mod_small by lia. lia. }
  rewrite Hto.
  replace (Z.of_nat (11 * k)) with (Z.of_nat k * 11)%Z by lia.
  rewrite Z.rem_mul by lia.
  rewrite decide_False by (intros H; now apply H).
  rewrite ushort_small by lia.
  rewrite Z.quot_mul by lia. rewrite Nat2Z.id.
  change (allocate garbage k) with (periodic_ref_state garbage value x k 0).
  rewrite (loop_states_opt num_get value
             (periodic_ref_state garbage value x k)).
  - unfold periodic_ref_state. cbn [Nat.add bound donor center angles trans].
    rewrite !fill_all_n
      by (rewrite ?length_tabulate, ?length_replicate; reflexivity).
    reflexivity.
  - intros iM HiM. unfold periodic_ref_state.
    destruct (Hword iM 0%nat ltac:(lia) ltac:(lia)) as (tb & Htb & Wtb).
    destruct (Hword iM 1%nat ltac:(lia) ltac:(lia)) as (td & Htd & Wtd).
    rewrite Nat.add_0_r in Htb.
    erewrite (entry_ok num_get value x iM _ tb td);
      [ | lia | apply blank_left_over
        | fill_len
        | fill_len
        | rewrite lookup_fill
            by (rewrite ?length_tabulate, ?length_replicate; lia);
          apply lookup_replicate_2; lia
        | rewrite lookup_fill
            by (rewrite ?length_tabulate, ?length_replicate; lia);
          apply lookup_replicate_2; lia
        | rewrite lookup_fill
            by (rewrite ?length_tabulate, ?length_replicate; lia);
          apply lookup_replicate_2; lia
        | reflexivity | reflexivity | reflexivity
        | exact Htb | exact Wtb | exact Htd | exact Wtd
        | intros j Hj; apply Hnum; lia ].
    cbn [left_over].
    f_equal. f_equal.
    + apply fill_step; [now rewrite length_tabulate, length_replicate|].
      rewrite lookup_tabulate by lia. now rewrite Htb.
    + apply fill_step; [now rewrite length_tabulate, length_replicate|].
      rewrite lookup_tabulate by lia. now rewrite Htd.
    + apply fill_step; [now rewrite length_tabulate, length_replicate|].
      now rewrite lookup_tabulate by lia.
    + apply fill_step; [now rewrite length_tabulate, length_replicate|].
      now rewrite lookup_tabulate by lia.
    + apply fill_step; [now rewrite length_tabulate, length_replicate|].
      now rewrite lookup_tabulate by lia.
Qed.

End PeriodicRefParseFacts.

Module PeriodicAgreeFacts.
Import ParseFacts PeriodicRefParseFacts.

(** [CMarkerPeriodicRef::SetValue] and [COptionPeriodic::SetValue] read the
    same entries.  On [11*k] tokens (fewer than [2^16]) whose marker names
    are words and whose numerals are read whole, the former, called before
    any array is allocated, returns with the marker count [k] and one entry
    for each group of eleven tokens (the two names, the centre, the angles
    converted to radians and the translation); the latter returns the empty
    string with the size [2*k], and its first [k] entries are those of the
    former.  The mirror entries that the latter adds have no counterpart in
    the former. *)
Theorem periodic_parsers_agree
    (num_get : string -> option R * string) (garbage : nat -> R)
    (value : list string) (ref : CMarkerPeriodicRef.t)
    (opt : COptionPeriodic.t) (k : nat) (x : nat -> R) :
  CMarkerPeriodicRef.unallocated ref ->
  length value = (11 * k)%nat ->
  (Z.of_nat (11 * k) < 65536)%Z ->
  (forall i j, (i < k)%nat -> (j < 2)%nat ->
     exists tok, value !! (11 * i + j)%nat = Some tok /\ is_word tok = true) ->
  (forall i j, (i < k)%nat -> (2 <= j < 11)%nat ->
     exists tok, value !! (11 * i + j)%nat = Some tok /\
                 Stream.reads_whole num_get tok (x (11 * i + j)%nat)) ->
  exists ref' opt',
    CMarkerPeriodicRef.SetValue num_get garbage value ref = Std.Returns ref' /\
    COptionPeriodic.SetValue num_get garbage value opt = Some ("", opt') /\
    CMarkerPeriodicRef.nMarker_PerBound_ ref' = Z.of_nat k /\
    COptionPeriodic.size opt' = Z.of_nat (2 * k) /\
    forall i, (i < k)%nat ->
      exists b d c a t,
        value !! (11 * i)%nat = Some b /\
        value !! (11 * i + 1)%nat = Some d /\
        c = [x (11 * i + 2); x (11 * i + 3); x (11 * i + 4)]%nat /\
        a = [x (11 * i + 5)%nat * PI_NUMBER / 180;
             x (11 * i + 6)%nat * PI_NUMBER / 180;
             x (11 * i + 7)%nat * PI_NUMBER / 180] /\
        t = [x (11 * i + 8); x (11 * i + 9); x (11 * i + 10)]%nat /\
        CMarkerPeriodicRef.Marker_PerBound_ ref' ≫= (.!! i) = Some b /\
        COptionPeriodic.marker_bound opt' ≫= (.!! i) = Some b /\
        CMarkerPeriodicRef.Marker_PerDonor_ ref' ≫= (.!! i) = Some d /\
        COptionPeriodic.marker_donor opt' ≫= (.!! i) = Some d /\
        CMarkerPeriodicRef.Periodic_RotCenter_ ref' ≫= (.!! i) = Some c /\
        COptionPeriodic.rot_center opt' ≫= (.!! i) = Some c /\
        CMarkerPeriodicRef.Periodic_RotAngles_ ref' ≫= (.!! i) = Some a /\
        COptionPeriodic.rot_angles opt' ≫= (.!! i) = Some a /\
        CMarkerPeriodicRef.Periodic_Translation_ ref' ≫= (.!! i) = Some t /\
        COptionPeriodic.translation opt' ≫= (.!! i) = Some t.
Proof.
  intros Hun Hlen Hint Hword Hnum.
  rewrite (CMarkerPeriodicRef_SetValue_eval num_get garbage value ref k x)
    by assumption.
  set (nb := fun i => default "" (value !! (11 * i)%nat)).
  set (nd := fun i => default "" (value !! (11 * i + 1)%nat)).
  set (x' := fun i j : nat => x (11 * i + j)%nat).
  assert (Htok : forall i, (i < k)%nat ->
            value !! (11 * i)%nat = Some (nb i) /\
            value !! (11 * i + 1)%nat = Some (nd i) /\
            COptionPeriodic.numerals num_get value i (x' i)).
  { intros i Hi. unfold nb, nd.
    destruct (lookup_lt_is_Some_2 value (11 * i)) as [tb ->]; [lia|].
    destruct (lookup_lt_is_Some_2 value (11 * i + 1)) as [td ->]; [lia|].
    split; [reflexivity|]. split; [reflexivity|].
    intros j Hj. apply Hnum; lia. }
  rewrite (PeriodicFacts.SetValue_eval _ _ _ _ k x' nb nd Hlen
             ltac:(lia) Htok).
  set (E1 := fun i => COptionPeriodic.direct_entry (nb i) (nd i) (x' i)).
  set (E2 := fun i => COptionPeriodic.mirror_entry
                        (nb (i - k)%nat) (nd (i - k)%nat) (x' (i - k)%nat)).
  set (a1 := COptionPeriodic.writes E1 0 k
               (COptionPeriodic.allocate garbage (2 * k))).
  set (a2 := COptionPeriodic.writes E2 k k a1).
  do 2 eexists. split; [reflexivity|]. split; [reflexivity|].
  split; [reflexivity|].
  split; [cbn [COptionPeriodic.pack COptionPeriodic.size];
          apply SchemeFacts.ushort_small; lia|].
  intros i Hi.
  destruct (Htok i Hi) as (Hb & Hd & _).
  assert (Lout : forall {X} (proj : COptionPeriodic.arrays -> list X)
                        (pe : COptionPeriodic.entry -> X),
            (forall j e a, proj (COptionPeriodic.write j e a)
                           = <[j := pe e]> (proj a)) ->
            length (proj (COptionPeriodic.allocate garbage (2 * k)))
            = (2 * k)%nat ->
            proj a2 !! i = Some (pe (E1 i))).
  { intros X proj pe Hw Hl.
    unfold a2. rewrite (PeriodicFacts.writes_lookup_out proj pe Hw) by lia.
    unfold a1. apply (PeriodicFacts.writes_lookup_in proj pe Hw); lia. }
  assert (Len : forall {X} (y : X), length (replicate (2 * k) y) = (2 * k)%nat)
    by (intros; apply length_replicate).
  pose proof (Lout _ COptionPeriodic.bound COptionPeriodic.e_bound
                ltac:(reflexivity) (Len _ _)) as B1.
  pose proof (Lout _ COptionPeriodic.donor COptionPeriodic.e_donor
                ltac:(reflexivity) (Len _ _)) as D1.
  pose proof (Lout _ COptionPeriodic.center COptionPeriodic.e_center
                ltac:(reflexivity) (Len _ _)) as C1.
  pose proof (Lout _ COptionPeriodic.angles COptionPeriodic.e_angles
                ltac:(reflexivity) (Len _ _)) as A1.
  pose proof (Lout _ COptionPeriodic.trans COptionPeriodic.e_trans
                ltac:(reflexivity) (Len _ _)) as T1.
  exists (nb i), (nd i),
         [x (11 * i + 2); x (11 * i + 3); x (11 * i + 4)]%nat,
         [x (11 * i + 5)%nat * PI_NUMBER / 180;
          x (11 * i + 6)%nat * PI_NUMBER / 180;
          x (11 * i + 7)%nat * PI_NUMBER / 180],
         [x (11 * i + 8); x (11 * i + 9); x (11 * i + 10)]%nat.
  split; [exact Hb|]. split; [exact Hd|].
  do 3 (split; [reflexivity|]).
  cbn [CMarkerPeriodicRef.Marker_PerBound_ CMarkerPeriodicRef.Marker_PerDonor_
       CMarkerPeriodicRef.Periodic_RotCenter_
       CMarkerPeriodicRef.Periodic_RotAngles_
       CMarkerPeriodicRef.Periodic_Translation_
       COptionPeriodic.pack COptionPeriodic.marker_bound
       COptionPeriodic.marker_donor COptionPeriodic.rot_center
       COptionPeriodic.rot_angles COptionPeriodic.translation
       mbind option_bind].
  fold a1. fold a2.
  rewrite !lookup_tabulate by lia.
  rewrite B1, D1, C1, A1, T1.
  assert (Hrad : forall y, y * CMarkerPeriodicRef.deg2rad
                           = y * PI_NUMBER / 180)
    by (intros; unfold CMarkerPeriodicRef.deg2rad; field).
  assert (Hrad' : forall y, y * COptionPeriodic.deg2rad
                            = y * PI_NUMBER / 180)
    by (intros; unfold COptionPeriodic.deg2rad; field).
  unfold E1, COptionPeriodic.direct_entry, x'.
  cbn [COptionPeriodic.e_bound COptionPeriodic.e_donor
       COptionPeriodic.e_center COptionPeriodic.e_angles
       COptionPeriodic.e_trans].
  rewrite ?Hrad, ?Hrad'.
  repeat split; reflexivity.
Qed.

Lemma periodic_parsers_agree_witness :
  let value := COptionPeriodic.rotation_30 in
  let x := fun j => IZR (Decimal.digits (default "" (value !! j)) 0 0).1.1 in
  exists ref' opt',
    CMarkerPeriodicRef.SetValue Decimal.num_get (fun _ => 0) value
      CMarkerPeriodicRef.fresh_periodic_ref = Std.Returns ref' /\
    COptionPeriodic.SetValue Decimal.num_get (fun _ => 0) value
      COptionPeriodic.periodic_option = Some ("", opt') /\
    CMarkerPeriodicRef.nMarker_PerBound_ ref' = Z.of_nat 1 /\
    COptionPeriodic.size opt' = Z.of_nat (2 * 1) /\
    forall i, (i < 1)%nat ->
      exists b d c a t,
        value !! (11 * i)%nat = Some b /\
        value !! (11 * i + 1)%nat = Some d /\
        c = [x (11 * i + 2); x (11 * i + 3); x (11 * i + 4)]%nat /\
        a = [x (11 * i + 5)%nat * PI_NUMBER / 180;
             x (11 * i + 6)%nat * PI_NUMBER / 180;
             x (11 * i + 7)%nat * PI_NUMBER / 180] /\
        t = [x (11 * i + 8); x (11 * i + 9); x (11 * i + 10)]%nat /\
        CMarkerPeriodicRef.Marker_PerBound_ ref' ≫= (.!! i) = Some b /\
        COptionPeriodic.marker_bound opt' ≫= (.!! i) = Some b /\
        CMarkerPeriodicRef.Marker_PerDonor_ ref' ≫= (.!! i) = Some d /\
        COptionPeriodic.marker_donor opt' ≫= (.!! i) = Some d /\
        CMarkerPeriodicRef.Periodic_RotCenter_ ref' ≫= (.!! i) = Some c /\
        COptionPeriodic.rot_center opt' ≫= (.!! i) = Some c /\
        CMarkerPeriodicRef.Periodic_RotAngles_ ref' ≫= (.!! i) = Some a /\
        COptionPeriodic.rot_angles opt' ≫= (.!! i) = Some a /\
        CMarkerPeriodicRef.Periodic_Translation_ ref' ≫= (.!! i) = Some t /\
        COptionPeriodic.translation opt' ≫= (.!! i) = Some t.
Proof.
  intros value x.
  apply (periodic_parsers_agree Decimal.num_get (fun _ => 0) value
           CMarkerPeriodicRef.fresh_periodic_ref
           COptionPeriodic.periodic_option 1 x).
  - repeat split.
  - reflexivity.
  - simpl. lia.
  - intros i j Hi Hj.
    assert (i = 0%nat) as -> by lia.
    assert (j = 0 \/ j = 1)%nat as [-> | ->] by lia.
    + exists "lower". split; reflexivity.
    + exists "upper". split; reflexivity.
  - intros i j Hi Hj.
    assert (i = 0%nat) as -> by lia.
    assert (j = 2 \/ j = 3 \/ j = 4 \/ j = 5 \/ j = 6 \/ j = 7 \/ j = 8 \/
            j = 9 \/ j = 10)%nat
      as [-> | [-> | [-> | [-> | [-> | [-> | [-> | [-> | ->]]]]]]]] by lia.
    + apply (InletFacts.digits_numeral value 2 "0");
        [reflexivity | discriminate | reflexivity].
    + apply (InletFacts.digits_numeral value 3 "0");
        [reflexivity | discriminate | reflexivity].
    + apply (InletFacts.digits_numeral value 4 "0");
        [reflexivity | discriminate | reflexivity].
    + apply (InletFacts.digits_numeral value 5 "0");
        [reflexivity | discriminate | reflexivity].
    + apply (InletFacts.digits_numeral value 6 "0");
        [reflexivity | discriminate | reflexivity].
    + apply (InletFacts.digits_numeral value 7 "30");
        [reflexivity | discriminate | reflexivity].
    + apply (InletFacts.digits_numeral value 8 "0");
        [reflexivity | discriminate | reflexivity].
    + apply (InletFacts.digits_numeral value 9 "0");
        [reflexivity | discriminate | reflexivity].
    + apply (InletFacts.digits_numeral value 10 "0");
        [reflexivity | discriminate | reflexivity].
Defined.

End PeriodicAgreeFacts.

Module ArrayFacts.
Import ListOptionFacts.

(** ** [COptionDoubleArray] *)

(** [COptionDoubleArray::SetValue], for an array of [size] cells with
    [0 <= size <= INT_MAX]: the message is empty exactly when the list has
    [size] tokens and each of them converts, taken alone; the field then
    holds the [size] converted values in the order of the tokens.  In every
    other case the option is left as it was; on a wrong number of tokens
    the message gives the number expected and the number found, in
    decimal. *)
Theorem COptionDoubleArray_SetValue_spec
    (num_get : string -> option R * string) (garbage : nat -> R)
    (option_value : list string) (this : COptionDoubleArray.t) :
  (0 <= COptionDoubleArray.size this <= Std.INT_MAX)%Z ->
  exists msg this',
    COptionDoubleArray.SetValue num_get garbage option_value this
    = Some (msg, this') /\
    (msg = "" <->
     Z.of_nat (length option_value) = COptionDoubleArray.size this /\
     is_Some (mapM (COptionDoubleList.convert num_get) option_value)) /\
    (msg = "" ->
     exists vals,
       mapM (COptionDoubleList.convert num_get) option_value = Some vals /\
       this' = COptionDoubleArray.set_field (Some vals) this /\
       Z.of_nat (length vals) = COptionDoubleArray.size this) /\
    (msg <> "" -> this' = this) /\
    (Z.of_nat (length option_value) <> COptionDoubleArray.size this ->
     msg = COptionDoubleArray.name this +:+ ": wrong number of arguments: "
           +:+ pretty (COptionDoubleArray.size this) +:+ " expected, "
           +:+ pretty (length option_value) +:+ " found").
Proof.
  intros Hsize. unfold COptionDoubleArray.SetValue,
    COptionDoubleArray.size_differs.
  rewrite (Z.mod_small (COptionDoubleArray.size this))
    by (unfold Std.INT_MAX in Hsize; lia).
  case_decide as Hlen.
  - do 2 eexists. split; [reflexivity|].
    assert (Hmsg : COptionDoubleArray.wrong_number_of_arguments option_value
                     this <> "").
    { unfold COptionDoubleArray.wrong_number_of_arguments.
      apply OptionFacts.append_nonempty_r. discriminate. }
    split; [split|split; [|split]].
    + intros H. now contradict Hmsg.
    + intros [H _]. now contradict Hlen.
    + intros H. now contradict Hmsg.
    + reflexivity.
    + reflexivity.
  - assert (Hlen' : Z.of_nat (length option_value)
                    = COptionDoubleArray.size this)
      by (destruct (decide (Z.of_nat (length option_value)
                            = COptionDoubleArray.size this)); tauto).
    clear Hlen. rename Hlen' into Hlen.
    rewrite decide_False by lia.
    rewrite <- Hlen, Nat2Z.id.
    rewrite COptionDoubleList_loop
      by (rewrite ?TurbFacts.length_new_double; lia).
    rewrite drop_0. cbn [take app].
    destruct (mapM _ option_value) as [xs|] eqn:Hxs; cbn [mbind option_bind].
    + do 2 eexists. split; [reflexivity|].
      split; [split|split; [|split]].
      * intros _. split; [reflexivity | eauto].
      * reflexivity.
      * intros _. exists xs. split; [reflexivity|]. split; [reflexivity|].
        apply length_mapM in Hxs. lia.
      * intros H. now contradict H.
      * intros H. now contradict H.
    + do 2 eexists. split; [reflexivity|].
      split; [split|split; [|split]].
      * intros H. now apply OptionFacts.badValue_nonempty in H.
      * intros [_ [? [=]]].
      * intros H. now apply OptionFacts.badValue_nonempty in H.
      * reflexivity.
      * intros H. now contradict H.
Qed.

Lemma COptionDoubleArray_SetValue_spec_witness :
  let this := {| COptionDoubleArray.field := None;
                 COptionDoubleArray.name := "REF_ORIGIN_MOMENT";
                 COptionDoubleArray.size := 3;
                 COptionDoubleArray.default_value := None |} in
  exists msg this',
    COptionDoubleArray.SetValue Decimal.num_get (fun _ => 0) ["0"; "1"] this
    = Some (msg, this') /\
    (msg = "" <->
     Z.of_nat (length ["0"; "1"]) = COptionDoubleArray.size this /\
     is_Some (mapM (COptionDoubleList.convert Decimal.num_get) ["0"; "1"])) /\
    (msg = "" ->
     exists vals,
       mapM (COptionDoubleList.convert Decimal.num_get) ["0"; "1"]
       = Some vals /\
       this' = COptionDoubleArray.set_field (Some vals) this /\
       Z.of_nat (length vals) = COptionDoubleArray.size this) /\
    (msg <> "" -> this' = this) /\
    (Z.of_nat (length ["0"; "1"]) <> COptionDoubleArray.size this ->
     msg = COptionDoubleArray.name this +:+ ": wrong number of arguments: "
           +:+ pretty (COptionDoubleArray.size this) +:+ " expected, "
           +:+ pretty (length ["0"; "1"]) +:+ " found").
Proof.
  intros this.
  apply (COptionDoubleArray_SetValue_spec Decimal.num_get (fun _ => 0)
           ["0"; "1"] this).
  vm_compute. split; discriminate.
Defined.

(** The message of the instance above. *)
Lemma COptionDoubleArray_message :
  COptionDoubleArray.wrong_number_of_arguments ["0"; "1"]
    {| COptionDoubleArray.field := None;
       COptionDoubleArray.name := "REF_ORIGIN_MOMENT";
       COptionDoubleArray.size := 3;
       COptionDoubleArray.default_value := None |}
  = "REF_ORIGIN_MOMENT: wrong number of arguments: 3 expected, 2 found".
Proof. vm_compute. reflexivity. Qed.

(** ** [CListOptionRef] *)

Section ListRef.

Context {T : Type}.
Variable extract : Stream.stringstream -> option T * Stream.stringstream.
Variable fresh : nat -> T.
Variable value : list string.

Lemma CListOptionRef_loop_total (n : nat) : forall i ss (arr : list T),
  (i + n <= length value)%nat -> (i + n <= length arr)%nat ->
  exists arr',
    CListOptionRef.loop extract value n i ss arr = Some arr' /\
    length arr' = length arr.
Proof.
  induction n as [|n IH]; intros i ss arr Hv Ha;
    cbn [CListOptionRef.loop].
  - eauto.
  - destruct (lookup_lt_is_Some_2 value i) as [tok Htok]; [lia|].
    rewrite Htok. cbn [mbind option_bind].
    destruct (extract _) as [[y|] ss'].
    + rewrite store1_Some by lia. cbn [mbind option_bind].
      destruct (IH (S i) ss' (<[i := y]> arr)) as (arr' & E & L);
        [lia | rewrite length_insert; lia |].
      exists arr'. split; [exact E|]. now rewrite L, length_insert.
    + rewrite decide_True by lia. cbn [mbind option_bind].
      apply IH; lia.
Qed.

(** [CListOptionRef::SetValue] always has a defined behaviour.  Called
    while the list is [NULL], it returns with an array of as many cells as
    the size it has stored, the number of tokens as an [unsigned short].
    Called when the list is allocated, it throws and leaves the list as it
    was, but it has already overwritten the size with the number of tokens
    of this call. *)
Theorem CListOptionRef_SetValue_size (this : CListOptionRef.t T) :
  match CListOptionRef.SetValue extract fresh value this with
  | Std.Returns this' =>
      CListOptionRef.ref_ this = None /\
      CListOptionRef.ref_size_ this'
      = Std.ushort (Z.of_nat (length value)) /\
      exists arr,
        CListOptionRef.ref_ this' = Some arr /\
        Z.of_nat (length arr) = CListOptionRef.ref_size_ this'
  | Std.Throws code this' =>
      code = (-1)%Z /\
      CListOptionRef.ref_ this <> None /\
      CListOptionRef.ref_ this' = CListOptionRef.ref_ this /\
      CListOptionRef.ref_size_ this'
      = Std.ushort (Z.of_nat (length value))
  | Std.Undefined => False
  end.
Proof.
  unfold CListOptionRef.SetValue.
  destruct (CListOptionRef.ref_ this) as [old|] eqn:Hold; cbn [is_null negb].
  - repeat split. discriminate.
  - pose proof (EnumListFacts.ushort_le (Z.of_nat (length value))
                  ltac:(lia)) as Hsz.
    destruct (CListOptionRef_loop_total
                (Z.to_nat (Std.ushort (Z.of_nat (length value)))) 0
                Stream.empty
                (map fresh
                   (seq 0 (Z.to_nat (Std.ushort (Z.of_nat (length value)))))))
      as (arr & E & L);
      [lia | rewrite length_map, length_seq; lia |].
    rewrite E. split; [reflexivity|]. split; [reflexivity|].
    exists arr. split; [reflexivity|].
    cbn [CListOptionRef.ref_size_].
    rewrite L, length_map, length_seq. lia.
Qed.

End ListRef.

(** A second call with another number of tokens leaves a size that is not
    the length of the list. *)
Lemma CListOptionRef_size_mismatch :
  let extract := Stream.get_double Decimal.num_get in
  let first := {| CListOptionRef.ref_ := Some [1; 2];
                  CListOptionRef.ref_size_ := 2;
                  CListOptionRef.cerr := "" |} in
  exists this',
    CListOptionRef.SetValue extract (fun _ => 0) ["3"] first
    = Std.Throws (-1) this' /\
    CListOptionRef.ref_ this' = Some [1; 2] /\
    CListOptionRef.ref_size_ this' = 1%Z.
Proof.
  intros extract first. eexists. split; [reflexivity|]. split; reflexivity.
Qed.

End ArrayFacts.
